(** * tv_grab_fr_telerama: a shallow embedding of the grabber's record
      parsing and mapping code, and the properties it satisfies.

    The embedding follows [tv_grab_fr_telerama.py].  Python strings are
    sequences of Unicode code points, the loops of the source are written
    with explicit state, and the calls into [re], [datetime] and [pytz]
    are modelled by the fragment of their behaviour that the grabber
    exercises; the search [Element.find] of [xml.etree], whose path holds a
    field of the feed, is modelled for every path.  The configuration file
    is a text, the terminal of [configure] a list of input lines and the
    text written, and the responses of the network are arguments of the
    functions that read them. *)

From Stdlib Require Import String Ascii.
From Stdlib Require Import List NArith ZArith Bool Arith Lia.
Import ListNotations.

(* ================================================================== *)
(** * Part I. Definitions                                              *)
(* ================================================================== *)

(** ** Python strings *)

(** A character is a Unicode code point; a [str] is a sequence of them. *)
Definition char := N.
Definition str := list char.

Fixpoint str_eqb (a b : str) : bool :=
  match a, b with
  | [], [] => true
  | x :: a', y :: b' => N.eqb x y && str_eqb a' b'
  | _, _ => false
  end.

(** Literals of the source file are written as Rocq strings, which hold the
    bytes of their UTF-8 encoding; [py] decodes them to code points as the
    Python compiler does for a source file in UTF-8. *)
Fixpoint utf8_decode (bs : list N) : str :=
  match bs with
  | [] => []
  | b :: r =>
      if (b <? 128)%N then b :: utf8_decode r
      else if (b <? 224)%N then
        match r with
        | b1 :: r1 => ((b - 192) * 64 + (b1 - 128))%N :: utf8_decode r1
        | [] => []
        end
      else
        match r with
        | b1 :: b2 :: r2 =>
            ((b - 224) * 4096 + (b1 - 128) * 64 + (b2 - 128))%N :: utf8_decode r2
        | _ => []
        end
  end.

Definition py (s : string) : str :=
  utf8_decode (map N_of_ascii (list_ascii_of_string s)).

(** [s[i:j]] for [0 <= i <= j]: the slice stops at the end of the string. *)
Definition slice (s : str) (i j : nat) : str := firstn (j - i) (skipn i s).

(** [sep.join(l)] *)
Fixpoint join (sep : str) (l : list str) : str :=
  match l with
  | [] => []
  | x :: l' =>
      match l' with
      | [] => x
      | _ :: _ => x ++ sep ++ join sep l'
      end
  end.

(** ** [split_outside_delimiters] (lines 130-153) *)

(** The local variables of the loop. *)
Record split_state : Type := mk_split_state {
  result : list str;
  tmp : str;
  level : Z;
  idx : nat
}.

(** The change of [level] decided by lines 145-148 at the text [t] that
    starts at the current index: [t[0:d1] == delimiter1] is tried first. *)
Definition starts_with (p t : str) : bool :=
  str_eqb (firstn (length p) t) p.

Definition delta (delimiter1 delimiter2 t : str) : Z :=
  if starts_with delimiter1 t then 1%Z
  else if starts_with delimiter2 t then (-1)%Z
  else 0%Z.

(** One iteration of the [while] body (lines 140-150). *)
Definition split_body (string separator delimiter1 delimiter2 : str)
    (st : split_state) : split_state :=
  let s := length separator in
  let d1 := length delimiter1 in
  let d2 := length delimiter2 in
  let i := idx st in
  if str_eqb (slice string i (i + s)) separator && (level st =? 0)%Z then
    {| result := result st ++ [tmp st]; tmp := []; level := level st;
       idx := i + s |}
  else
    let level' :=
      if str_eqb (slice string i (i + d1)) delimiter1 then (level st + 1)%Z
      else if str_eqb (slice string i (i + d2)) delimiter2 then (level st - 1)%Z
      else level st in
    {| result := result st; tmp := tmp st ++ slice string i (i + 1);
       level := level'; idx := i + 1 |}.

(** The [while i < n] loop; [None] when the fuel runs out. *)
Fixpoint split_loop (fuel : nat) (string separator delimiter1 delimiter2 : str)
    (st : split_state) : option split_state :=
  match fuel with
  | O => None
  | S fuel' =>
      if idx st <? length string then
        split_loop fuel' string separator delimiter1 delimiter2
          (split_body string separator delimiter1 delimiter2 st)
      else Some st
  end.

Definition split_init : split_state :=
  {| result := []; tmp := []; level := 0%Z; idx := 0 |}.

Definition split_fuel (fuel : nat) (string separator delimiter1 delimiter2 : str)
  : option (list str) :=
  match split_loop fuel string separator delimiter1 delimiter2 split_init with
  | Some st => Some (result st ++ [tmp st])
  | None => None
  end.

(** Every iteration of the loop advances [i] by at least one when the
    separator is not empty, so [len(string) + 1] tests of the loop condition
    are enough; with an empty separator the loop of the source never ends on
    a non-empty string, and the model answers [None]. *)
Definition split_outside_delimiters (string separator delimiter1 delimiter2 : str)
  : option (list str) :=
  split_fuel (S (length string)) string separator delimiter1 delimiter2.

(** The same loop, on the text that is left to read instead of an index
    into the string. *)
Fixpoint scan (fuel : nat) (separator delimiter1 delimiter2 : str)
    (res : list str) (tm : str) (lvl : Z) (rest : str) : option (list str) :=
  match fuel with
  | O => None
  | S fuel' =>
      match rest with
      | [] => Some (res ++ [tm])
      | c :: rest' =>
          if starts_with separator rest && (lvl =? 0)%Z then
            scan fuel' separator delimiter1 delimiter2 (res ++ [tm]) [] lvl
              (skipn (length separator) rest)
          else
            scan fuel' separator delimiter1 delimiter2 res (tm ++ [c])
              (lvl + delta delimiter1 delimiter2 rest)%Z rest'
      end
  end.

(** *** Vocabulary of the splitter's specification *)

(** The nesting level after the text [t], read from level [lvl]: opening
    delimiters seen minus closing delimiters seen. *)
Fixpoint depth (delimiter1 delimiter2 : str) (lvl : Z) (t : str) : Z :=
  match t with
  | [] => lvl
  | _ :: t' => depth delimiter1 delimiter2 (lvl + delta delimiter1 delimiter2 t)%Z t'
  end.

(** The number of positions of [t] at which the separator occurs while the
    nesting level is zero. *)
Fixpoint level0_occurrences (separator delimiter1 delimiter2 : str)
    (lvl : Z) (t : str) : nat :=
  match t with
  | [] => 0
  | _ :: t' =>
      (if starts_with separator t && (lvl =? 0)%Z then 1 else 0)
      + level0_occurrences separator delimiter1 delimiter2
          (lvl + delta delimiter1 delimiter2 t)%Z t'
  end.

(** Balanced delimiters: the level never drops below zero and ends at zero. *)
Definition balanced (delimiter1 delimiter2 t : str) : Prop :=
  (forall p q, t = p ++ q -> (0 <= depth delimiter1 delimiter2 0 p)%Z)
  /\ depth delimiter1 delimiter2 0 t = 0%Z.

(** No proper non-empty suffix of the separator starts the separator again:
    two occurrences of the separator cannot overlap. *)
Definition unbordered (separator : str) : bool :=
  forallb (fun k => negb (starts_with (skipn k separator) separator))
          (seq 1 (length separator - 1)).

(** [mem c s]: the character occurs in the string. *)
Definition mem (c : char) (s : str) : bool := existsb (N.eqb c) s.

(** ** More of Python's [str] *)

(** [str.isspace] for one character, which is also the class [\s] of [re]
    on [str] patterns. *)
Definition is_space (x : char) : bool :=
  ((9 <=? x) && (x <=? 13) || (28 <=? x) && (x <=? 32) || (x =? 133)
   || (x =? 160) || (x =? 5760) || (8192 <=? x) && (x <=? 8202)
   || (x =? 8232) || (x =? 8233) || (x =? 8239) || (x =? 8287)
   || (x =? 12288))%N.

Definition newline : char := 10%N.

Fixpoint lstrip (s : str) : str :=
  match s with
  | [] => []
  | x :: s' => if is_space x then lstrip s' else s
  end.

(** [s.strip()] *)
Definition strip (s : str) : str := rev (lstrip (rev (lstrip s))).

(** [s.split(sep)] for a non-empty [sep]: [skip] counts the characters of a
    separator occurrence still to be passed over. *)
Fixpoint split_go (sep : str) (skip : nat) (cur : str) (s : str) : list str :=
  match s with
  | [] => [cur]
  | x :: s' =>
      match skip with
      | S k => split_go sep k cur s'
      | O =>
          if starts_with sep s then cur :: split_go sep (length sep - 1) [] s'
          else split_go sep 0 (cur ++ [x]) s'
      end
  end.

Definition str_split (sep s : str) : list str := split_go sep 0 [] s.

(** [s.replace(old, new)] for a non-empty [old]: every occurrence of [old],
    found from left to right without overlap, is replaced. *)
Fixpoint replace_go (old new : str) (skip : nat) (s : str) : str :=
  match s with
  | [] => []
  | x :: s' =>
      match skip with
      | S k => replace_go old new k s'
      | O =>
          if starts_with old s then new ++ replace_go old new (length old - 1) s'
          else x :: replace_go old new 0 s'
      end
  end.

Definition str_replace (old new s : str) : str := replace_go old new 0 s.

(** [int(s)] on a string of ASCII digits, as the groups [[0-9]+] are.
    Python's integers have no bound; the cap that an interpreter may put on
    the number of digits of a conversion ([sys.set_int_max_str_digits]) is a
    setting of the interpreter, not of the program, and is not modelled. *)
Definition int_of_digits (s : str) : Z :=
  fold_left (fun acc x => (10 * acc + (Z.of_N x - 48))%Z) s 0%Z.

(** The decimal digits of Unicode 14 (category [Nd]), which [\d] matches and
    [int] reads: each entry is the digit zero of a script, and the nine
    characters after it are its digits one to nine. *)
Definition decimal_zeros : list N :=
  [
    48; 1632; 1776; 1984; 2406; 2534; 2662; 2790;
    2918; 3046; 3174; 3302; 3430; 3558; 3664; 3792;
    3872; 4160; 4240; 6112; 6160; 6470; 6608; 6784;
    6800; 6992; 7088; 7232; 7248; 42528; 43216; 43264;
    43472; 43504; 43600; 44016; 65296; 66720; 68912; 69734;
    69872; 69942; 70096; 70384; 70736; 70864; 71248; 71360;
    71472; 71904; 72016; 72784; 73040; 73120; 92768; 92864;
    93008; 120782; 120792; 120802; 120812; 120822; 123200; 123632;
    125264; 130032 ]%N.

(** The value of a decimal digit. *)
Definition decimal_value (x : char) : option Z :=
  match find (fun z => (z <=? x) && (x <=? z + 9))%N decimal_zeros with
  | Some z => Some (Z.of_N (x - z))
  | None => None
  end.

Definition is_decimal (x : char) : bool :=
  match decimal_value x with
  | Some _ => true
  | None => false
  end.

Fixpoint str_of_uint (u : Decimal.uint) : str :=
  match u with
  | Decimal.Nil => []
  | Decimal.D0 u' => 48%N :: str_of_uint u'
  | Decimal.D1 u' => 49%N :: str_of_uint u'
  | Decimal.D2 u' => 50%N :: str_of_uint u'
  | Decimal.D3 u' => 51%N :: str_of_uint u'
  | Decimal.D4 u' => 52%N :: str_of_uint u'
  | Decimal.D5 u' => 53%N :: str_of_uint u'
  | Decimal.D6 u' => 54%N :: str_of_uint u'
  | Decimal.D7 u' => 55%N :: str_of_uint u'
  | Decimal.D8 u' => 56%N :: str_of_uint u'
  | Decimal.D9 u' => 57%N :: str_of_uint u'
  end.

(** ["{}".format(z)] for an [int] *)
Definition str_of_Z (z : Z) : str :=
  match z with
  | Z0 => [48%N]
  | Zpos p => str_of_uint (Pos.to_uint p)
  | Zneg p => 45%N :: str_of_uint (Pos.to_uint p)
  end.

(** ** The fragment of [re] that the grabber uses *)

(** Character sets. *)
Inductive cset : Type :=
| CChar (x : char)          (* a literal character *)
| CAny                      (* [.]: any character but a newline *)
| CSpace                    (* [\s] *)
| CRange (lo hi : char)     (* [[lo-hi]] *)
| COneOf (xs : str)         (* a set of literal characters *)
| CNoneOf (xs : str) (blank : bool)
                            (* a negated set of literal characters, and of
                               [\s] when [blank] *)
| CDecimal.                 (* [\d] *)

Definition in_cset (cs : cset) (x : char) : bool :=
  match cs with
  | CChar y => N.eqb x y
  | CAny => negb (N.eqb x newline)
  | CSpace => is_space x
  | CRange lo hi => (lo <=? x)%N && (x <=? hi)%N
  | COneOf xs => mem x xs
  | CNoneOf xs blank => negb (mem x xs) && negb (blank && is_space x)
  | CDecimal => is_decimal x
  end.

(** Patterns.  Every repetition in the source is over one character set. *)
Inductive regex : Type :=
| Eps
| One (cs : cset)
| Bol                       (* [^] under [re.MULTILINE] *)
| Eol                       (* [$] under [re.MULTILINE] *)
| Seq (r1 r2 : regex)
| Alt (r1 r2 : regex)       (* [r1|r2]: [r1] is tried first *)
| Star (cs : cset)          (* greedy [*] *)
| Group (n : nat) (r : regex).

Definition Plus (cs : cset) : regex := Seq (One cs) (Star cs).
Definition Opt (r : regex) : regex := Alt r Eps.

Fixpoint Lit (s : str) : regex :=
  match s with
  | [] => Eps
  | x :: s' => Seq (One (CChar x)) (Lit s')
  end.

(** A sequence and an alternation of several patterns. *)
Fixpoint Seqs (l : list regex) : regex :=
  match l with
  | [] => Eps
  | r :: l' =>
      match l' with
      | [] => r
      | _ :: _ => Seq r (Seqs l')
      end
  end.

Fixpoint Alts (l : list regex) : regex :=
  match l with
  | [] => Eps
  | r :: l' =>
      match l' with
      | [] => r
      | _ :: _ => Alt r (Alts l')
      end
  end.

Definition digit : cset := CRange 48%N 57%N.

(** The set of one character, and a range of characters, written as
    strings. *)
Definition chr (s : string) : cset :=
  match py s with
  | x :: _ => CChar x
  | [] => CAny
  end.

Definition rng (lo hi : string) : cset :=
  match py lo, py hi with
  | x :: _, y :: _ => CRange x y
  | _, _ => CAny
  end.

(** A position of the match: the character before it ([None] at the start
    of the string), the text after it, and the groups captured so far, the
    latest first. *)
Definition captures := list (nat * str).

Record mstate : Type := mk_mstate {
  prev : option char;
  rest : str;
  caps : captures
}.

Definition at_bol (p : option char) : bool :=
  match p with
  | None => true
  | Some x => N.eqb x newline
  end.

Definition at_eol (s : str) : bool :=
  match s with
  | [] => true
  | x :: _ => N.eqb x newline
  end.

(** [$] without [re.MULTILINE]: the end of the string, or the place before
    a newline that ends the string. *)
Definition at_end (s : str) : bool :=
  match s with
  | [] => true
  | x :: s' =>
      match s' with
      | [] => N.eqb x newline
      | _ :: _ => false
      end
  end.

(** A match object: its groups, and the text left after the match. *)
Definition match_object : Type := captures * str.

Definition kont : Type := mstate -> option match_object.

(** Greedy repetition of a character test: the longest run is tried first,
    and given back one character at a time while the continuation fails. *)
Fixpoint star (p : char -> bool) (k : kont) (pv : option char) (s : str)
    (cp : captures) : option match_object :=
  match s with
  | x :: s' =>
      if p x then
        match star p k (Some x) s' cp with
        | Some m => Some m
        | None => k (mk_mstate pv s cp)
        end
      else k (mk_mstate pv s cp)
  | [] => k (mk_mstate pv s cp)
  end.

(** The backtracking matcher, in continuation-passing style. *)
Fixpoint rmatch (r : regex) (k : kont) (st : mstate) : option match_object :=
  match r with
  | Eps => k st
  | One cs =>
      match rest st with
      | x :: s' => if in_cset cs x then k (mk_mstate (Some x) s' (caps st)) else None
      | [] => None
      end
  | Bol => if at_bol (prev st) then k st else None
  | Eol => if at_eol (rest st) then k st else None
  | Seq r1 r2 => rmatch r1 (rmatch r2 k) st
  | Alt r1 r2 =>
      match rmatch r1 k st with
      | Some m => Some m
      | None => rmatch r2 k st
      end
  | Star cs => star (in_cset cs) k (prev st) (rest st) (caps st)
  | Group n r1 =>
      rmatch r1
        (fun st' =>
           k (mk_mstate (prev st') (rest st')
                ((n, firstn (length (rest st) - length (rest st')) (rest st))
                   :: caps st')))
        st
  end.

Definition accept : kont := fun st => Some (caps st, rest st).

(** One try of the pattern, at the position after the character [pv]. *)
Definition try_at (r : regex) (pv : option char) (s : str) : option match_object :=
  rmatch (Group 0 r) accept (mk_mstate pv s []).

(** [re.match]: the pattern is tried at the start of the string only. *)
Definition re_match (r : regex) (s : str) : option match_object :=
  rmatch (Group 0 r) accept (mk_mstate None s []).

(** [re.search]: the pattern is tried at every position from the left, and
    the first position where it matches wins. *)
Fixpoint search_from (r : regex) (pv : option char) (s : str)
  : option match_object :=
  match rmatch (Group 0 r) accept (mk_mstate pv s []) with
  | Some m => Some m
  | None =>
      match s with
      | [] => None
      | x :: s' => search_from r (Some x) s'
      end
  end.

Definition re_search (r : regex) (s : str) : option match_object :=
  search_from r None s.

(** [m.group(n)]: [None] for a group that took no part in the match. *)
Fixpoint lookup_group (n : nat) (cp : captures) : option str :=
  match cp with
  | [] => None
  | (i, v) :: cp' => if Nat.eqb i n then Some v else lookup_group n cp'
  end.

Definition group (m : match_object) (n : nat) : option str :=
  lookup_group n (fst m).

(** [m.group(n)] where the pattern makes group [n] take part in every
    match. *)
Definition group_str (m : match_object) (n : nat) : str :=
  match group m n with
  | Some v => v
  | None => []
  end.

Definition is_some {A : Type} (o : option A) : bool :=
  match o with
  | Some _ => true
  | None => false
  end.

(** ** Exceptions *)

Inductive error : Type :=
| IndexError        (* [data[i]] past the end of the record *)
| ValueError        (* [strptime] on a malformed date or time *)
| AttributeError    (* [m.group(1)] where [m] is [None] *)
| OverflowError     (* a date past [datetime.max] *)
| SyntaxError       (* a path that [ElementPath] cannot compile *)
| KeyError          (* a token that opens no step of a path *)
| TypeError         (* a selector or a generator that is [None] *)
| RuntimeError      (* a wildcard name that [_prepare_tag] does not know *)
| RecursionError.   (* calls nested deeper than the interpreter allows *)

Inductive outcome (A : Type) : Type :=
| Ok (a : A)
| Err (e : error).

Arguments Ok {A} a.
Arguments Err {A} e.

Definition bind {A B : Type} (x : outcome A) (f : A -> outcome B) : outcome B :=
  match x with
  | Ok a => f a
  | Err e => Err e
  end.

Notation "x <- e ;; k" := (bind e (fun x => k))
  (at level 61, e at next level, right associativity).

(** [data[i]] *)
Definition item (data : list str) (i : nat) : outcome str :=
  match nth_error data i with
  | Some v => Ok v
  | None => Err IndexError
  end.

(** ** Channel identifiers (lines 69-78) *)

Definition telerama_domain : str := Eval vm_compute in py ".tv.telerama.fr".

Definition telerama_to_xmltv_id (channel_id : str) : str :=
  channel_id ++ telerama_domain.

Definition xmltv_to_telerama_id (channel_id : str) : str :=
  str_replace telerama_domain [] channel_id.

(** [x] contains the text [t]. *)
Definition contains (t x : str) : Prop := exists p q, x = p ++ t ++ q.

(** ** [translate_categories] (lines 81-127) *)

Definition categories : list (str * str) := Eval vm_compute in
  [ (py "Ballet", py "Music / Ballet / Dance");
    (py "Clips", py "Music / Ballet / Dance");
    (py "Concert", py "Music / Ballet / Dance");
    (py "Débat", py "Talk show");
    (py "Dessin animé", py "Cartoons / Puppets");
    (py "Divers", py "");
    (py "Divertissement", py "Variety show");
    (py "Documentaire", py "Documentary");
    (py "Émission", py "");
    (py "Emission du bien-être", py "Fitness and health");
    (py "Emission du bien-êtr", py "Fitness and health");
    (py "Feuilleton", py "Soap / Melodrama / Folkloric");
    (py "Feuilleton sentimental", py "Romance");
    (py "Film", py "Movie / Drama");
    (py "Fin", py "");
    (py "Fitness", py "Fitness and health");
    (py "Interview", py "Discussion / Interview / Debate");
    (py "Jeu", py "Game show / Quiz / Contest");
    (py "Jeunesse", py "Children's / Youth programmes");
    (py "Journal", py "News / Current affairs");
    (py "Loterie", py "Game show / Quiz / Contest");
    (py "Magazine", py "Magazines / Reports / Documentary");
    (py "Météo", py "News / Weather report");
    (py "Opéra", py "Musical / Opera");
    (py "Politique", py "Social / Political issues / Economics");
    (py "Religion", py "Religion");
    (py "Série", py "Movie / Drama");
    (py "Spectacle", py "Performing arts");
    (py "Sport", py "Sports");
    (py "Talk show", py "Talk show");
    (py "Téléfilm", py "Movie / Drama");
    (py "Téléréalité", py "Variety show");
    (py "Théâtre", py "Performing arts");
    (py "Tiercé", py "Sports");
    (py "Variétés", py "Variety show");
    (py "Voyance", py "Leisure hobbies") ].

Fixpoint dict_get (d : list (str * str)) (key : str) : option str :=
  match d with
  | [] => None
  | (k, v) :: d' => if str_eqb k key then Some v else dict_get d' key
  end.

Definition s_unmanaged : str := Eval vm_compute in py "Unmanaged category: ".

(** The translation, and the lines written to [sys.stderr]. *)
Definition translate_categories (category : str) : str * list str :=
  match dict_get categories category with
  | Some v => (v, [])
  | None => ([], [s_unmanaged ++ category])
  end.

(** ** [xml.etree.ElementTree] *)

(** An element: its tag, its attributes in insertion order, its text and
    its children. *)
#[warnings="-register-all"]
Inductive element : Type :=
| Element (tag : str) (attrib : list (str * str)) (text : option str)
    (children : list element).

Definition tag (e : element) : str :=
  match e with Element t _ _ _ => t end.

Definition attrib (e : element) : list (str * str) :=
  match e with Element _ a _ _ => a end.

Definition text (e : element) : option str :=
  match e with Element _ _ t _ => t end.

Definition children (e : element) : list element :=
  match e with Element _ _ _ c => c end.

(** [e.get(key)] *)
Definition get (e : element) (key : str) : option str :=
  dict_get (attrib e) key.

(** [e.append(child)] *)
Definition append (e child : element) : element :=
  match e with
  | Element t a x c => Element t a x (c ++ [child])
  end.

(** [e.insert(0, child)] *)
Definition insert0 (e child : element) : element :=
  match e with
  | Element t a x c => Element t a x (child :: c)
  end.

(** [e.set(key, value)] for a key that [e] does not have yet. *)
Definition set_attrib (e : element) (key value : str) : element :=
  match e with
  | Element t a x c => Element t (a ++ [(key, value)]) x c
  end.

(** An element with a text and no child, and one with neither. *)
Definition text_element (t : str) (a : list (str * str)) (x : str) : element :=
  Element t a (Some x) [].

Definition empty_element (t : str) (a : list (str * str)) : element :=
  Element t a None [].

Definition s_channel : str := Eval vm_compute in py "channel".
Definition s_programme : str := Eval vm_compute in py "programme".
Definition s_id : str := Eval vm_compute in py "id".
Definition s_lang : str := Eval vm_compute in py "lang".
Definition s_fr : str := Eval vm_compute in py "fr".
Definition s_category : str := Eval vm_compute in py "category".
Definition s_actor : str := Eval vm_compute in py "actor".
Definition s_role : str := Eval vm_compute in py "role".
Definition s_episode_num : str := Eval vm_compute in py "episode-num".

Definition is_channel (channel_id : str) (e : element) : bool :=
  str_eqb (tag e) s_channel
  && match get e s_id with
     | Some v => str_eqb v channel_id
     | None => false
     end.

(** The first child of the root that is a [channel] element with this
    [id]. *)
Definition find_channel (root : element) (channel_id : str) : option element :=
  find (is_channel channel_id) (children root).

(** ** [xml.etree.ElementPath] *)

(** [Element.find] of line 235 is given a path with a predicate; it hands
    such a path to [ElementPath.find], which splits it into tokens,
    compiles the tokens to a list of selectors and runs the selectors on the
    element.  The model follows [xml/etree/ElementPath.py] and the path test
    of [_elementtree.c] as CPython 3.11 has them, for documents in which no
    element object is a child twice: an element is then known by its place
    under the element on which the search started. *)

Definition double_quote : char := 34%N.
Definition single_quote : char := 39%N.
Definition open_brace : char := 123%N.
Definition close_brace : char := 125%N.
Definition colon_char : char := 58%N.
Definition asterisk : char := 42%N.
Definition minus_sign : char := 45%N.
Definition plus_sign : char := 43%N.
Definition underscore : char := 95%N.

(** A text between two quotes [q], with no [q] inside. *)
Definition quoted_re (q : char) : regex :=
  Seqs [One (CChar q); Star (CNoneOf [q] false); One (CChar q)].

(** The first group of [xpath_tokenizer_re]: a quoted text, or one of
    [::], [//], [/], [..], [()], [!=] and the single characters
    [/.*:[]()@=]. *)
Definition token_symbol_re : regex :=
  Alts [ quoted_re single_quote;
         quoted_re double_quote;
         Lit (py "::");
         Seq (One (chr "/")) (Opt (One (chr "/")));
         Lit (py "..");
         Lit (py "()");
         Lit (py "!=");
         One (COneOf (py "/.*:[]()@=")) ].

(** The second group: a name, after a namespace in braces when there is
    one; a name has no blank and none of [/[]()@!=]. *)
Definition name_chars : cset := CNoneOf (py "/[]()@!=") true.

Definition token_name_re : regex :=
  Seq (Opt (Seqs [One (chr "{"); Plus (CNoneOf (py "}") false); One (chr "}")]))
      (Plus name_chars).

(** [xpath_tokenizer_re]: a symbol (group 1), a name (group 2), or blanks. *)
Definition xpath_tokenizer_re : regex :=
  Alts [Group 1 token_symbol_re; Group 2 token_name_re; Plus CSpace].

(** [r.findall(s)] for a pattern that matches no empty text: the matches
    from left to right, each one sought from the end of the one before; a
    character at which the pattern does not match is passed over.  [skip]
    counts the characters of the last match still to be passed. *)
Fixpoint findall_go (r : regex) (skip : nat) (pv : option char) (s : str)
  : list match_object :=
  match s with
  | [] => []
  | x :: s' =>
      match skip with
      | S n => findall_go r n (Some x) s'
      | O =>
          match try_at r pv s with
          | Some m =>
              m :: findall_go r (length (group_str m 0) - 1) (Some x) s'
          | None => findall_go r 0 (Some x) s'
          end
      end
  end.

Definition findall (r : regex) (s : str) : list match_object :=
  findall_go r 0 None s.

(** A token: its type, which is the text of a symbol or empty, and its
    name, which is empty for a symbol. *)
Definition token : Type := (str * str)%type.

(** [xpath_tokenizer(pattern)] with no namespaces: a name with a colon that
    does not start with a brace has a prefix, which is not found in the
    empty prefix map.  The tokens are produced on demand, and the exception
    is raised when its token is asked for. *)
Definition xpath_token (m : match_object) : outcome token :=
  let ttype := group_str m 1 in
  let name := group_str m 2 in
  match name with
  | x :: _ =>
      if negb (N.eqb x open_brace) && mem colon_char name then Err SyntaxError
      else Ok (ttype, name)
  | [] => Ok (ttype, name)
  end.

Definition xpath_tokenizer (pattern : str) : list (outcome token) :=
  map xpath_token (findall xpath_tokenizer_re pattern).

(** [t in s] for two strings. *)
Fixpoint str_in (t s : str) : bool :=
  starts_with t s
  || match s with
     | [] => false
     | _ :: s' => str_in t s'
     end.

(** [s[-n:]] for [n > 0] *)
Definition last_chars (n : nat) (s : str) : str := skipn (length s - n) s.

Definition s_any_ns_any : str := Eval vm_compute in py "{*}*".
Definition s_no_ns_any : str := Eval vm_compute in py "{}*".
Definition s_any_ns : str := Eval vm_compute in py "{*}".
Definition s_ns_any : str := Eval vm_compute in py "}*".
Definition s_no_ns : str := Eval vm_compute in py "{}".
Definition s_asterisk : str := Eval vm_compute in py "*".

Definition is_wildcard_tag (name : str) : bool :=
  str_eqb (firstn 3 name) s_any_ns || str_eqb (last_chars 2 name) s_ns_any.

(** [_prepare_tag(tag)]: the test that a wildcard name makes of the tag of
    an element; [None] where the source raises [RuntimeError]. *)
Definition prepare_tag (name : str) : option (str -> outcome bool) :=
  if str_eqb name s_any_ns_any then Some (fun _ => Ok true)
  else if str_eqb name s_no_ns_any then
    Some (fun el_tag =>
            match el_tag with
            | x :: _ => Ok (negb (N.eqb x open_brace))
            | [] => Err IndexError
            end)
  else if str_eqb (firstn 3 name) s_any_ns then
    let suffix := skipn 2 name in
    let local := skipn 3 name in
    Some (fun el_tag =>
            Ok (str_eqb el_tag local
                || str_eqb (last_chars (length suffix) el_tag) suffix))
  else if str_eqb (last_chars 2 name) s_ns_any then
    let ns := removelast name in
    Some (fun el_tag => Ok (str_eqb (firstn (length ns) el_tag) ns))
  else None.

(** [tag[2:]] when the name starts with an empty namespace *)
Definition plain_name (name : str) : str :=
  if str_eqb (firstn 2 name) s_no_ns then skipn 2 name else name.

(** What the functions [prepare_...] return: the closure [select], with
    the values that it has captured. *)
Inductive selector : Type :=
| select_child (name : str)
| select_star
| select_self
| select_parent
| select_descendant (name : str)
| select_has_attribute (key : str)
| select_attribute (key value : str) (negated : bool)
| select_has_child (name : str)
| select_text (name value : str) (negated : bool)
| select_index (index : Z).

(** The wildcard names are prepared when the path is compiled. *)
Definition check_name (name : str) : outcome unit :=
  if is_wildcard_tag name then
    match prepare_tag name with
    | Some _ => Ok tt
    | None => Err RuntimeError
    end
  else Ok tt.

Definition prepare_child (name : str) : outcome selector :=
  _ <- check_name name ;; Ok (select_child name).

(** [prepare_descendant], once it has its token. *)
Definition prepare_descendant (tk : token) : outcome selector :=
  if str_eqb (fst tk) s_asterisk then
    _ <- check_name s_asterisk ;; Ok (select_descendant s_asterisk)
  else if str_eqb (fst tk) [] then
    _ <- check_name (snd tk) ;; Ok (select_descendant (snd tk))
  else Err SyntaxError.

(** [re.match(r'\-?\d+$', s)]; the digits are the decimal digits of
    Unicode. *)
Definition index_re : regex := Seq (Opt (One (chr "-"))) (Plus CDecimal).

Definition is_index (s : str) : bool :=
  match rmatch (Group 0 index_re)
          (fun st => if at_end (rest st) then accept st else None)
          (mk_mstate None s []) with
  | Some _ => true
  | None => false
  end.

(** [int(s)] for a text without a blank, as a token is: a sign, then
    decimal digits, with single underscores allowed between two digits;
    [None] stands for [ValueError]. *)
Fixpoint int_digits (acc : Z) (after_digit : bool) (s : str) : option Z :=
  match s with
  | [] => if after_digit then Some acc else None
  | x :: s' =>
      match decimal_value x with
      | Some d => int_digits (10 * acc + d)%Z true s'
      | None =>
          if N.eqb x underscore && after_digit then int_digits acc false s'
          else None
      end
  end.

Definition py_int (s : str) : option Z :=
  match s with
  | x :: s' =>
      if N.eqb x minus_sign then option_map Z.opp (int_digits 0 false s')
      else if N.eqb x plus_sign then int_digits 0 false s'
      else int_digits 0 false s
  | [] => None
  end.

Definition sig_attr : str := Eval vm_compute in py "@-".
Definition sig_attr_eq : str := Eval vm_compute in py "@-='".
Definition sig_attr_ne : str := Eval vm_compute in py "@-!='".
Definition sig_name : str := Eval vm_compute in py "-".
Definition sig_self_eq : str := Eval vm_compute in py ".='".
Definition sig_self_ne : str := Eval vm_compute in py ".!='".
Definition sig_name_eq : str := Eval vm_compute in py "-='".
Definition sig_name_ne : str := Eval vm_compute in py "-!='".
Definition sig_call : str := Eval vm_compute in py "-()".
Definition sig_call_minus : str := Eval vm_compute in py "-()-".
Definition s_ne : str := Eval vm_compute in py "!=".
Definition s_last : str := Eval vm_compute in py "last".

(** The end of [prepare_predicate]: the signature, which is the types of
    the tokens between the brackets put together, with [-] for a name and
    ['] for a quoted text, decides the kind of predicate. *)
Definition make_predicate (signature : str) (predicate : list str)
  : outcome selector :=
  let p0 := nth 0 predicate [] in
  if str_eqb signature sig_attr then
    Ok (select_has_attribute (nth 1 predicate []))
  else if str_eqb signature sig_attr_eq || str_eqb signature sig_attr_ne then
    Ok (select_attribute (nth 1 predicate []) (last predicate [])
          (str_in s_ne signature))
  else if str_eqb signature sig_name && negb (is_index p0) then
    Ok (select_has_child p0)
  else if str_eqb signature sig_self_eq || str_eqb signature sig_self_ne
          || (str_eqb signature sig_name_eq || str_eqb signature sig_name_ne)
             && negb (is_index p0) then
    Ok (select_text p0 (last predicate []) (str_in s_ne signature))
  else if str_eqb signature sig_name || str_eqb signature sig_call
          || str_eqb signature sig_call_minus then
    if str_eqb signature sig_name then
      match py_int p0 with
      | Some i =>
          if (i - 1 <? 0)%Z then Err SyntaxError
          else Ok (select_index (i - 1))
      | None => Err ValueError
      end
    else if negb (str_eqb p0 s_last) then Err SyntaxError
    else if str_eqb signature sig_call_minus then
      match py_int (nth 2 predicate []) with
      | Some i =>
          if (-2 <? i - 1)%Z then Err SyntaxError
          else Ok (select_index (i - 1))
      | None => Err SyntaxError
      end
    else Ok (select_index (-1))
  else Err SyntaxError.

(** Where the compilation of a path stands between two tokens. *)
Inductive mode : Type :=
| step                      (* the next token opens a step: [ops[token[0]]] *)
| after_step                (* a step has been read: a [/] is passed over *)
| descendant                (* [prepare_descendant] waits for its token *)
| predicate (signature : str) (names : list str).
                            (* [prepare_predicate] reads up to the bracket *)

Definition s_slash : str := Eval vm_compute in py "/".
Definition s_dot : str := Eval vm_compute in py ".".
Definition s_dot_dot : str := Eval vm_compute in py "..".
Definition s_slash_slash : str := Eval vm_compute in py "//".
Definition s_bracket : str := Eval vm_compute in py "[".
Definition s_close_bracket : str := Eval vm_compute in py "]".
Definition s_quote : str := [single_quote].

(** [ops[token[0]](next, token)], for the steps that read no other token;
    a type that is not a key of [ops] raises [KeyError]. *)
Definition prepare (tk : token) : outcome (selector + mode) :=
  if str_eqb (fst tk) [] then
    sel <- prepare_child (snd tk) ;; Ok (inl sel)
  else if str_eqb (fst tk) s_asterisk then Ok (inl select_star)
  else if str_eqb (fst tk) s_dot then Ok (inl select_self)
  else if str_eqb (fst tk) s_dot_dot then Ok (inl select_parent)
  else if str_eqb (fst tk) s_slash_slash then Ok (inr descendant)
  else if str_eqb (fst tk) s_bracket then Ok (inr (predicate [] []))
  else Err KeyError.

(** A quoted token counts as ['] in the signature and gives the text
    between its quotes. *)
Definition unquote (tk : token) : token :=
  match fst tk with
  | q :: _ =>
      if N.eqb q single_quote || N.eqb q double_quote
      then (s_quote, removelast (tl (fst tk)))
      else tk
  | [] => tk
  end.

(** The loop of [iterfind] that compiles the tokens, with the loops of
    [prepare_descendant] and [prepare_predicate] inside it.  A selector is
    [None] where the function that prepares it runs out of tokens and
    returns nothing. *)
Fixpoint compile (m : mode) (tokens : list (outcome token))
  : outcome (list (option selector)) :=
  match tokens with
  | [] =>
      match m with
      | step | after_step => Ok []
      | descendant | predicate _ _ => Ok [None]
      end
  | Err e :: _ => Err e
  | Ok tk :: tokens' =>
      match m with
      | after_step =>
          if str_eqb (fst tk) s_slash then compile step tokens'
          else
            p <- prepare tk ;;
            match p with
            | inl sel =>
                l <- compile after_step tokens' ;; Ok (Some sel :: l)
            | inr m' => compile m' tokens'
            end
      | step =>
          p <- prepare tk ;;
          match p with
          | inl sel => l <- compile after_step tokens' ;; Ok (Some sel :: l)
          | inr m' => compile m' tokens'
          end
      | descendant =>
          sel <- prepare_descendant tk ;;
          l <- compile after_step tokens' ;; Ok (Some sel :: l)
      | predicate signature names =>
          if str_eqb (fst tk) s_close_bracket then
            sel <- make_predicate signature names ;;
            l <- compile after_step tokens' ;; Ok (Some sel :: l)
          else if str_eqb (fst tk) [] && str_eqb (snd tk) [] then
            compile (predicate signature names) tokens'
          else
            let tk' := unquote tk in
            compile
              (predicate
                 (signature ++ match fst tk' with
                               | [] => sig_name
                               | _ :: _ => fst tk'
                               end)
                 (names ++ [snd tk']))
              tokens'
      end
  end.

(** An element of the tree under the element on which the search started:
    the indices that lead to it, the last one first, the element, and the
    elements above it, its parent first. *)
Record node : Type := mk_node {
  place : list nat;
  here : element;
  above : list element
}.

Fixpoint number {A : Type} (i : nat) (l : list A) : list (nat * A) :=
  match l with
  | [] => []
  | x :: l' => (i, x) :: number (S i) l'
  end.

(** [for e in elem] *)
Definition child_nodes (n : node) : list node :=
  map (fun ic => mk_node (fst ic :: place n) (snd ic) (here n :: above n))
      (number 0 (children (here n))).

(** [elem.iter()]: the element, then the elements below it, in the order
    of the document. *)
Fixpoint iter_nodes (pl : list nat) (ab : list element) (e : element)
  : list node :=
  mk_node pl e ab
  :: match e with
     | Element _ _ _ c =>
         (fix below (i : nat) (l : list element) : list node :=
            match l with
            | [] => []
            | x :: l' => iter_nodes (i :: pl) (e :: ab) x ++ below (S i) l'
            end) 0 c
     end.

(** [''.join(e.itertext())]: the elements of the grabber have no tail. *)
Fixpoint itertext (e : element) : str :=
  match e with
  | Element _ _ t c =>
      match t with
      | Some v => v
      | None => []
      end
      ++ flat_map itertext c
  end.

(** What a generator gives before it ends or raises. *)
Definition stream : Type := (list node * option error)%type.

(** [for elem in result: ...], where the body gives the elements [f elem]
    or raises after some of them. *)
Fixpoint for_each (f : node -> stream) (l : list node) (final : option error)
  : stream :=
  match l with
  | [] => ([], final)
  | n :: l' =>
      match f n with
      | (out, Some e) => (out, Some e)
      | (out, None) =>
          let r := for_each f l' final in (out ++ fst r, snd r)
      end
  end.

(** The elements of [l] that pass a test which may raise. *)
Fixpoint filter_test (test : str -> outcome bool) (l : list node) : stream :=
  match l with
  | [] => ([], None)
  | n :: l' =>
      match test (tag (here n)) with
      | Err e => ([], Some e)
      | Ok b =>
          let r := filter_test test l' in
          (if b then n :: fst r else fst r, snd r)
      end
  end.

Fixpoint places_eqb (a b : list nat) : bool :=
  match a, b with
  | [], [] => true
  | x :: a', y :: b' => Nat.eqb x y && places_eqb a' b'
  | _, _ => false
  end.

(** The select of [prepare_parent]: the parent of each element that has
    one, each parent once. *)
Fixpoint parents (seen : list (list nat)) (l : list node) : list node :=
  match l with
  | [] => []
  | n :: l' =>
      match above n with
      | [] => parents seen l'
      | p :: ab =>
          let pl := tl (place n) in
          if existsb (places_eqb pl) seen then parents seen l'
          else mk_node pl p ab :: parents (pl :: seen) l'
      end
  end.

(** [l[i]] for an index that may be negative; [None] stands for
    [IndexError]. *)
Definition py_index {A : Type} (l : list A) (i : Z) : option A :=
  if (i <? 0)%Z then
    if (Z.of_nat (length l) + i <? 0)%Z then None
    else nth_error l (Z.to_nat (Z.of_nat (length l) + i))
  else nth_error l (Z.to_nat i).

(** The test of [Element.find] and [Element.findall] on their path: a path
    character outside braces, or an empty or any namespace in front. *)
Definition is_pathchar (x : char) : bool :=
  mem x (py "/*[@.").

Fixpoint checkpath_go (check : bool) (s : str) : bool :=
  match s with
  | [] => false
  | x :: s' =>
      if N.eqb x open_brace then checkpath_go false s'
      else if N.eqb x close_brace then checkpath_go true s'
      else if check && is_pathchar x then true
      else checkpath_go check s'
  end.

Definition checkpath (path : str) : bool :=
  match path with
  | a :: b :: c :: _ =>
      N.eqb a open_brace
      && (N.eqb b close_brace || N.eqb b asterisk && N.eqb c close_brace)
      || checkpath_go true path
  | _ => checkpath_go true path
  end.

Section Selectors.

(** [ElementPath.iterfind] for the calls that the selectors make; it
    answers [None] for a path without a token. *)
Variable nested : element -> str -> outcome (option stream).

Definition top_node (e : element) : node := mk_node [] e [].

(** [elem.find(path)] *)
Definition element_find (e : element) (path : str) : outcome (option node) :=
  if checkpath path then
    r <- nested e path ;;
    match r with
    | None => Err TypeError
    | Some (n :: _, _) => Ok (Some n)
    | Some ([], Some err) => Err err
    | Some ([], None) => Ok None
    end
  else
    Ok (find (fun n => str_eqb (tag (here n)) path) (child_nodes (top_node e))).

(** [elem.findall(path)] *)
Definition element_findall (e : element) (path : str) : outcome (list node) :=
  if checkpath path then
    r <- nested e path ;;
    match r with
    | None => Err TypeError
    | Some (l, None) => Ok l
    | Some (_, Some err) => Err err
    end
  else
    Ok (filter (fun n => str_eqb (tag (here n)) path) (child_nodes (top_node e))).

(** The body of the loop of a [select] for one element of [result]; the
    select of [prepare_parent], which remembers the parents that it has
    given, is read on the whole of [result] in [select] below. *)
Definition select_one (sel : selector) (n : node) : stream :=
  match sel with
  | select_child name =>
      if is_wildcard_tag name then
        match prepare_tag name with
        | Some test => filter_test test (child_nodes n)
        | None => ([], Some RuntimeError)
        end
      else
        (filter (fun c => str_eqb (tag (here c)) (plain_name name))
                (child_nodes n), None)
  | select_star => (child_nodes n, None)
  | select_self => ([n], None)
  | select_parent => ([], None)
  | select_descendant name =>
      let all := tl (iter_nodes (place n) (above n) (here n)) in
      if is_wildcard_tag name then
        match prepare_tag name with
        | Some test => filter_test test all
        | None => ([], Some RuntimeError)
        end
      else
        (filter (fun c => str_eqb (plain_name name) s_asterisk
                          || str_eqb (tag (here c)) (plain_name name))
                all, None)
  | select_has_attribute key =>
      match get (here n) key with
      | Some _ => ([n], None)
      | None => ([], None)
      end
  | select_attribute key value negated =>
      match get (here n) key with
      | Some v =>
          if xorb negated (str_eqb v value) then ([n], None) else ([], None)
      | None => ([], None)
      end
  | select_has_child name =>
      match element_find (here n) name with
      | Err e => ([], Some e)
      | Ok (Some _) => ([n], None)
      | Ok None => ([], None)
      end
  | select_text name value negated =>
      match name with
      | [] =>
          if xorb negated (str_eqb (itertext (here n)) value)
          then ([n], None) else ([], None)
      | _ :: _ =>
          if negated then
            match nested (here n) name with
            | Err e => ([], Some e)
            | Ok None => ([], Some TypeError)
            | Ok (Some (l, err)) =>
                if existsb (fun c => negb (str_eqb (itertext (here c)) value)) l
                then ([n], None)
                else ([], err)
            end
          else
            match element_findall (here n) name with
            | Err e => ([], Some e)
            | Ok l =>
                if existsb (fun c => str_eqb (itertext (here c)) value) l
                then ([n], None)
                else ([], None)
            end
      end
  | select_index index =>
      match above n with
      | [] => ([], None)
      | parent :: _ =>
          match element_findall parent (tag (here n)) with
          | Err IndexError | Err KeyError => ([], None)
          | Err e => ([], Some e)
          | Ok elems =>
              match py_index elems index with
              | Some c =>
                  if places_eqb (place c) (firstn 1 (place n))
                  then ([n], None) else ([], None)
              | None => ([], None)
              end
          end
      end
  end.

(** [select(context, result)] *)
Definition select (sel : selector) (result : stream) : stream :=
  match sel with
  | select_parent => (parents [] (fst result), snd result)
  | _ => for_each (select_one sel) (fst result) (snd result)
  end.

Definition s_slash_end (path : str) : str :=
  if str_eqb (last_chars 1 path) s_slash then path ++ s_asterisk else path.

(** [ElementPath.iterfind(elem, path)] *)
Definition iterfind_with (elem : element) (path : str)
  : outcome (option stream) :=
  let path := s_slash_end path in
  if str_eqb (firstn 1 path) s_slash then Err SyntaxError
  else
    match xpath_tokenizer path with
    | [] => Ok None
    | tokens =>
        selectors <- compile step tokens ;;
        if forallb is_some selectors then
          Ok (Some (fold_left
                      (fun result sel =>
                         match sel with
                         | Some s => select s result
                         | None => result
                         end)
                      selectors ([top_node elem], None)))
        else Err TypeError
    end.

End Selectors.

(** A selector may search again, with a name of the path or with the tag
    of an element as its path, and the calls nest as deep as the
    interpreter lets them; [recursion_limit] stands for that depth.  A name
    of a path is a path of one step, and the tags of the grabber hold no
    path character: on the documents of the grabber the calls nest two
    deep. *)
Definition recursion_limit : nat := 8.

Fixpoint iterfind (limit : nat) (elem : element) (path : str)
  : outcome (option stream) :=
  match limit with
  | O => Err RecursionError
  | S limit' => iterfind_with (iterfind limit') elem path
  end.

(** [elem.find(path)], as the grabber calls it. *)
Definition etree_find (elem : element) (path : str) : outcome (option element) :=
  n <- element_find (iterfind recursion_limit) elem path ;;
  Ok (option_map here n).

Definition s_path_open : str := Eval vm_compute in py "channel[@id=".

(** [root.find('channel[@id="{}"]'.format(channel_id))] of line 235: the
    identifier is pasted between double quotes into the path, whatever
    characters it holds. *)
Definition channel_path (channel_id : str) : str :=
  s_path_open ++ double_quote :: channel_id ++ double_quote :: s_close_bracket.

Definition root_find (root : element) (channel_id : str)
  : outcome (option element) :=
  etree_find root (channel_path channel_id).

(** ** Dates and times: [datetime] *)

(** A naive [datetime.datetime]. *)
Record datetime : Type := mk_datetime {
  year : Z;
  month : Z;
  day : Z;
  hour : Z;
  minute : Z;
  second : Z
}.

Definition is_leap (y : Z) : bool :=
  ((y mod 4 =? 0) && (negb (y mod 100 =? 0) || (y mod 400 =? 0)))%Z.

Definition days_in_month (y m : Z) : Z :=
  match m with
  | 1 => 31 | 2 => if is_leap y then 29 else 28 | 3 => 31 | 4 => 30
  | 5 => 31 | 6 => 30 | 7 => 31 | 8 => 31 | 9 => 30 | 10 => 31
  | 11 => 30 | 12 => 31 | _ => 0
  end%Z.

Definition days_before_year (y : Z) : Z :=
  let y1 := (y - 1)%Z in (y1 * 365 + y1 / 4 - y1 / 100 + y1 / 400)%Z.

Definition days_before_month (y m : Z) : Z :=
  (match m with
   | 2 => 31 | 3 => 59 | 4 => 90 | 5 => 120 | 6 => 151 | 7 => 181
   | 8 => 212 | 9 => 243 | 10 => 273 | 11 => 304 | 12 => 334 | _ => 0
   end
   + if (2 <? m) && is_leap y then 1 else 0)%Z.

(** [d.toordinal()]: day 1 is 0001-01-01. *)
Definition toordinal (d : datetime) : Z :=
  (days_before_year (year d) + days_before_month (year d) (month d) + day d)%Z.

Definition seconds_of_day (d : datetime) : Z :=
  (hour d * 3600 + minute d * 60 + second d)%Z.

(** [d + datetime.timedelta(days=1)] *)
Definition add_one_day (d : datetime) : outcome datetime :=
  if (day d <? days_in_month (year d) (month d))%Z then
    Ok (mk_datetime (year d) (month d) (day d + 1) (hour d) (minute d) (second d))
  else if (month d <? 12)%Z then
    Ok (mk_datetime (year d) (month d + 1) 1 (hour d) (minute d) (second d))
  else if (year d <? 9999)%Z then
    Ok (mk_datetime (year d + 1) 1 1 (hour d) (minute d) (second d))
  else Err OverflowError.

(** An aware datetime: the wall-clock reading and the UTC offset, in
    seconds, of the [tzinfo] attached to it. *)
Record aware : Type := mk_aware {
  wall : datetime;
  utcoffset : Z
}.

(** The instant of an aware datetime, in seconds; aware datetimes are
    compared by it. *)
Definition instant (a : aware) : Z :=
  (toordinal (wall a) * 86400 + seconds_of_day (wall a) - utcoffset a)%Z.

(** [a + datetime.timedelta(days=1)]: the wall clock moves, the [tzinfo]
    stays. *)
Definition aware_add_one_day (a : aware) : outcome aware :=
  w <- add_one_day (wall a) ;;
  Ok (mk_aware w (utcoffset a)).

(** Two datetimes on the same calendar date. *)
Definition same_date (a b : datetime) : Prop :=
  year a = year b /\ month a = month b /\ day a = day b.

(** The pattern that [_strptime] compiles for ['%d/%m/%Y %H:%M:%S']; the
    groups 1 to 6 are [d], [m], [Y], [H], [M] and [S].  The digits are the
    ASCII ones: the code page of the feed has no other decimal digit. *)
Definition strptime_d : regex := Eval vm_compute in
  Alts [ Seq (One (chr "3")) (One (rng "0" "1"));
         Seq (One (rng "1" "2")) (One digit);
         Seq (One (chr "0")) (One (rng "1" "9"));
         One (rng "1" "9");
         Seq (One (chr " ")) (One (rng "1" "9")) ].

Definition strptime_m : regex := Eval vm_compute in
  Alts [ Seq (One (chr "1")) (One (rng "0" "2"));
         Seq (One (chr "0")) (One (rng "1" "9"));
         One (rng "1" "9") ].

Definition strptime_Y : regex :=
  Seqs [ One digit; One digit; One digit; One digit ].

Definition strptime_H : regex := Eval vm_compute in
  Alts [ Seq (One (chr "2")) (One (rng "0" "3"));
         Seq (One (rng "0" "1")) (One digit);
         One digit ].

Definition strptime_M : regex := Eval vm_compute in
  Alts [ Seq (One (rng "0" "5")) (One digit); One digit ].

Definition strptime_S : regex := Eval vm_compute in
  Alts [ Seq (One (chr "6")) (One (rng "0" "1"));
         Seq (One (rng "0" "5")) (One digit);
         One digit ].

Definition slash : cset := CChar 47%N.
Definition colon : cset := CChar 58%N.

Definition strptime_re : regex :=
  Seqs [ Group 1 strptime_d; One slash; Group 2 strptime_m; One slash;
         Group 3 strptime_Y; Plus CSpace;
         Group 4 strptime_H; One colon; Group 5 strptime_M; One colon;
         Group 6 strptime_S ].

(** [int(s)], which ignores the blanks around the digits. *)
Definition int_of_str (s : str) : Z := int_of_digits (strip s).

(** [datetime.datetime(y, mo, d, h, mi, s)], which checks every field. *)
Definition valid_datetime (d : datetime) : bool :=
  ((1 <=? year d) && (year d <=? 9999)
   && (1 <=? month d) && (month d <=? 12)
   && (1 <=? day d) && (day d <=? days_in_month (year d) (month d))
   && (0 <=? hour d) && (hour d <=? 23)
   && (0 <=? minute d) && (minute d <=? 59)
   && (0 <=? second d) && (second d <=? 59))%Z.

Definition datetime_new (y mo d h mi s : Z) : outcome datetime :=
  let v := mk_datetime y mo d h mi s in
  if valid_datetime v then Ok v else Err ValueError.

(** [datetime.datetime.strptime(s, '%d/%m/%Y %H:%M:%S')]: the pattern must
    match at the start of [s] and leave nothing unread. *)
Definition strptime (s : str) : outcome datetime :=
  match re_match strptime_re s with
  | None => Err ValueError
  | Some m =>
      match snd m with
      | _ :: _ => Err ValueError
      | [] =>
          datetime_new (int_of_str (group_str m 3)) (int_of_str (group_str m 2))
            (int_of_str (group_str m 1)) (int_of_str (group_str m 4))
            (int_of_str (group_str m 5)) (int_of_str (group_str m 6))
      end
  end.

(** [pytz.timezone('Europe/Paris').localize(d)] for the years 1996 to 2037:
    summer time runs from the last Sunday of March, 03:00 on the wall clock,
    to the last Sunday of October, 02:00; a wall-clock time that the change
    skips or repeats is read as standard time ([is_dst=False]). *)
Definition last_sunday (y m : Z) : Z :=
  let last := mk_datetime y m 31 0 0 0 in
  (31 - toordinal last mod 7)%Z.

Definition europe_paris (d : datetime) : Z :=
  let minutes := ((toordinal d * 24 + hour d) * 60 + minute d)%Z in
  let from :=
    ((toordinal (mk_datetime (year d) 3 (last_sunday (year d) 3) 0 0 0) * 24 + 3) * 60)%Z in
  let to :=
    ((toordinal (mk_datetime (year d) 10 (last_sunday (year d) 10) 0 0 0) * 24 + 2) * 60)%Z in
  if ((from <=? minutes) && (minutes <? to))%Z then 7200%Z else 3600%Z.

(** ** The patterns of [write_xmltv_data] *)

(** [r'^Label :\s*(.+)\s*$'] with [re.MULTILINE], for a label such as
    [Acteurs :]. *)
Definition label_re (label : str) : regex :=
  Seqs [Bol; Lit label; Star CSpace; Group 1 (Plus CAny); Star CSpace; Eol].

Definition l_showview : str := Eval vm_compute in py "Showview :".
Definition l_sous_titre : str := Eval vm_compute in py "Sous-titre :".
Definition l_realisateur : str := Eval vm_compute in py "Réalisateur :".
Definition l_acteurs : str := Eval vm_compute in py "Acteurs :".
Definition l_musique : str := Eval vm_compute in py "Musique :".
Definition l_presentateur : str := Eval vm_compute in py "Présentateur :".
Definition l_invites : str := Eval vm_compute in py "Invités :".
Definition l_annee : str := Eval vm_compute in py "Année :".
Definition l_genre : str := Eval vm_compute in py "Genre :".
Definition l_episode : str := Eval vm_compute in py "Episode :".
Definition l_saison : str := Eval vm_compute in py "Saison :".

(** [r'^Episode :\s*([0-9]+)(?:/([0-9]+))?\s*$'] *)
Definition episode_re : regex :=
  Seqs [Bol; Lit l_episode; Star CSpace; Group 1 (Plus digit);
        Opt (Seq (One (CChar 47%N)) (Group 2 (Plus digit)));
        Star CSpace; Eol].

(** [r'^Saison :\s*([0-9]+)\s*$'] *)
Definition saison_re : regex :=
  Seqs [Bol; Lit l_saison; Star CSpace; Group 1 (Plus digit); Star CSpace; Eol].

(** [r'^En (16:9|4:3)'] *)
Definition aspect_re : regex := Eval vm_compute in
  Seqs [Bol; Lit (py "En "); Group 1 (Alt (Lit (py "16:9")) (Lit (py "4:3")))].

(** [r'^HD$'] *)
Definition hd_re : regex := Eval vm_compute in Seqs [Bol; Lit (py "HD"); Eol].

(** [r'^En Dolby 5\.1'], [r'^En Dolby'] and [r'^Stéréo'] *)
Definition dolby51_re : regex := Eval vm_compute in Seq Bol (Lit (py "En Dolby 5.1")).
Definition dolby_re : regex := Eval vm_compute in Seq Bol (Lit (py "En Dolby")).
Definition stereo_re : regex := Eval vm_compute in Seq Bol (Lit (py "Stéréo")).

(** ['^Rediffusion'] and ['^(Inédit|Première diffusion)'] *)
Definition rediffusion_re : regex := Eval vm_compute in Seq Bol (Lit (py "Rediffusion")).
Definition premiere_re : regex := Eval vm_compute in
  Seq Bol (Group 1 (Alt (Lit (py "Inédit")) (Lit (py "Première diffusion")))).

(** ['^VOST'] and ['^Sous-titré'] *)
Definition vost_re : regex := Eval vm_compute in Seq Bol (Lit (py "VOST")).
Definition sous_titre_re : regex := Eval vm_compute in Seq Bol (Lit (py "Sous-titré")).

(** The pattern of line 304, with no flag: any text but a newline (group
    1), a space, an opening parenthesis, any text but a newline (group 2),
    a closing parenthesis. *)
Definition actor_role_re : regex :=
  Seqs [Group 1 (Star CAny); One (CChar 32%N); One (CChar 40%N);
        Group 2 (Star CAny); One (CChar 41%N)].

(** [m.group(1)] of [re.search(r'^Label :\s*(.+)\s*$', details,
    re.MULTILINE)], when there is a match. *)
Definition label_value (label details : str) : option str :=
  match re_search (label_re label) details with
  | Some m => Some (group_str m 1)
  | None => None
  end.

Definition matches (r : regex) (s : str) : bool :=
  match re_search r s with
  | Some _ => true
  | None => false
  end.

(** ** Formatting dates: [strftime] *)

Fixpoint zeros (n : nat) : str :=
  match n with
  | O => []
  | S n' => 48%N :: zeros n'
  end.

(** A number that is not negative, padded with zeros to [width] digits. *)
Definition pad (width : nat) (z : Z) : str :=
  let digits := str_of_Z z in
  zeros (width - length digits) ++ digits.

(** [%z]: the sign, the hours and the minutes of the offset, and its seconds
    when there are some. *)
Definition format_offset (off : Z) : str :=
  let a := Z.abs off in
  (if (off <? 0)%Z then 45%N else 43%N)
    :: pad 2 (a / 3600) ++ pad 2 (a mod 3600 / 60)
       ++ (if (a mod 60 =? 0)%Z then [] else pad 2 (a mod 60)).

(** ["{:%Y%m%d%H%M%S %z}".format(a)] *)
Definition format_xmltv_time (a : aware) : str :=
  let d := wall a in
  pad 4 (year d) ++ pad 2 (month d) ++ pad 2 (day d)
  ++ pad 2 (hour d) ++ pad 2 (minute d) ++ pad 2 (second d)
  ++ 32%N :: format_offset (utcoffset a).

Definition s_icon_base : str := Eval vm_compute in
  py "http://guidetv-iphone.telerama.fr/verytv/procedures/images/".
Definition s_jpg : str := Eval vm_compute in py ".jpg".

(** The address of the thumbnail (line 364). *)
Definition icon_src (start : aware) (channel : str) : str :=
  let d := wall start in
  s_icon_base
  ++ pad 4 (year d) ++ 45%N :: pad 2 (month d) ++ 45%N :: pad 2 (day d)
  ++ 95%N :: channel
  ++ 95%N :: pad 2 (hour d) ++ 58%N :: pad 2 (minute d)
  ++ s_jpg.

(** The literals of the loop body. *)
Definition s_credits : str := Eval vm_compute in py "credits".
Definition s_director : str := Eval vm_compute in py "director".
Definition s_composer : str := Eval vm_compute in py "composer".
Definition s_presenter : str := Eval vm_compute in py "presenter".
Definition s_guest : str := Eval vm_compute in py "guest".
Definition s_aspect : str := Eval vm_compute in py "aspect".
Definition s_quality : str := Eval vm_compute in py "quality".
Definition s_HDTV : str := Eval vm_compute in py "HDTV".
Definition s_video : str := Eval vm_compute in py "video".
Definition s_surround : str := Eval vm_compute in py "surround".
Definition s_dolby : str := Eval vm_compute in py "dolby".
Definition s_stereo : str := Eval vm_compute in py "stereo".
Definition s_audio : str := Eval vm_compute in py "audio".
Definition s_previously_shown : str := Eval vm_compute in py "previously-shown".
Definition s_premiere : str := Eval vm_compute in py "premiere".
Definition s_onscreen : str := Eval vm_compute in py "onscreen".
Definition s_teletext : str := Eval vm_compute in py "teletext".
Definition s_subtitles : str := Eval vm_compute in py "subtitles".
Definition s_0 : str := Eval vm_compute in py "0".
Definition s_rating : str := Eval vm_compute in py "rating".
Definition s_value : str := Eval vm_compute in py "value".
Definition s_1 : str := Eval vm_compute in py "1".
Definition s_2 : str := Eval vm_compute in py "2".
Definition s_3 : str := Eval vm_compute in py "3".
Definition s_star_rating : str := Eval vm_compute in py "star-rating".
Definition s_of_3 : str := Eval vm_compute in py "/3".
Definition s_review : str := Eval vm_compute in py "review".
Definition s_desc : str := Eval vm_compute in py "desc".
Definition s_tv : str := Eval vm_compute in py "tv".
Definition s_display_name : str := Eval vm_compute in py "display-name".
Definition s_title : str := Eval vm_compute in py "title".
Definition s_sub_title : str := Eval vm_compute in py "sub-title".
Definition s_date : str := Eval vm_compute in py "date".
Definition s_icon : str := Eval vm_compute in py "icon".
Definition s_type : str := Eval vm_compute in py "type".
Definition s_text : str := Eval vm_compute in py "text".
Definition s_generator_info_name : str := Eval vm_compute in py "generator-info-name".
Definition s_generator : str := Eval vm_compute in py "tv_grab_fr_telerama".
Definition s_source_info_name : str := Eval vm_compute in py "source-info-name".
Definition s_telerama : str := Eval vm_compute in py "Télérama".
Definition s_source_info_url : str := Eval vm_compute in py "source-info-url".
Definition s_source_url : str := Eval vm_compute in py "http://guidetv-iphone.telerama.fr/".
Definition s_start : str := Eval vm_compute in py "start".
Definition s_stop : str := Eval vm_compute in py "stop".
Definition s_showview : str := Eval vm_compute in py "showview".
Definition s_src : str := Eval vm_compute in py "src".

(** ** The sections of the loop body of [write_xmltv_data] *)

Definition s_comma_space : str := Eval vm_compute in py ", ".
Definition s_open : str := Eval vm_compute in py "(".
Definition s_close : str := Eval vm_compute in py ")".

(** [split_outside_delimiters(v, ', ', '(', ')')], which always returns. *)
Definition split_names (v : str) : list str :=
  match split_outside_delimiters v s_comma_space s_open s_close with
  | Some l => l
  | None => []
  end.

(** The element of one actor (lines 303-309). *)
Definition actor_xml (actor : str) : element :=
  match re_search actor_role_re actor with
  | Some m => Element s_actor [(s_role, group_str m 2)] (Some (group_str m 1)) []
  | None => Element s_actor [] (Some actor) []
  end.

Definition plain_credit (kind : str) (name : str) : element :=
  Element kind [] (Some name) [].

(** The credits of one kind: nothing when the label has no line. *)
Definition credit_list (label details : str) (mk : str -> element)
  : list element :=
  match label_value label details with
  | Some v => map mk (split_names v)
  | None => []
  end.

Definition actors_xml (details : str) : list element :=
  credit_list l_acteurs details actor_xml.

(** Lines 284-333: the [credits] element, or nothing. *)
Definition credits_xml (details : str) : list element :=
  if is_some (label_value l_realisateur details)
     || is_some (label_value l_acteurs details)
     || is_some (label_value l_musique details)
     || is_some (label_value l_presentateur details)
     || is_some (label_value l_invites details)
  then
    [Element s_credits [] None
       (credit_list l_realisateur details
          (plain_credit s_director)
        ++ actors_xml details
        ++ credit_list l_musique details
             (plain_credit s_composer)
        ++ credit_list l_presentateur details
             (plain_credit s_presenter)
        ++ credit_list l_invites details
             (plain_credit s_guest))]
  else [].

(** A child that carries the value of a label, when the label has a line. *)
Definition labelled_xml (t label details : str) : list element :=
  match label_value label details with
  | Some v => [text_element t [] v]
  | None => []
  end.

(** Lines 342-358: the categories.  [native] is [data[5]]. *)
Definition category_xml (lang : list (str * str)) (v : str) : element :=
  text_element s_category lang v.

Definition lang_fr : list (str * str) := [(s_lang, s_fr)].

Definition categories_xml (native details : str) : list element :=
  let category := fst (translate_categories native) in
  (if str_eqb category [] then [] else [category_xml [] category])
  ++ (if str_eqb native [] then [] else [category_xml lang_fr native])
  ++ match label_value l_genre details with
     | Some g => if str_eqb g native then [] else [category_xml lang_fr g]
     | None => []
     end.

(** Lines 368-387: the episode numbering. *)
Definition s_part : str := Eval vm_compute in py ".0/1".

Definition episode_data (season episode : Z) (total : option str) : str :=
  str_of_Z season ++ 46%N :: str_of_Z episode
  ++ match total with
     | Some t => 47%N :: t
     | None => []
     end
  ++ s_part.

Definition season_of (details : str) : Z :=
  match re_search saison_re details with
  | Some n => (int_of_digits (group_str n 1) - 1)%Z
  | None => 0%Z
  end.

Definition episode_num (details : str) : option str :=
  match re_search episode_re details with
  | Some m =>
      let season := season_of details in
      let episode := (int_of_digits (group_str m 1) - 1)%Z in
      Some (episode_data season episode (group m 2))
  | None => None
  end.

Definition s_system : str := Eval vm_compute in py "system".
Definition s_xmltv_ns : str := Eval vm_compute in py "xmltv_ns".

Definition episodenum_xml (details : str) : list element :=
  match episode_num details with
  | Some v => [text_element s_episode_num [(s_system, s_xmltv_ns)] v]
  | None => []
  end.

(** Lines 389-399: the [video] element.  [m.group(1)] is read whether or not
    the pattern of the aspect ratio matched; the element built is appended
    to nothing. *)
Definition video_xml (details : str) : outcome element :=
  match re_search aspect_re details with
  | None => Err AttributeError
  | Some m =>
      let video_aspect_xml :=
        text_element s_aspect [] (group_str m 1) in
      let video_quality_xml :=
        if matches hd_re details
        then [text_element s_quality []
                s_HDTV]
        else [] in
      Ok (Element s_video [] None
            (video_aspect_xml :: video_quality_xml))
  end.

(** Lines 401-414: the audio format. *)
Definition audio_xml (details : str) : list element :=
  let stereo :=
    if matches dolby51_re details then s_surround
    else if matches dolby_re details then s_dolby
    else if matches stereo_re details then s_stereo
    else [] in
  if str_eqb stereo [] then []
  else [Element s_audio [] None
          [text_element s_stereo [] stereo]].

(** Lines 416-425 *)
Definition previously_shown_xml (details : str) : list element :=
  if matches rediffusion_re details
  then [empty_element s_previously_shown []]
  else [].

Definition premiere_xml (details : str) : list element :=
  match re_search premiere_re details with
  | Some m => [text_element s_premiere lang_fr (group_str m 0)]
  | None => []
  end.

(** Lines 427-438 *)
Definition subtitles_xml (details : str) : list element :=
  let subtitles :=
    if matches vost_re details then s_onscreen
    else if matches sous_titre_re details then s_teletext
    else [] in
  if str_eqb subtitles [] then []
  else [empty_element s_subtitles
          [(s_type, subtitles)]].

(** Lines 440-453 *)
Definition rating_xml (code : str) : list element :=
  if str_eqb code s_0 then []
  else [Element s_rating [] None
          [text_element s_value [] code]].

Definition starrating_xml (stars : str) : list element :=
  if str_eqb stars s_1
     || str_eqb stars s_2
     || str_eqb stars s_3
  then [Element s_star_rating [] None
          [text_element s_value []
             (stars ++ s_of_3)]]
  else [].

(** Lines 455-462 *)
Definition review_xml (review : str) : list element :=
  if str_eqb review [] then []
  else [text_element s_review
          [(s_type, s_text);
           (s_lang, s_fr)] review].

Definition desc_xml (desc : str) : list element :=
  if str_eqb desc [] then []
  else [text_element s_desc [] desc].

(** ** The loop of [write_xmltv_data] (lines 229-464) *)

(** The document being built, and what was written to [sys.stderr]. *)
Record grab_state : Type := mk_grab_state {
  root : element;
  stderr : list str
}.

Definition initial_root : element :=
  Element s_tv
    [(s_generator_info_name,
      s_generator);
     (s_source_info_name,
      s_telerama);
     (s_source_info_url,
      s_source_url)]
    None [].

(** [data = [i.strip() for i in program.split('$$$')]] *)
Definition s_field_separator : str := Eval vm_compute in py "$$$".
Definition s_record_separator : str := Eval vm_compute in py ":$$$:".

Definition fields (program : str) : list str :=
  map strip (str_split s_field_separator program).

(** [content.split(':$$$:')[:-1]] of [get_telerama_programs] *)
Definition telerama_records (content : str) : list str :=
  removelast (str_split s_record_separator content).

Definition channel_element (channel_id display_name : str) : element :=
  Element s_channel [(s_id, channel_id)] None
    [text_element s_display_name [] display_name].

(** Lines 233-240: the channel of the record is declared at the front of
    the root, unless the root has a [channel] with this [id]. *)
Definition add_channel (r : element) (data : list str) : outcome element :=
  d0 <- item data 0 ;;
  let channel_id := telerama_to_xmltv_id d0 in
  found <- root_find r channel_id ;;
  match found with
  | None =>
      d1 <- item data 1 ;;
      Ok (insert0 r (channel_element channel_id d1))
  | Some _ => Ok r
  end.

Section Grabber.

(** The UTC offset, in seconds, that [france_tz.localize] gives to a naive
    datetime. *)
Variable france_tz : datetime -> Z.

Definition localize (d : datetime) : aware := mk_aware d (france_tz d).

(** Lines 242-250: the start and the stop of the programme. *)
Definition program_times (data : list str) : outcome (aware * aware) :=
  d12 <- item data 12 ;;
  d3 <- item data 3 ;;
  start_naive <- strptime (d12 ++ 32%N :: d3) ;;
  let start := localize start_naive in
  d4 <- item data 4 ;;
  stop_naive <- strptime (d12 ++ 32%N :: d4) ;;
  let stop := localize stop_naive in
  if (instant stop <? instant start)%Z then
    stop' <- aware_add_one_day stop ;;
    Ok (start, stop')
  else Ok (start, stop).

(** Lines 252-462: the [programme] element of a record. *)
Definition programme (data : list str) : outcome (element * list str) :=
  times <- program_times data ;;
  let start := fst times in
  let stop := snd times in
  d0 <- item data 0 ;;
  d7 <- item data 7 ;;
  d2 <- item data 2 ;;
  d6 <- item data 6 ;;
  d5 <- item data 5 ;;
  let attrs :=
    [(s_start, format_xmltv_time start);
     (s_stop, format_xmltv_time stop);
     (s_channel, telerama_to_xmltv_id d0)]
    ++ match label_value l_showview d7 with
       | Some v => [(s_showview, v)]
       | None => []
       end in
  let before_video :=
    [text_element s_title [] d2]
    ++ labelled_xml s_sub_title l_sous_titre d7
    ++ desc_xml d6
    ++ credits_xml d7
    ++ labelled_xml s_date l_annee d7
    ++ categories_xml d5 d7
    ++ [empty_element s_icon
          [(s_src, icon_src start d0)]]
    ++ episodenum_xml d7 in
  video <- video_xml d7 ;;
  d8 <- item data 8 ;;
  d10 <- item data 10 ;;
  d11 <- item data 11 ;;
  let after_video :=
    audio_xml d7 ++ previously_shown_xml d7 ++ premiere_xml d7
    ++ subtitles_xml d7 ++ rating_xml d8 ++ starrating_xml d10
    ++ review_xml d11 in
  Ok (Element s_programme attrs None (before_video ++ after_video),
      snd (translate_categories d5)).

(** One turn of the loop over the programs. *)
Definition process_record (st : grab_state) (data : list str)
  : outcome grab_state :=
  r <- add_channel (root st) data ;;
  p <- programme data ;;
  Ok (mk_grab_state (append r (fst p)) (stderr st ++ snd p)).

Fixpoint process_records (st : grab_state) (records : list (list str))
  : outcome grab_state :=
  match records with
  | [] => Ok st
  | data :: records' =>
      st' <- process_record st data ;;
      process_records st' records'
  end.

(** [write_xmltv_data], from the programs fetched for each channel and day
    to the document that [output.write] serializes. *)
Definition write_xmltv_data (telerama_programs : list (list str))
  : outcome grab_state :=
  process_records (mk_grab_state initial_root [])
    (map fields (concat telerama_programs)).

End Grabber.

(** ** What a pattern matches *)

(** The character before the position reached after reading [s]. *)
Definition prev_of (pv : option char) (s : str) : option char :=
  fold_left (fun _ x => Some x) s pv.

(** [Matches r st st']: the pattern [r] can match from the position [st] to
    the position [st'], whatever the order in which the matcher tries the
    ways to do so. *)
Inductive Matches : regex -> mstate -> mstate -> Prop :=
| M_Eps st : Matches Eps st st
| M_One cs x s pv cp :
    in_cset cs x = true ->
    Matches (One cs) (mk_mstate pv (x :: s) cp) (mk_mstate (Some x) s cp)
| M_Bol st : at_bol (prev st) = true -> Matches Bol st st
| M_Eol st : at_eol (rest st) = true -> Matches Eol st st
| M_Seq r1 r2 st st1 st2 :
    Matches r1 st st1 -> Matches r2 st1 st2 -> Matches (Seq r1 r2) st st2
| M_AltL r1 r2 st st' : Matches r1 st st' -> Matches (Alt r1 r2) st st'
| M_AltR r1 r2 st st' : Matches r2 st st' -> Matches (Alt r1 r2) st st'
| M_StarNil cs st : Matches (Star cs) st st
| M_StarCons cs x s pv cp st' :
    in_cset cs x = true ->
    Matches (Star cs) (mk_mstate (Some x) s cp) st' ->
    Matches (Star cs) (mk_mstate pv (x :: s) cp) st'
| M_Group n r st st' :
    Matches r st st' ->
    Matches (Group n r) st
      (mk_mstate (prev st') (rest st')
         ((n, firstn (length (rest st) - length (rest st')) (rest st))
            :: caps st')).

(** The character sets of a pattern, and the characters that some set of
    the pattern accepts: a match reads such characters only. *)
Fixpoint csets (r : regex) : list cset :=
  match r with
  | Eps | Bol | Eol => []
  | One cs | Star cs => [cs]
  | Seq r1 r2 | Alt r1 r2 => csets r1 ++ csets r2
  | Group _ r1 => csets r1
  end.

Definition accepts (r : regex) (x : char) : bool :=
  existsb (fun cs => in_cset cs x) (csets r).

(** The pattern has no group. *)
Fixpoint groupless (r : regex) : bool :=
  match r with
  | Eps | Bol | Eol | One _ | Star _ => true
  | Seq r1 r2 | Alt r1 r2 => groupless r1 && groupless r2
  | Group _ _ => false
  end.

(** A set of digits only. *)
Definition digit_set (cs : cset) : bool :=
  match cs with
  | CChar x => in_cset digit x
  | CRange lo hi => (48 <=? lo)%N && (hi <=? 57)%N
  | CAny | CSpace | COneOf _ | CNoneOf _ _ | CDecimal => false
  end.

(** Every character of [s] is in the set. *)
Definition all_in (cs : cset) (s : str) : bool := forallb (in_cset cs) s.

(** The text [pre] ends where a line starts. *)
Definition line_start (pre : str) : bool := at_bol (prev_of None pre).

(** The text [r] does not go on with a character that [p] accepts: a run of
    such characters ends where [r] starts. *)
Definition stops (p : char -> bool) (r : str) : Prop :=
  match r with
  | [] => True
  | y :: _ => p y = false
  end.

(** The details block has, after [pre], its first line that starts with
    [label]; [v] is what the line holds after the label and the blanks that
    follow it. *)
Definition label_line (label details pre v : str) : Prop :=
  exists ws post,
    details = pre ++ label ++ ws ++ v ++ post
    /\ line_start pre = true
    /\ (forall p q, details = p ++ q -> length p < length pre ->
                    line_start p = true -> starts_with label q = false)
    /\ all_in CSpace ws = true
    /\ v <> [] /\ stops is_space v /\ all_in CAny v = true
    /\ at_eol post = true.

(** No line of the details block starts with [label]. *)
Definition no_label_line (label details : str) : Prop :=
  forall p q, details = p ++ q -> line_start p = true ->
              starts_with label q = false.

(** ** Vocabulary of the episode numbering *)

(** [/M], or nothing. *)
Definition total_text (M : option str) : str :=
  match M with
  | Some m => 47%N :: m
  | None => []
  end.

Definition digits_or_none (M : option str) : Prop :=
  match M with
  | Some m => m <> [] /\ all_in digit m = true
  | None => True
  end.

(** A match of a numbered line at the position after [pv], in front of the
    text [s]. *)
Definition number_here (label : str) (pv : option char) (s N : str)
    (M : option str) : Prop :=
  exists ws1 ws2 post,
    s = label ++ ws1 ++ N ++ total_text M ++ ws2 ++ post
    /\ at_bol pv = true
    /\ all_in CSpace ws1 = true
    /\ N <> [] /\ all_in digit N = true
    /\ digits_or_none M
    /\ all_in CSpace ws2 = true
    /\ at_eol post = true.

(** The details block has, after [pre], a line that the pattern of the
    episode matches: the label at the start of a line, the number [N], the
    total [M] after a slash when there is one, and the end of a line, with
    blanks allowed after the label and before the end of the line. *)
Definition episode_at (details pre N : str) (M : option str) : Prop :=
  exists ws1 ws2 post,
    details = pre ++ l_episode ++ ws1 ++ N ++ total_text M ++ ws2 ++ post
    /\ line_start pre = true
    /\ all_in CSpace ws1 = true
    /\ N <> [] /\ all_in digit N = true
    /\ digits_or_none M
    /\ all_in CSpace ws2 = true
    /\ at_eol post = true.

(** The same for the season. *)
Definition saison_at (details pre S : str) : Prop :=
  exists ws1 ws2 post,
    details = pre ++ l_saison ++ ws1 ++ S ++ ws2 ++ post
    /\ line_start pre = true
    /\ all_in CSpace ws1 = true
    /\ S <> [] /\ all_in digit S = true
    /\ all_in CSpace ws2 = true
    /\ at_eol post = true.

(** The element has this tag. *)
Definition has_tag (t : str) (e : element) : bool := str_eqb (tag e) t.

(** ** Vocabulary of the document's specification *)

(** The namespaced identifier and the display name that a record carries. *)
Definition record_channel (data : list str) : str * str :=
  (telerama_to_xmltv_id (nth 0 data []), nth 1 data []).

Definition declared (channel_id : str) (seen : list (str * str)) : bool :=
  existsb (fun ch => str_eqb (fst ch) channel_id) seen.

(** The channels of the records in the order of their first appearance,
    each with the display name of the record that brought it. *)
Fixpoint first_seen (seen : list (str * str)) (records : list (list str))
  : list (str * str) :=
  match records with
  | [] => seen
  | data :: records' =>
      if declared (fst (record_channel data)) seen
      then first_seen seen records'
      else first_seen (seen ++ [record_channel data]) records'
  end.

Definition first_seen_channels (records : list (list str)) : list (str * str) :=
  first_seen [] records.

(** The declaration of a channel: a [channel] element with the identifier
    as its [id], and one child [display-name] that holds the name. *)
Definition channel_of (ch : str * str) : element :=
  Element s_channel [(s_id, fst ch)] None
    [Element s_display_name [] (Some (snd ch)) []].

(** The channel identifier of the record holds no double quote, the
    character that ends the identifier in the path of line 235. *)
Definition unquoted (data : list str) : Prop :=
  mem double_quote (nth 0 data []) = false.

(** [a] is [b] without some of its elements, the others in their order. *)
Inductive subsequence {A : Type} : list A -> list A -> Prop :=
| subsequence_nil : subsequence [] []
| subsequence_skip (x : A) (a b : list A) :
    subsequence a b -> subsequence a (x :: b)
| subsequence_take (x : A) (a b : list A) :
    subsequence a b -> subsequence (x :: a) (x :: b).

(** The [channel] elements of the document, and their identifiers. *)
Definition document_channels (st : grab_state) : list element :=
  filter (fun e => str_eqb (tag e) s_channel) (children (root st)).

Definition document_channel_ids (st : grab_state) : list (option str) :=
  map (fun e => get e s_id) (document_channels st).

(** ** Sample feed records *)

(** A record of the feed, from its thirteen fields. *)
Definition raw_record (channel name title start stop category synopsis details
    rating unused stars review date : str) : str :=
  join s_field_separator
    [channel; name; title; start; stop; category; synopsis; details; rating;
     unused; stars; review; date].

Definition sample_news : str := Eval vm_compute in
  raw_record (py "1") (py "TF1") (py "Journal") (py "20:00:00") (py "20:30:00")
    (py "Journal") (py "Le journal du soir") (py "En 16:9") (py "0") (py "")
    (py "2") (py "") (py "01/03/2024").

Definition sample_film : str := Eval vm_compute in
  raw_record (py "2") (py "France 2") (py "Le film") (py "20:30:00")
    (py "22:15:00") (py "Film") (py "")
    (py "Genre : Film" ++ newline :: py "Acteurs : Jean Dupont (Paul), Marie Curie"
       ++ newline :: py "En 4:3" ++ newline :: py "HD")
    (py "2") (py "") (py "3") (py "Un bon film") (py "01/03/2024").

(** The channel of [sample_news] again, under another display name. *)
Definition sample_late : str := Eval vm_compute in
  raw_record (py "1") (py "TF1 HD") (py "Nuit") (py "23:30:00") (py "00:45:00")
    (py "Divers") (py "") (py "En 16:9") (py "0") (py "") (py "0") (py "")
    (py "01/03/2024").

(** A record whose details block has no line for the aspect ratio. *)
Definition sample_no_aspect : str := Eval vm_compute in
  raw_record (py "1") (py "TF1") (py "Journal") (py "20:00:00") (py "20:30:00")
    (py "Journal") (py "") (py "HD") (py "0") (py "") (py "0") (py "")
    (py "01/03/2024").

(** A record whose start and stop times are the same. *)
Definition sample_same_time : str := Eval vm_compute in
  raw_record (py "1") (py "TF1") (py "Mire") (py "20:00:00") (py "20:00:00")
    (py "Divers") (py "") (py "En 16:9") (py "0") (py "") (py "0") (py "")
    (py "01/03/2024").

(** A programme across midnight on the night when summer time ends. *)
Definition sample_time_change : str := Eval vm_compute in
  raw_record (py "1") (py "TF1") (py "Nuit") (py "23:45:00") (py "00:30:00")
    (py "Divers") (py "") (py "En 16:9") (py "0") (py "") (py "0") (py "")
    (py "27/10/2024").

Definition sample_feed : list (list str) :=
  [[sample_news; sample_film]; [sample_late]].

(** A channel identifier that closes the quotes and the predicate of the
    path of line 235 and opens a second predicate. *)
Definition quoted_id : str := Eval vm_compute in
  py "a" ++ double_quote :: py "][@id=" ++ double_quote :: py "b".

(** Two records of the channel [quoted_id], under two display names. *)
Definition sample_quoted_first : str := Eval vm_compute in
  raw_record quoted_id (py "First") (py "Journal") (py "20:00:00")
    (py "20:30:00") (py "Journal") (py "") (py "En 16:9") (py "0") (py "")
    (py "0") (py "") (py "01/03/2024").

Definition sample_quoted_second : str := Eval vm_compute in
  raw_record quoted_id (py "Second") (py "Nuit") (py "20:30:00")
    (py "21:00:00") (py "Divers") (py "") (py "En 16:9") (py "0") (py "")
    (py "0") (py "") (py "01/03/2024").

Definition sample_quoted_feed : list (list str) :=
  [[sample_quoted_first; sample_quoted_second]].

(** An identifier whose path goes on after the predicate: up to the root and
    down again to the channel 1. *)
Definition detour_id : str := Eval vm_compute in
  py "1.tv.telerama.fr" ++ double_quote :: py "]/../channel[@id="
  ++ double_quote :: py "1".

Definition sample_detour : str := Eval vm_compute in
  raw_record detour_id (py "Detour") (py "Nuit") (py "20:30:00")
    (py "21:00:00") (py "Divers") (py "") (py "En 16:9") (py "0") (py "")
    (py "0") (py "") (py "01/03/2024").

(** An identifier with one double quote. *)
Definition odd_quote_id : str := Eval vm_compute in
  py "a" ++ double_quote :: py "b".

(** A small document of the kind that the grabber builds, and the place of
    the element that [Element.find] answers in a document: the indices that
    lead to it from the root. *)
Definition sample_tree : element := Eval vm_compute in
  Element (py "tv") [] None
    [ Element (py "channel") [(py "id", py "2.tv.telerama.fr")] None
        [Element (py "display-name") [] (Some (py "France 2")) []];
      Element (py "channel") [(py "id", py "1.tv.telerama.fr")] None
        [Element (py "display-name") [] (Some (py "TF1")) []];
      Element (py "programme") [(py "channel", py "1.tv.telerama.fr")] None
        [ Element (py "title") [] (Some (py "Journal")) [];
          Element (py "category") [] (Some (py "News")) [];
          Element (py "category") [(py "lang", py "fr")] (Some (py "Journal")) [] ];
      Element (py "programme")
        [(py "channel", py "2.tv.telerama.fr"); (py "showview", py "123")] None
        [ Element (py "title") [] (Some (py "Le film")) [];
          Element (py "credits") [] None
            [ Element (py "actor") [(py "role", py "Paul")]
                (Some (py "Jean Dupont")) [];
              Element (py "actor") [] (Some (py "Marie Curie")) [] ];
          Element (py "category") [(py "lang", py "fr")] (Some (py "Film")) [] ] ].

Definition find_place (doc : element) (path : str)
  : outcome (option (list nat)) :=
  n <- element_find (iterfind recursion_limit) doc path ;;
  Ok (option_map (fun n => rev (place n)) n).

(** ** The configuration file (lines 182-203) *)

Definition carriage_return : char := 13%N.
Definition s_channel_eq : str := Eval vm_compute in py "channel=".

(** What [write_configuration] leaves in the file that it opens in mode
    ['w']: [print('channel=' + c, file=config)] for each channel, each
    [print] ending its line with a newline.  The file is a text, a sequence
    of characters; the directory that the function creates when it is
    missing, and the encoding of the locale, are not modelled. *)
Definition write_configuration (channels : list str) : str :=
  concat (map (fun c => s_channel_eq ++ c ++ [newline]) channels).

(** [for l in config]: the lines of a file opened in mode ['r'], where a
    line ends with ['\n'], ['\r'] or ['\r\n'], each of them read as ['\n']
    (the universal newlines of [open]); the last line may have no end. *)
Fixpoint file_lines_go (cur s : str) : list str :=
  match s with
  | [] =>
      match cur with
      | [] => []
      | _ :: _ => [cur]
      end
  | x :: s' =>
      if N.eqb x newline then (cur ++ [newline]) :: file_lines_go [] s'
      else if N.eqb x carriage_return then
        match s' with
        | y :: s'' =>
            if N.eqb y newline then (cur ++ [newline]) :: file_lines_go [] s''
            else (cur ++ [newline]) :: file_lines_go [] s'
        | [] => [cur ++ [newline]]
        end
      else file_lines_go (cur ++ [x]) s'
  end.

Definition file_lines (content : str) : list str := file_lines_go [] content.

(** The part of the pattern of line 200 between its anchors: the text
    [channel=], then group 1, any run of characters other than a newline. *)
Definition config_line_re : regex :=
  Seq (Lit s_channel_eq) (Group 1 (Star CAny)).

(** The [re.search] of line 200, whose pattern is anchored by [^] and [$]
    and has no flag: [^] matches at the start of the string only, so that
    the search can match at the first position and at no other, and [$]
    closes the pattern. *)
Definition search_config_line (l : str) : option match_object :=
  rmatch (Group 0 config_line_re)
    (fun st => if at_end (rest st) then accept st else None)
    (mk_mstate None l []).

(** [load_configuration], from the text of the file. *)
Definition load_configuration (content : str) : list str :=
  flat_map (fun l => match search_config_line l with
                     | Some m => [group_str m 1]
                     | None => []
                     end)
           (file_lines content).

(** ** [get_available_channels] (lines 166-179) *)

(** [s[:-n]] for [n > 0] *)
Definition drop_last (n : nat) (s : str) : str := firstn (length s - n) s.

(** [d[k] = v] on a [dict]: a key that is present keeps its place. *)
Fixpoint dict_set (d : list (str * str)) (k v : str) : list (str * str) :=
  match d with
  | [] => [(k, v)]
  | (k', v') :: d' =>
      if str_eqb k' k then (k', v) :: d' else (k', v') :: dict_set d' k v
  end.

(** One turn of the loop of lines 174-178. *)
Definition channel_entry (channels : list (str * str)) (i : str)
  : list (str * str) :=
  match str_split s_field_separator i with
  | [c0; c1] =>
      if str_eqb c1 [] then channels
      else dict_set channels (telerama_to_xmltv_id c0) c1
  | _ => channels
  end.

(** [get_available_channels], from the decoded response. *)
Definition get_available_channels (response : str) : list (str * str) :=
  let content := drop_last 5 response in
  fold_left channel_entry
    (removelast (str_split s_record_separator content)) [].

(** ** [configure] (lines 469-495) *)

Definition s_select : str := Eval vm_compute in
  py "Select the channels that you want to receive data for.".
Definition s_prompt : str := Eval vm_compute in
  py " [yes,no,all,none (default=no)] ".
Definition s_invalid : str := Eval vm_compute in
  py "invalid response, please choose one of yes,no,select_all,select_none"
  ++ [newline].
Definition s_yes : str := Eval vm_compute in py "yes".
Definition s_no : str := Eval vm_compute in py "no".
Definition s_all : str := Eval vm_compute in py "all".
Definition s_none : str := Eval vm_compute in py "none".
Definition s_said_yes : str := Eval vm_compute in py " yes".
Definition s_said_no : str := Eval vm_compute in py " no".

(** The terminal: the lines that [input] is still to read, and the text
    written to the standard output. *)
Record console : Type := mk_console {
  stdin : list str;
  stdout : str
}.

(** [print(s)] *)
Definition print (s : str) (out : str) : str := out ++ s ++ [newline].

(** [answer in ['', 'yes', 'no', 'all', 'none']] *)
Definition valid_answer (answer : str) : bool :=
  existsb (str_eqb answer) [[]; s_yes; s_no; s_all; s_none].

(** The [while True] loop of lines 481-485: [input] writes the prompt and
    reads a line; at the end of the input it raises [EOFError], for which
    the model answers [None]. *)
Fixpoint ask (prompt : str) (inp : list str) (out : str)
  : option (str * console) :=
  match inp with
  | [] => None
  | l :: inp' =>
      let answer := strip l in
      if valid_answer answer then Some (answer, mk_console inp' (out ++ prompt))
      else ask prompt inp' (print s_invalid (out ++ prompt))
  end.

(** The local variables of [configure]. *)
Record configure_state : Type := mk_configure_state {
  channels : list str;
  select_all : bool;
  select_none : bool;
  answer : str;
  term : console
}.

(** One turn of the loop over the available channels (lines 479-493). *)
Definition configure_body (st : configure_state) (channel : str * str)
  : option configure_state :=
  let channel_id := fst channel in
  let channel_name := snd channel in
  let asked :=
    if negb (select_all st) && negb (select_none st) then
      match ask (channel_name ++ s_prompt) (stdin (term st)) (stdout (term st)) with
      | Some (a, t) =>
          Some (mk_configure_state (channels st) (str_eqb a s_all)
                  (str_eqb a s_none) a t)
      | None => None
      end
    else Some st in
  match asked with
  | None => None
  | Some st1 =>
      let channels1 :=
        if select_all st1 || str_eqb (answer st1) s_yes
        then channels st1 ++ [channel_id]
        else channels st1 in
      let out1 :=
        if select_all st1 then print (channel_name ++ s_said_yes) (stdout (term st1))
        else if select_none st1
             then print (channel_name ++ s_said_no) (stdout (term st1))
             else stdout (term st1) in
      Some (mk_configure_state channels1 (select_all st1) (select_none st1)
              (answer st1) (mk_console (stdin (term st1)) out1))
  end.

Fixpoint configure_loop (st : configure_state) (available : list (str * str))
  : option configure_state :=
  match available with
  | [] => Some st
  | channel :: available' =>
      match configure_body st channel with
      | Some st' => configure_loop st' available'
      | None => None
      end
  end.

(** [answer] has no value before the first question; the loop does not read
    it before. *)
Definition configure_init (inp : list str) : configure_state :=
  mk_configure_state [] false false [] (mk_console inp (print s_select [])).

(** [configure], from the available channels and the lines of the standard
    input to the text of the configuration file and the terminal. *)
Definition configure (available_channels : list (str * str)) (inp : list str)
  : option (str * console) :=
  match configure_loop (configure_init inp) available_channels with
  | Some st => Some (write_configuration (channels st), term st)
  | None => None
  end.

(** ** The command line (lines 556-568) and the requests (lines 220-226) *)

Definition DEFAULT_DAYS : Z := 1.
Definition DEFAULT_OFFSET : Z := 0.
Definition MAX_FETCH_DAYS : Z := 11.

(** [x or default] for the value of an [int] option: [None] and [0] are
    false. *)
Definition int_or (x : option Z) (default : Z) : Z :=
  match x with
  | Some z => if (z =? 0)%Z then default else z
  | None => default
  end.

(** The [days] and the [offset] that the script passes to
    [write_xmltv_data]. *)
Definition grab_window (args_days args_offset : option Z) : Z * Z :=
  let offset := int_or args_offset DEFAULT_OFFSET in
  let days := int_or args_days DEFAULT_DAYS in
  if (offset + days >? MAX_FETCH_DAYS)%Z
  then ((MAX_FETCH_DAYS - offset)%Z, offset)
  else (days, offset).

(** [range(0, n)] *)
Definition range (n : Z) : list Z := map Z.of_nat (seq 0 (Z.to_nat n)).

(** The calls [get_telerama_programs(channel_id, today + timedelta(days=d))]
    of [write_xmltv_data], in order: the channel and the number [d] of days
    after today. *)
Definition fetch_requests (channels : list str) (days offset : Z)
  : list (str * Z) :=
  flat_map (fun i => map (fun channel_id => (channel_id, (i + offset)%Z)) channels)
           (range days).

(** ** Vocabulary of the programme's structure *)

(** A subsequence: the elements of the first list occur in the second in the
    same order. *)
Fixpoint subseq (a b : list str) : bool :=
  match a, b with
  | [], _ => true
  | _ :: _, [] => false
  | x :: a', y :: b' => if str_eqb x y then subseq a' b' else subseq a b'
  end.

(** The tags of the children of a [programme], in the order in which the
    loop body appends them. *)
Definition programme_child_tags : list str :=
  [s_title; s_sub_title; s_desc; s_credits; s_date;
   s_category; s_category; s_category; s_icon; s_episode_num;
   s_audio; s_previously_shown; s_premiere; s_subtitles;
   s_rating; s_star_rating; s_review].

(** The character does not occur in the string. *)
Definition free_of (c : char) (s : str) : Prop := mem c s = false.

(** ** Vocabulary of the list of channels *)

(** A response of the channel service made of entries [id$$$name], each
    followed by the record separator. *)
Definition channels_feed (entries : list (str * str)) : str :=
  concat (map (fun e => fst e ++ s_field_separator ++ snd e ++ s_record_separator)
              entries).

(** A text with no colon and no dollar sign, the characters of the
    separators. *)
Definition plain (s : str) : Prop := free_of 58%N s /\ free_of 36%N s.

(** The entries under their namespaced identifiers. *)
Definition namespaced (entries : list (str * str)) : list (str * str) :=
  map (fun e => (telerama_to_xmltv_id (fst e), snd e)) entries.

(** ** Vocabulary of the dialogue of [configure] *)

(** An answer for one channel: [yes], [no] or nothing, blanks around it
    apart. *)
Definition plain_answer (l : str) : bool :=
  existsb (str_eqb (strip l)) [[]; s_yes; s_no].

(** The identifiers of the channels whose answer is [yes]. *)
Definition answered_yes (available : list (str * str)) (answers : list str)
  : list str :=
  map (fun p => fst (fst p))
      (filter (fun p => str_eqb (strip (snd p)) s_yes) (combine available answers)).

(** Two runs of the loop, one of them on the input without the answers that
    are not understood. *)
Definition same_choice (st st' : configure_state) : Prop :=
  channels st' = channels st /\ select_all st' = select_all st
  /\ select_none st' = select_none st /\ answer st' = answer st
  /\ stdin (term st')
     = filter (fun l => valid_answer (strip l)) (stdin (term st)).

(** ** Vocabulary of the lines of the details block *)

(** A line of the details block starts with the text [s]. *)
Definition line_starts (s details : str) : Prop :=
  exists pre post, details = pre ++ s ++ post /\ line_start pre = true.

(** The texts that the patterns of lines 403-431 look for at the start of a
    line. *)
Definition t_dolby51 : str := Eval vm_compute in py "En Dolby 5.1".
Definition t_dolby : str := Eval vm_compute in py "En Dolby".
Definition t_stereo : str := Eval vm_compute in py "Stéréo".
Definition t_rediffusion : str := Eval vm_compute in py "Rediffusion".
Definition t_inedit : str := Eval vm_compute in py "Inédit".
Definition t_premiere : str := Eval vm_compute in py "Première diffusion".
Definition t_vost : str := Eval vm_compute in py "VOST".
Definition t_sous_titre : str := Eval vm_compute in py "Sous-titré".

(** The two lines of an aspect ratio. *)
Definition t_en : str := Eval vm_compute in py "En ".
Definition t_169 : str := Eval vm_compute in py "16:9".
Definition t_43 : str := Eval vm_compute in py "4:3".

(** The details block has a line for the aspect ratio. *)
Definition has_aspect_line (details : str) : Prop :=
  line_starts (t_en ++ t_169) details \/ line_starts (t_en ++ t_43) details.

(** The [audio] element for a format. *)
Definition audio_element (stereo : str) : element :=
  Element s_audio [] None [text_element s_stereo [] stereo].

(** The kinds of credits that carry no role, with their labels. *)
Definition plain_credit_kinds : list (str * str) :=
  [(s_director, l_realisateur); (s_composer, l_musique);
   (s_presenter, l_presentateur); (s_guest, l_invites)].

(** A record of a series, whose details block has a line of every kind. *)
Definition sample_lines_before : str := Eval vm_compute in
  py "Sous-titre : Le pilote" ++ newline
  :: py "Réalisateur : Anne Martin, Luc Petit" ++ newline
  :: py "Année : 2015" ++ newline
  :: py "Episode : 3/10" ++ newline
  :: py "Saison : 2" ++ newline
  :: py "En 16:9".

Definition sample_lines_after : str := Eval vm_compute in
  t_rediffusion ++ newline :: t_vost ++ newline :: t_inedit.

Definition sample_series_details : str := Eval vm_compute in
  sample_lines_before ++ newline :: t_dolby51 ++ newline :: sample_lines_after.

Definition sample_series : str := Eval vm_compute in
  raw_record (py "2") (py "France 2") (py "La série") (py "21:00:00")
    (py "21:50:00") (py "Série") (py "") sample_series_details
    (py "2") (py "") (py "3") (py "") (py "01/03/2024").

(** ** Vocabulary of the times of a programme *)

(** The text [s] is the number [z] written with [n] decimal digits. *)
Definition digits_of (n : nat) (z : Z) (s : str) : Prop :=
  length s = n /\ all_in digit s = true /\ int_of_digits s = z.

Definition t_plus_0100 : str := Eval vm_compute in py "+0100".
Definition t_plus_0200 : str := Eval vm_compute in py "+0200".

(** The text [s] is the time [a] in the form [YYYYMMDDhhmmss +hhmm], for a
    UTC offset of one or two hours. *)
Definition xmltv_time_text (a : aware) (s : str) : Prop :=
  exists Y m d H M S z,
    s = Y ++ m ++ d ++ H ++ M ++ S ++ 32%N :: z
    /\ digits_of 4 (year (wall a)) Y /\ digits_of 2 (month (wall a)) m
    /\ digits_of 2 (day (wall a)) d /\ digits_of 2 (hour (wall a)) H
    /\ digits_of 2 (minute (wall a)) M /\ digits_of 2 (second (wall a)) S
    /\ ((utcoffset a = 3600%Z /\ z = t_plus_0100)
        \/ (utcoffset a = 7200%Z /\ z = t_plus_0200)).

(* ================================================================== *)
(** * Part II. Properties                                              *)
(* ================================================================== *)

(** ** Strings *)

Lemma str_eqb_eq (a b : str) : str_eqb a b = true <-> a = b.
Proof.
  revert b; induction a as [|x a IH]; intros [|y b]; simpl; split;
    try congruence; try reflexivity.
  - intros H. apply andb_true_iff in H as [H1 H2].
    apply N.eqb_eq in H1. apply IH in H2. congruence.
  - intros H. injection H as -> ->. rewrite N.eqb_refl. simpl.
    now apply IH.
Qed.

Lemma str_eqb_refl (a : str) : str_eqb a a = true.
Proof. now apply str_eqb_eq. Qed.

Lemma str_eqb_neq (a b : str) : str_eqb a b = false <-> a <> b.
Proof.
  split.
  - intros H E. apply str_eqb_eq in E. congruence.
  - intros H. destruct (str_eqb a b) eqn:E; [|reflexivity].
    apply str_eqb_eq in E. contradiction.
Qed.

Lemma starts_with_app (p t : str) : starts_with p (p ++ t) = true.
Proof.
  unfold starts_with. rewrite firstn_app, Nat.sub_diag, firstn_all. simpl.
  rewrite app_nil_r. apply str_eqb_refl.
Qed.

Lemma starts_with_true (p t : str) :
  starts_with p t = true <-> exists r, t = p ++ r.
Proof.
  split.
  - intros H. apply str_eqb_eq in H. exists (skipn (length p) t).
    rewrite <- H at 1. symmetry. apply firstn_skipn.
  - intros [r ->]. apply starts_with_app.
Qed.

Lemma starts_with_skipn (p t : str) :
  starts_with p t = true -> t = p ++ skipn (length p) t.
Proof.
  intros H. apply str_eqb_eq in H. rewrite <- H at 1.
  symmetry. apply firstn_skipn.
Qed.

Lemma join_cons (sep : str) (a : str) (l : list str) :
  l <> [] -> join sep (a :: l) = a ++ sep ++ join sep l.
Proof. destruct l; [congruence | reflexivity]. Qed.

Lemma join_snoc (sep : str) (l : list str) (x y : str) :
  join sep ((l ++ [x]) ++ [y]) = join sep (l ++ [x]) ++ sep ++ y.
Proof.
  induction l as [|a l IH].
  - reflexivity.
  - change (((a :: l) ++ [x]) ++ [y]) with (a :: ((l ++ [x]) ++ [y])).
    change ((a :: l) ++ [x]) with (a :: (l ++ [x])).
    rewrite !join_cons.
    + rewrite IH. now rewrite <- !app_assoc.
    + now destruct l.
    + now destruct l.
Qed.

Lemma join_last_app (sep : str) (l : list str) (x y : str) :
  join sep (l ++ [x ++ y]) = join sep (l ++ [x]) ++ y.
Proof.
  induction l as [|a l IH]; [reflexivity|].
  change ((a :: l) ++ [x ++ y]) with (a :: (l ++ [x ++ y])).
  change ((a :: l) ++ [x]) with (a :: (l ++ [x])).
  rewrite !join_cons by (now destruct l).
  rewrite IH. now rewrite <- !app_assoc.
Qed.

Lemma join_middle (sep : str) (pre : list str) (u : str) (post : list str) :
  join sep (pre ++ u :: post)
  = concat (map (fun s => s ++ sep) pre) ++ join sep (u :: post).
Proof.
  induction pre as [|a pre IH]; [reflexivity|].
  change ((a :: pre) ++ u :: post) with (a :: (pre ++ u :: post)).
  rewrite join_cons by (now destruct pre).
  rewrite IH. cbn [map concat]. now rewrite <- !app_assoc.
Qed.

Lemma join_head_app (sep : str) (u v : str) (post : list str) :
  join sep ((u ++ v) :: post) = u ++ join sep (v :: post).
Proof. destruct post; cbn [join]; [reflexivity | now rewrite <- app_assoc]. Qed.

Lemma filter_none {A : Type} (f : A -> bool) (l : list A) :
  (forall x, In x l -> f x = false) -> filter f l = [].
Proof.
  induction l as [|a l IH]; intros H; [reflexivity|].
  simpl. rewrite (H a) by now left. apply IH. intros x Hx. apply H. now right.
Qed.

(** ** The splitter *)

Lemma slice_from (s : str) (i k : nat) :
  slice s i (i + k) = firstn k (skipn i s).
Proof. unfold slice. f_equal. lia. Qed.

Lemma skipn_cons_inv (s : str) (i : nat) :
  i < length s -> exists c, skipn i s = c :: skipn (S i) s.
Proof.
  revert i; induction s as [|x s IH]; intros i H; simpl in H; [lia|].
  destruct i as [|i]; [now exists x|].
  destruct (IH i) as [c Hc]; [lia|]. now exists c.
Qed.

Section Splitter.

Variables separator delimiter1 delimiter2 : str.

(** The loop body, read on the text [r] left at the current index. *)
Lemma split_body_rest (string : str) (st : split_state) (c : char) :
  skipn (idx st) string = c :: skipn (S (idx st)) string ->
  split_body string separator delimiter1 delimiter2 st
  = if starts_with separator (skipn (idx st) string) && (level st =? 0)%Z
    then {| result := result st ++ [tmp st]; tmp := []; level := level st;
            idx := idx st + length separator |}
    else {| result := result st; tmp := tmp st ++ [c];
            level := (level st + delta delimiter1 delimiter2 (skipn (idx st) string))%Z;
            idx := idx st + 1 |}.
Proof.
  intros Hc. unfold split_body, starts_with, delta, starts_with.
  rewrite !slice_from.
  destruct (str_eqb (firstn (length separator) (skipn (idx st) string)) separator
            && (level st =? 0)%Z); [reflexivity|].
  f_equal.
  - rewrite Hc. reflexivity.
  - destruct (str_eqb (firstn (length delimiter1) (skipn (idx st) string)) delimiter1);
      [reflexivity|].
    destruct (str_eqb (firstn (length delimiter2) (skipn (idx st) string)) delimiter2);
      [reflexivity|].
    now rewrite Z.add_0_r.
Qed.

(** The loop over the index and the loop over the remaining text agree. *)
Lemma split_loop_scan (string : str) (fuel : nat) (st : split_state) :
  idx st <= length string ->
  match split_loop fuel string separator delimiter1 delimiter2 st with
  | Some st' => Some (result st' ++ [tmp st'])
  | None => None
  end
  = scan fuel separator delimiter1 delimiter2
      (result st) (tmp st) (level st) (skipn (idx st) string).
Proof.
  revert st; induction fuel as [|fuel IH]; intros st Hi; [reflexivity|].
  cbn [split_loop scan].
  destruct (idx st <? length string) eqn:E.
  - apply Nat.ltb_lt in E.
    destruct (skipn_cons_inv string (idx st) E) as [c Hc].
    rewrite (split_body_rest string st c Hc).
    destruct (starts_with separator (skipn (idx st) string) && (level st =? 0)%Z) eqn:B.
    + rewrite IH; cbn [result tmp level idx].
      * rewrite skipn_skipn, (Nat.add_comm (length separator)), Hc. reflexivity.
      * apply andb_true_iff in B as [B _]. apply str_eqb_eq in B.
        apply (f_equal (@length char)) in B.
        rewrite length_firstn, length_skipn in B. lia.
    + rewrite IH; cbn [result tmp level idx]; [|lia].
      rewrite Nat.add_1_r, Hc. reflexivity.
  - apply Nat.ltb_ge in E.
    rewrite skipn_all2 by lia. reflexivity.
Qed.

Lemma split_fuel_scan (string : str) (fuel : nat) :
  split_fuel fuel string separator delimiter1 delimiter2
  = scan fuel separator delimiter1 delimiter2 [] [] 0%Z string.
Proof.
  unfold split_fuel.
  apply (split_loop_scan string fuel split_init). simpl. lia.
Qed.

(** With a non-empty separator the loop ends. *)
Lemma scan_total (fuel : nat) (res : list str) (tm : str) (lvl : Z) (rest : str) :
  separator <> [] -> length rest < fuel ->
  exists segs, scan fuel separator delimiter1 delimiter2 res tm lvl rest = Some segs.
Proof.
  intros Hsep. revert res tm lvl rest.
  induction fuel as [|fuel IH]; intros res tm lvl rest Hlen; [lia|].
  cbn [scan]. destruct rest as [|c rest']; [eauto|].
  destruct (starts_with separator (c :: rest') && (lvl =? 0)%Z) eqn:B.
  - apply IH. rewrite length_skipn.
    destruct separator; [congruence|]. simpl in *. lia.
  - apply IH. simpl in Hlen. lia.
Qed.

(** The segments, joined by the separator, give back the text read. *)
Lemma scan_join (fuel : nat) (res : list str) (tm : str) (lvl : Z) (rest : str)
    (segs : list str) :
  scan fuel separator delimiter1 delimiter2 res tm lvl rest = Some segs ->
  join separator segs = join separator (res ++ [tm]) ++ rest.
Proof.
  revert res tm lvl rest.
  induction fuel as [|fuel IH]; intros res tm lvl rest H; [discriminate|].
  cbn [scan] in H. destruct rest as [|c rest'].
  - injection H as <-. now rewrite app_nil_r.
  - destruct (starts_with separator (c :: rest') && (lvl =? 0)%Z) eqn:B.
    + apply IH in H. rewrite H, join_snoc.
      apply andb_true_iff in B as [B _]. apply starts_with_skipn in B.
      rewrite B at 2. now rewrite <- !app_assoc.
    + apply IH in H. rewrite H, join_last_app. now rewrite <- app_assoc.
Qed.

(** What the loop returns keeps the segments closed so far, and extends the
    segment being read. *)
Lemma scan_tail (fuel : nat) (res : list str) (tm : str) (lvl : Z) (rest : str)
    (segs : list str) :
  scan fuel separator delimiter1 delimiter2 res tm lvl rest = Some segs ->
  exists y post, segs = res ++ (tm ++ y) :: post.
Proof.
  revert res tm lvl rest.
  induction fuel as [|fuel IH]; intros res tm lvl rest H; [discriminate|].
  cbn [scan] in H. destruct rest as [|x rest'].
  - injection H as <-. exists [], []. now rewrite app_nil_r.
  - destruct (starts_with separator (x :: rest') && (lvl =? 0)%Z).
    + apply IH in H as (y & post & ->). exists [], (y :: post).
      now rewrite app_nil_r, <- app_assoc.
    + apply IH in H as (y & post & ->). exists (x :: y), post.
      now rewrite <- app_assoc.
Qed.

End Splitter.

Lemma app_eq_prefix (u t s r : str) :
  u ++ t = s ++ r -> length u <= length s -> exists q, s = u ++ q.
Proof.
  revert s; induction u as [|x u IH]; intros s H L.
  - now exists s.
  - destruct s as [|y s]; simpl in *; [lia|].
    injection H as -> H. destruct (IH s H) as [q ->]; [lia|]. now exists q.
Qed.

Lemma mem_false_cons (x y : char) (s : str) :
  mem x (y :: s) = false -> N.eqb x y = false /\ mem x s = false.
Proof. unfold mem. simpl. intros H. now apply orb_false_iff in H. Qed.

(** Single-character delimiters that do not occur in a separator whose
    occurrences cannot overlap: the situation of every call in the source,
    [split_outside_delimiters(..., ', ', '(', ')')]. *)
Section CharDelimiters.

Variable separator : str.
Variables o c : char.

Hypothesis separator_nonempty : separator <> [].
Hypothesis open_not_in_separator : mem o separator = false.
Hypothesis close_not_in_separator : mem c separator = false.
Hypothesis separator_unbordered : unbordered separator = true.

Lemma delta_char (x : char) (t : str) :
  delta [o] [c] (x :: t)
  = if N.eqb x o then 1%Z else if N.eqb x c then (-1)%Z else 0%Z.
Proof.
  unfold delta, starts_with. simpl. rewrite !andb_true_r. reflexivity.
Qed.

Lemma delta_in_separator (p q : str) (x : char) (t : str) :
  separator = p ++ x :: q -> delta [o] [c] (x :: t) = 0%Z.
Proof.
  intros E. rewrite delta_char.
  assert (Hx : forall d, mem d separator = false -> N.eqb x d = false).
  { intros d Hd. rewrite E in Hd. clear E.
    induction p as [|y p IH]; simpl in Hd.
    - apply mem_false_cons in Hd as [Hd _]. now rewrite N.eqb_sym.
    - apply mem_false_cons in Hd as [_ Hd]. auto. }
  now rewrite (Hx o), (Hx c).
Qed.

Lemma depth_shift (lvl : Z) (t : str) :
  depth [o] [c] lvl t = (lvl + depth [o] [c] 0 t)%Z.
Proof.
  revert lvl; induction t as [|x t IH]; intros lvl; cbn [depth]; [lia|].
  rewrite (IH (lvl + _)%Z), (IH (0 + _)%Z). lia.
Qed.

Lemma depth_app (lvl : Z) (s t : str) :
  depth [o] [c] lvl (s ++ t) = depth [o] [c] (depth [o] [c] lvl s) t.
Proof.
  revert lvl; induction s as [|x s IH]; intros lvl; [reflexivity|].
  simpl. rewrite !delta_char. apply IH.
Qed.

(** A proper suffix of the separator does not start the separator. *)
Lemma no_overlap (p u t : str) :
  separator = p ++ u -> p <> [] -> u <> [] ->
  starts_with separator (u ++ t) = false.
Proof.
  intros E Hp Hu.
  destruct (starts_with separator (u ++ t)) eqn:S; [exfalso|reflexivity].
  apply starts_with_true in S as [r S].
  assert (L : length separator = length p + length u)
    by (rewrite E at 1; apply length_app).
  destruct (app_eq_prefix _ _ _ _ S) as [q Hq]; [lia|].
  unfold unbordered in separator_unbordered.
  rewrite forallb_forall in separator_unbordered.
  specialize (separator_unbordered (length p)).
  assert (Hk : skipn (length p) separator = u).
  { rewrite E at 1. rewrite skipn_app, skipn_all, Nat.sub_diag. reflexivity. }
  rewrite Hk in separator_unbordered.
  assert (starts_with u separator = true)
    by (apply starts_with_true; now exists q).
  rewrite H in separator_unbordered. simpl in separator_unbordered.
  assert (In (length p) (seq 1 (length separator - 1))).
  { apply in_seq. destruct p; [congruence|]. destruct u; [congruence|].
    simpl in *. lia. }
  specialize (separator_unbordered H0). discriminate.
Qed.

(** Reading the rest [u] of a separator changes neither the level nor the
    number of separator occurrences at level zero. *)
Lemma occurrences_skip (p u t : str) (lvl : Z) :
  separator = p ++ u -> p <> [] ->
  level0_occurrences separator [o] [c] lvl (u ++ t)
  = level0_occurrences separator [o] [c] lvl t.
Proof.
  revert p; induction u as [|x u IH]; intros p E Hp; [reflexivity|].
  cbn [app level0_occurrences].
  change (x :: u ++ t) with ((x :: u) ++ t).
  rewrite (no_overlap p (x :: u) t E Hp) by congruence.
  cbn [app]. rewrite (delta_in_separator p u x (u ++ t) E), Z.add_0_r.
  simpl. apply (IH (p ++ [x])).
  - now rewrite <- app_assoc.
  - now destruct p.
Qed.

Lemma depth_skip (p u t : str) (lvl : Z) :
  separator = p ++ u ->
  depth [o] [c] lvl (u ++ t) = depth [o] [c] lvl t.
Proof.
  revert p; induction u as [|x u IH]; intros p E; [reflexivity|].
  cbn [app depth].
  rewrite (delta_in_separator p u x (u ++ t) E), Z.add_0_r.
  apply (IH (p ++ [x])). now rewrite <- app_assoc.
Qed.

Lemma separator_cons : exists y sep', separator = y :: sep'.
Proof. destruct separator as [|y sep']; [congruence | eauto]. Qed.

(** The number of segments is one more than the number of separator
    occurrences at level zero. *)
Lemma scan_length (fuel : nat) (res : list str) (tm : str) (lvl : Z) (rest : str)
    (segs : list str) :
  scan fuel separator [o] [c] res tm lvl rest = Some segs ->
  length segs
  = length res + 1 + level0_occurrences separator [o] [c] lvl rest.
Proof.
  revert res tm lvl rest.
  induction fuel as [|fuel IH]; intros res tm lvl rest H; [discriminate|].
  cbn [scan] in H. destruct rest as [|x rest'].
  - injection H as <-. rewrite length_app. simpl. lia.
  - cbn [level0_occurrences].
    destruct (starts_with separator (x :: rest') && (lvl =? 0)%Z) eqn:B.
    + apply IH in H. rewrite H, length_app. cbn [length].
      apply andb_true_iff in B as [B _]. apply starts_with_skipn in B.
      destruct separator_cons as (y & sep' & Esep).
      assert (Hs : skipn (length separator) (x :: rest')
                   = skipn (length sep') rest')
        by (rewrite Esep; reflexivity).
      rewrite Hs in *. rewrite Esep in B at 1.
      cbn [app] in B. injection B as <- B.
      rewrite (delta_in_separator [] sep' x rest' Esep), Z.add_0_r.
      rewrite B at 2.
      rewrite (occurrences_skip [x] sep' (skipn (length sep') rest') lvl Esep)
        by congruence.
      lia.
    + apply IH in H. rewrite H. lia.
Qed.

Lemma mem_app_r (x : char) (p q : str) :
  mem x (p ++ q) = false -> mem x q = false.
Proof.
  unfold mem. rewrite existsb_app. intros H. now apply orb_false_iff in H.
Qed.

Lemma not_starts_with_separator (x : char) (t : str) :
  mem x separator = false -> starts_with separator (x :: t) = false.
Proof.
  intros Hx. destruct separator_cons as (y & sep' & E).
  destruct (starts_with separator (x :: t)) eqn:S; [exfalso|reflexivity].
  apply starts_with_true in S as [r S]. rewrite E in S, Hx.
  injection S as -> _. apply mem_false_cons in Hx as [Hx _].
  now rewrite N.eqb_refl in Hx.
Qed.

(** Reading a text [a] whose last character cannot be inside a separator
    occurrence that runs past it: the level reached is [depth lvl a], and
    the segments closed and the segment being read hold the text read. *)
Lemma scan_prefix (fuel : nat) (a : str) (res : list str) (tm : str) (lvl : Z)
    (w : str) (segs : list str) :
  (forall x w', w = x :: w' -> mem x separator = false) ->
  scan fuel separator [o] [c] res tm lvl (a ++ w) = Some segs ->
  exists fuel' res' tm',
    scan fuel' separator [o] [c] res' tm' (depth [o] [c] lvl a) w = Some segs
    /\ concat (map (fun x => x ++ separator) res') ++ tm'
       = concat (map (fun x => x ++ separator) res) ++ tm ++ a.
Proof.
  intros Hw. revert a res tm lvl.
  induction fuel as [|fuel IH]; intros a res tm lvl H; [discriminate|].
  destruct a as [|x a'].
  - exists (S fuel), res, tm. split; [exact H | now rewrite app_nil_r].
  - cbn [app scan] in H.
    destruct (starts_with separator (x :: a' ++ w) && (lvl =? 0)%Z) eqn:B.
    + apply andb_true_iff in B as [B _]. apply starts_with_skipn in B.
      set (r := skipn (length separator) (x :: a' ++ w)) in *.
      change (x :: a' ++ w) with ((x :: a') ++ w) in B.
      destruct (Nat.le_gt_cases (length separator) (length (x :: a'))) as [L|L].
      * symmetry in B.
        destruct (app_eq_prefix _ _ _ _ B L) as [a2 Ea].
        rewrite Ea, <- app_assoc in B. apply app_inv_head in B.
        rewrite B in H. apply IH in H as (fuel' & res' & tm' & H & E).
        exists fuel', res', tm'. rewrite Ea. split.
        -- now rewrite (depth_skip [] separator a2 lvl eq_refl).
        -- rewrite E, map_app, concat_app. cbn [map concat app].
           now rewrite app_nil_r, <- !app_assoc.
      * exfalso.
        destruct (app_eq_prefix _ _ _ _ B) as [q Eq]; [lia|].
        rewrite Eq, <- app_assoc in B. apply app_inv_head in B.
        destruct q as [|y q].
        { rewrite app_nil_r in Eq. rewrite Eq in L. lia. }
        specialize (Hw y (q ++ r) B).
        rewrite Eq in Hw. apply mem_app_r in Hw.
        apply mem_false_cons in Hw as [Hw _]. now rewrite N.eqb_refl in Hw.
    + apply IH in H as (fuel' & res' & tm' & H & E).
      exists fuel', res', tm'. cbn [depth]. split.
      -- now rewrite delta_char in *.
      -- rewrite E, <- app_assoc. reflexivity.
Qed.

(** Reading a text [v] at whose positions the level is never zero: nothing
    is split, and the whole of [v] goes to the segment being read. *)
Lemma scan_inside (v : str) (fuel : nat) (res : list str) (tm : str) (lvl : Z)
    (w : str) (segs : list str) :
  (forall p q, v = p ++ q -> q <> [] -> depth [o] [c] lvl p <> 0%Z) ->
  scan fuel separator [o] [c] res tm lvl (v ++ w) = Some segs ->
  exists fuel',
    scan fuel' separator [o] [c] res (tm ++ v) (depth [o] [c] lvl v) w = Some segs.
Proof.
  revert fuel res tm lvl.
  induction v as [|x v IH]; intros fuel res tm lvl Hv H.
  - exists fuel. now rewrite app_nil_r.
  - destruct fuel as [|fuel]; [discriminate|].
    cbn [app scan] in H.
    assert (Hl : (lvl =? 0)%Z = false).
    { apply Z.eqb_neq. apply (Hv [] (x :: v) eq_refl). congruence. }
    rewrite Hl, andb_false_r in H.
    apply IH in H.
    + destruct H as [fuel' H]. exists fuel'.
      rewrite <- app_assoc in H. cbn [depth]. now rewrite delta_char in *.
    + intros p q E Hq. specialize (Hv (x :: p) q).
      cbn [depth] in Hv. rewrite delta_char in *.
      apply Hv; [now rewrite E | exact Hq].
Qed.

(** A group [o b c] opened at a level that is not negative, with [b] never
    closing more than it opens, lies inside one segment: the segments
    before it and the start of its own segment are the text [a] before the
    group. *)
Lemma scan_group (fuel : nat) (a b z : str) (segs : list str) :
  scan fuel separator [o] [c] [] [] 0%Z (a ++ o :: b ++ c :: z) = Some segs ->
  (0 <= depth [o] [c] 0 a)%Z ->
  (forall p q, b = p ++ q -> (0 <= depth [o] [c] 0 p)%Z) ->
  exists pre x y post,
    segs = pre ++ (x ++ o :: b ++ c :: y) :: post
    /\ a = concat (map (fun s => s ++ separator) pre) ++ x.
Proof.
  intros H Ha Hb.
  apply scan_prefix in H.
  2:{ intros x w' E. injection E as <- _. exact open_not_in_separator. }
  destruct H as (fuel1 & res1 & tm1 & H & Er).
  destruct fuel1 as [|fuel1]; [discriminate|].
  cbn [scan] in H.
  rewrite (not_starts_with_separator o _ open_not_in_separator) in H.
  cbn [andb] in H. rewrite delta_char, N.eqb_refl in H.
  replace (b ++ c :: z) with ((b ++ [c]) ++ z) in H
    by (now rewrite <- app_assoc).
  apply scan_inside in H.
  - destruct H as [fuel2 H]. apply scan_tail in H as (y & post & ->).
    exists res1, tm1, y, post. split.
    + f_equal. f_equal. now rewrite <- !app_assoc.
    + now rewrite Er.
  - intros p q E Hq.
    assert (exists q', b = p ++ q') as [q' Eb].
    { apply (app_eq_prefix p q b [c]); [now symmetry|].
      apply (f_equal (@length char)) in E. rewrite !length_app in E.
      destruct q; [congruence|]. simpl in E. lia. }
    rewrite depth_shift. specialize (Hb p q' Eb). lia.
Qed.

End CharDelimiters.

Lemma join_concat (sep : str) (init : list str) (final : str) :
  join sep (init ++ [final])
  = concat (map (fun x => x ++ sep) init) ++ final.
Proof.
  induction init as [|a init IH]; [reflexivity|].
  change ((a :: init) ++ [final]) with (a :: (init ++ [final])).
  rewrite join_cons by (now destruct init).
  rewrite IH. simpl. now rewrite <- !app_assoc.
Qed.

(** With an empty separator the test of line 140 holds at every index while
    the level is zero, and [i] does not move: the loop never ends. *)
Lemma split_loop_empty_separator (string delimiter1 delimiter2 : str)
    (fuel : nat) (st : split_state) :
  idx st < length string -> level st = 0%Z ->
  split_loop fuel string [] delimiter1 delimiter2 st = None.
Proof.
  revert st; induction fuel as [|fuel IH]; intros st Hi Hl; [reflexivity|].
  cbn [split_loop]. apply Nat.ltb_lt in Hi. rewrite Hi. apply Nat.ltb_lt in Hi.
  apply IH; unfold split_body; rewrite slice_from, Hl; simpl; [lia | reflexivity].
Qed.

Lemma split_empty_separator_diverges (string delimiter1 delimiter2 : str)
    (fuel : nat) :
  string <> [] -> split_fuel fuel string [] delimiter1 delimiter2 = None.
Proof.
  intros H. unfold split_fuel.
  rewrite split_loop_empty_separator; [reflexivity | | reflexivity].
  destruct string; [congruence | simpl; lia].
Qed.

Lemma split_outside_delimiters_scan (string separator delimiter1 delimiter2 : str) :
  split_outside_delimiters string separator delimiter1 delimiter2
  = scan (S (length string)) separator delimiter1 delimiter2 [] [] 0%Z string.
Proof. apply split_fuel_scan. Qed.

Lemma split_outside_delimiters_total (string separator delimiter1 delimiter2 : str) :
  separator <> [] ->
  exists segs,
    split_outside_delimiters string separator delimiter1 delimiter2 = Some segs.
Proof.
  intros H. rewrite split_outside_delimiters_scan.
  apply scan_total; [exact H | lia].
Qed.

(** C10. The split is lossless, whatever the delimiters and their nesting:
    for a non-empty separator the call returns, and joining the returned
    segments with the separator gives back the input string. *)
Theorem split_outside_delimiters_lossless
    (string separator delimiter1 delimiter2 : str) :
  separator <> [] ->
  exists segs,
    split_outside_delimiters string separator delimiter1 delimiter2 = Some segs
    /\ join separator segs = string.
Proof.
  intros H.
  destruct (split_outside_delimiters_total string separator delimiter1 delimiter2 H)
    as [segs Hs].
  exists segs. split; [exact Hs|].
  rewrite split_outside_delimiters_scan in Hs.
  apply scan_join in Hs. exact Hs.
Qed.

Lemma split_outside_delimiters_lossless_witness :
  py ", " <> []
  /\ exists segs,
       split_outside_delimiters (py "Jean (Paul, jr)), Marie (") (py ", ")
         (py "(") (py ")") = Some segs
       /\ join (py ", ") segs = py "Jean (Paul, jr)), Marie (".
Proof.
  split; [discriminate|].
  apply (split_outside_delimiters_lossless
           (py "Jean (Paul, jr)), Marie (") (py ", ") (py "(") (py ")")).
  discriminate.
Defined.

(** C3. For a non-empty separator the split returns at least one segment,
    and the last one is the text after the last split (every other segment
    is followed by a separator in the input).  For the single-character
    delimiters of the source, which do not occur in a separator that cannot
    overlap itself, the number of segments is one more than the number of
    separator occurrences at nesting level zero, and in a balanced string
    every group from an opening delimiter to its matching close is left
    whole: the segments before the group, each with its separator, and the
    start of the segment of the group are the text before the group, and
    the group and the end of that segment follow, so that no separator
    between the delimiters splits. *)
Theorem split_outside_delimiters_segments
    (string separator delimiter1 delimiter2 : str) :
  separator <> [] ->
  exists segs,
    split_outside_delimiters string separator delimiter1 delimiter2 = Some segs
    /\ 1 <= length segs
    /\ (exists init final,
          segs = init ++ [final]
          /\ string = concat (map (fun x => x ++ separator) init) ++ final)
    /\ (forall o c,
          delimiter1 = [o] -> delimiter2 = [c] ->
          mem o separator = false -> mem c separator = false ->
          unbordered separator = true ->
          length segs
          = level0_occurrences separator delimiter1 delimiter2 0 string + 1
          /\ (balanced delimiter1 delimiter2 string ->
              forall a b z,
                string = a ++ o :: b ++ c :: z ->
                balanced delimiter1 delimiter2 b ->
                exists pre x y post,
                  segs = pre ++ (x ++ o :: b ++ c :: y) :: post
                  /\ a = concat (map (fun s => s ++ separator) pre) ++ x
                  /\ z = join separator (y :: post))).
Proof.
  intros H.
  destruct (split_outside_delimiters_total string separator delimiter1 delimiter2 H)
    as [segs Hs].
  exists segs. split; [exact Hs|].
  rewrite split_outside_delimiters_scan in Hs.
  assert (Hlast : exists init final, segs = init ++ [final]).
  { destruct (scan_tail _ _ _ _ _ _ _ _ _ Hs) as (y & post & E).
    destruct (exists_last (l := segs)) as (init & final & E').
    - rewrite E. discriminate.
    - now exists init, final. }
  destruct Hlast as (init & final & E).
  split; [rewrite E, length_app; simpl; lia|].
  pose proof (scan_join _ _ _ _ _ _ _ _ _ Hs) as J. cbn [app join] in J.
  split.
  - exists init, final. split; [exact E|].
    rewrite E, join_concat in J. now rewrite J.
  - intros o c -> -> Ho Hc Hu. split.
    + rewrite (scan_length separator o c H Ho Hc Hu _ _ _ _ _ _ Hs).
      simpl. lia.
    + intros [Hbal _] a b z Es [Hb _]. rewrite Es in Hs.
      destruct (scan_group separator o c H Ho Hc Hu _ a b z segs Hs)
        as (pre & x & y & post & Eg & Ea).
      * apply (Hbal a (o :: b ++ c :: z)). exact Es.
      * exact Hb.
      * exists pre, x, y, post. split; [exact Eg|]. split; [exact Ea|].
        rewrite Eg, Es, Ea in J.
        replace (x ++ o :: b ++ c :: y) with ((x ++ o :: b ++ [c]) ++ y) in J
          by (rewrite <- !app_assoc; cbn [app]; now rewrite <- app_assoc).
        rewrite join_middle, join_head_app in J.
        replace ((concat (map (fun s => s ++ separator) pre) ++ x)
                 ++ o :: b ++ c :: z)
          with (concat (map (fun s => s ++ separator) pre)
                ++ (x ++ o :: b ++ [c]) ++ z) in J
          by (rewrite <- !app_assoc; cbn [app]; now rewrite <- app_assoc).
        apply app_inv_head in J. apply app_inv_head in J. now symmetry.
Qed.

Lemma split_outside_delimiters_segments_witness :
  py ", " <> []
  /\ exists segs,
       split_outside_delimiters
         (py "Jean Dupont (Paul, le fils), Marie Curie") (py ", ")
         (py "(") (py ")") = Some segs
       /\ length segs = 2.
Proof.
  split; [discriminate|].
  destruct (split_outside_delimiters_segments
              (py "Jean Dupont (Paul, le fils), Marie Curie") (py ", ")
              (py "(") (py ")")) as (segs & Hs & _ & _ & Hn);
    [discriminate|].
  exists segs. split; [exact Hs|].
  destruct (Hn 40%N 41%N eq_refl eq_refl eq_refl eq_refl eq_refl) as [Hlen _].
  rewrite Hlen. reflexivity.
Defined.

(** A segmentation that cuts a group does not pass: in [(a, b), (a, b)]
    the first group starts the text, and the first segment is the group
    and what follows it up to the separator at level zero. *)
Example split_two_groups :
  split_outside_delimiters (py "(a, b), (a, b)") (py ", ") (py "(") (py ")")
  = Some [py "(a, b)"; py "(a, b)"].
Proof. reflexivity. Qed.

Example split_nested :
  split_outside_delimiters (py "Jean Dupont (Paul, le fils), Marie Curie")
    (py ", ") (py "(") (py ")")
  = Some [py "Jean Dupont (Paul, le fils)"; py "Marie Curie"].
Proof. reflexivity. Qed.

Example split_trailing_separator :
  split_outside_delimiters (py "a, ") (py ", ") (py "(") (py ")")
  = Some [py "a"; py ""].
Proof. reflexivity. Qed.

Example split_unbalanced :
  split_outside_delimiters (py "a), b, (c, d") (py ", ") (py "(") (py ")")
  = Some [py "a), b, (c"; py "d"].
Proof. reflexivity. Qed.

(** ** The error monad *)

Lemma bind_ok {A B : Type} (e : outcome A) (f : A -> outcome B) (b : B) :
  bind e f = Ok b -> exists a, e = Ok a /\ f a = Ok b.
Proof. destruct e as [a|]; simpl; [eauto | discriminate]. Qed.

Ltac bind_inv H :=
  let a := fresh "a" in
  let Ha := fresh "Ha" in
  apply bind_ok in H; destruct H as (a & Ha & H).

Lemma item_ok (data : list str) (i : nat) (v : str) :
  item data i = Ok v -> nth_error data i = Some v /\ nth i data [] = v.
Proof.
  unfold item. destruct (nth_error data i) eqn:E; [|discriminate].
  intros H. injection H as ->. split; [reflexivity|].
  now apply nth_error_nth.
Qed.

(** ** Channel identifiers *)

Lemma telerama_domain_unbordered : unbordered telerama_domain = true.
Proof. reflexivity. Qed.

(** The domain does not start inside a native identifier that does not
    contain it. *)
Lemma domain_not_at (x : str) :
  x <> [] -> ~ contains telerama_domain x ->
  starts_with telerama_domain (x ++ telerama_domain) = false.
Proof.
  intros Hx Hn.
  destruct (starts_with telerama_domain (x ++ telerama_domain)) eqn:S;
    [exfalso|reflexivity].
  apply starts_with_true in S as [r S].
  destruct (Nat.le_gt_cases (length telerama_domain) (length x)) as [L|L].
  - symmetry in S. destruct (app_eq_prefix _ _ _ _ S L) as [q Eq].
    apply Hn. exists [], q. exact Eq.
  - destruct (app_eq_prefix _ _ _ _ S) as [u Eu]; [lia|].
    rewrite Eu in S at 2. rewrite <- app_assoc in S. apply app_inv_head in S.
    assert (Hu : u <> []).
    { intros ->. rewrite app_nil_r in Eu. rewrite <- Eu in L. lia. }
    pose proof (no_overlap telerama_domain telerama_domain_unbordered
                  x u r Eu Hx Hu) as F.
    rewrite <- S in F. rewrite <- (app_nil_r telerama_domain) in F at 2.
    rewrite starts_with_app in F. discriminate.
Qed.

Lemma str_replace_domain (x : str) :
  ~ contains telerama_domain x ->
  str_replace telerama_domain [] (x ++ telerama_domain) = x.
Proof.
  unfold str_replace. induction x as [|a x IH]; intros Hn; [reflexivity|].
  cbn [app replace_go].
  change (a :: x ++ telerama_domain) with ((a :: x) ++ telerama_domain).
  rewrite domain_not_at by (congruence || exact Hn).
  f_equal. apply IH. intros (p & q & E). apply Hn.
  exists (a :: p), q. rewrite E. reflexivity.
Qed.

(** C9 (amended). For a native identifier that does not contain the text of
    the domain suffix, converting to the public identifier and back gives
    the native identifier, and conversely the public identifier of a native
    one survives the trip through the native form. *)
Theorem channel_id_round_trip (channel_id : str) :
  ~ contains telerama_domain channel_id ->
  xmltv_to_telerama_id (telerama_to_xmltv_id channel_id) = channel_id
  /\ telerama_to_xmltv_id
       (xmltv_to_telerama_id (telerama_to_xmltv_id channel_id))
     = telerama_to_xmltv_id channel_id.
Proof.
  intros Hn.
  assert (H : xmltv_to_telerama_id (telerama_to_xmltv_id channel_id) = channel_id)
    by (apply str_replace_domain; exact Hn).
  split; [exact H | now rewrite H].
Qed.

Lemma channel_id_round_trip_witness :
  xmltv_to_telerama_id (telerama_to_xmltv_id (py "192")) = py "192"
  /\ telerama_to_xmltv_id (xmltv_to_telerama_id (telerama_to_xmltv_id (py "192")))
     = telerama_to_xmltv_id (py "192").
Proof.
  apply (channel_id_round_trip (py "192")).
  intros (p & q & E). apply (f_equal (@length char)) in E.
  rewrite !length_app in E. simpl in E. lia.
Defined.

(** [replace] removes the text of the domain wherever it stands. *)
Lemma channel_id_round_trip_counterexample :
  xmltv_to_telerama_id (telerama_to_xmltv_id (py "a.tv.telerama.frb"))
  <> py "a.tv.telerama.frb".
Proof. vm_compute. discriminate. Qed.

(** ** Dates and times *)

Lemma valid_datetime_bounds (d : datetime) :
  valid_datetime d = true ->
  (1 <= year d <= 9999 /\ 1 <= month d <= 12
   /\ 1 <= day d <= days_in_month (year d) (month d)
   /\ 0 <= hour d <= 23 /\ 0 <= minute d <= 59 /\ 0 <= second d <= 59)%Z.
Proof.
  unfold valid_datetime. intros H.
  repeat (apply andb_true_iff in H; destruct H as [H ?]).
  repeat match goal with
         | h : (_ <=? _)%Z = true |- _ => apply Z.leb_le in h
         end.
  lia.
Qed.

Lemma seconds_of_day_bounds (d : datetime) :
  valid_datetime d = true -> (0 <= seconds_of_day d < 86400)%Z.
Proof.
  intros H. apply valid_datetime_bounds in H. unfold seconds_of_day. lia.
Qed.

Lemma days_before_next_month (y m : Z) :
  (1 <= m <= 11)%Z ->
  days_before_month y (m + 1) = (days_before_month y m + days_in_month y m)%Z.
Proof.
  intros H.
  assert (C : (m = 1 \/ m = 2 \/ m = 3 \/ m = 4 \/ m = 5 \/ m = 6 \/ m = 7
               \/ m = 8 \/ m = 9 \/ m = 10 \/ m = 11)%Z) by lia.
  unfold days_before_month, days_in_month.
  repeat (destruct C as [-> | C]); try subst m; simpl;
    destruct (is_leap y); lia.
Qed.

Lemma days_before_next_year (y : Z) :
  (1 <= y)%Z ->
  days_before_year (y + 1)
  = (days_before_year y + days_before_month y 12 + 31)%Z.
Proof.
  intros H.
  assert (M : days_before_month y 12 = (if is_leap y then 335 else 334)%Z).
  { unfold days_before_month. simpl. destruct (is_leap y); lia. }
  rewrite M. unfold days_before_year, is_leap.
  replace (y + 1 - 1)%Z with y by lia.
  destruct (y mod 4 =? 0)%Z eqn:E4; destruct (y mod 100 =? 0)%Z eqn:E100;
    destruct (y mod 400 =? 0)%Z eqn:E400; cbn [andb orb negb];
    rewrite ?Z.eqb_eq, ?Z.eqb_neq in *;
    Z.div_mod_to_equations; lia.
Qed.

(** One day later on the calendar is one more in the ordinal, at the same
    time of the day. *)
Lemma add_one_day_ordinal (d d' : datetime) :
  valid_datetime d = true -> add_one_day d = Ok d' ->
  toordinal d' = (toordinal d + 1)%Z /\ seconds_of_day d' = seconds_of_day d.
Proof.
  intros V H. apply valid_datetime_bounds in V. unfold add_one_day in H.
  destruct (day d <? days_in_month (year d) (month d))%Z eqn:Ed.
  - injection H as <-. unfold toordinal, seconds_of_day. simpl. lia.
  - apply Z.ltb_ge in Ed.
    destruct (month d <? 12)%Z eqn:Em.
    + apply Z.ltb_lt in Em. injection H as <-.
      unfold toordinal, seconds_of_day. simpl.
      rewrite days_before_next_month by lia. lia.
    + apply Z.ltb_ge in Em.
      destruct (year d <? 9999)%Z eqn:Ey; [|discriminate].
      injection H as <-. unfold toordinal, seconds_of_day. simpl.
      assert (Hm : month d = 12%Z) by lia. rewrite Hm in *.
      rewrite days_before_next_year by lia.
      change (days_before_month (year d + 1) 1) with 0%Z.
      change (days_in_month (year d) 12) with 31%Z in *. lia.
Qed.

Lemma strptime_valid (s : str) (d : datetime) :
  strptime s = Ok d -> valid_datetime d = true.
Proof.
  unfold strptime, datetime_new.
  destruct (re_match strptime_re s) as [m|]; [|discriminate].
  destruct (snd m); [|discriminate].
  match goal with |- context [valid_datetime ?v] =>
    destruct (valid_datetime v) eqn:V end; [|discriminate].
  intros H. injection H as <-. exact V.
Qed.

(** ** The aspect ratio *)

(** Without a line for the aspect ratio the record has no [programme]. *)
Lemma programme_without_aspect (france_tz : datetime -> Z) (data : list str)
    (d7 : str) :
  nth_error data 7 = Some d7 -> re_search aspect_re d7 = None ->
  forall p, programme france_tz data <> Ok p.
Proof.
  intros H7 Ha p H. unfold programme in H.
  bind_inv H. bind_inv H. bind_inv H.
  apply item_ok in Ha2 as [Ha2 _]. rewrite H7 in Ha2. injection Ha2 as <-.
  bind_inv H. bind_inv H. bind_inv H. bind_inv H.
  unfold video_xml in Ha5. rewrite Ha in Ha5. discriminate.
Qed.

(** With one, a record of thirteen fields whose times are read has a
    [programme], whatever the other patterns find. *)
Lemma programme_with_aspect (france_tz : datetime -> Z) (data : list str)
    (d7 : str) (times : aware * aware) (m : match_object) :
  13 <= length data ->
  program_times france_tz data = Ok times ->
  nth_error data 7 = Some d7 -> re_search aspect_re d7 = Some m ->
  exists p, programme france_tz data = Ok p.
Proof.
  intros L Ht H7 Ha. unfold programme. rewrite Ht. cbn [bind].
  assert (I : forall i, i < 13 -> exists v, item data i = Ok v).
  { intros i Hi. unfold item.
    destruct (nth_error data i) eqn:E; [eauto|].
    apply nth_error_None in E. lia. }
  destruct (I 0) as [d0 ->]; [lia|]. cbn [bind].
  unfold item at 1. rewrite H7. cbn [bind].
  destruct (I 2) as [d2 ->]; [lia|]. cbn [bind].
  destruct (I 6) as [d6 ->]; [lia|]. cbn [bind].
  destruct (I 5) as [d5 ->]; [lia|]. cbn [bind].
  unfold video_xml. rewrite Ha. cbn [bind].
  destruct (I 8) as [d8 ->]; [lia|]. cbn [bind].
  destruct (I 10) as [d10 ->]; [lia|]. cbn [bind].
  destruct (I 11) as [d11 ->]; [lia|]. cbn [bind].
  eauto.
Qed.

(** C1 (the code fails the claim). A record of thirteen well-formed fields
    whose details block has no [En 16:9] or [En 4:3] line: line 393 reads
    [m.group(1)] on [None], and the run ends with an [AttributeError]
    instead of a document. *)
Theorem missing_aspect_fails :
  write_xmltv_data europe_paris [[sample_no_aspect]] = Err AttributeError.
Proof. reflexivity. Qed.

(** ** The children of a [programme] element *)

Lemma programme_children (france_tz : datetime -> Z) (data : list str)
    (p : element) (log : list str) :
  programme france_tz data = Ok (p, log) ->
  exists times d0 d2 d5 d6 d7 d8 d10 d11,
    program_times france_tz data = Ok times
    /\ nth_error data 0 = Some d0 /\ nth_error data 2 = Some d2
    /\ nth_error data 5 = Some d5 /\ nth_error data 6 = Some d6
    /\ nth_error data 7 = Some d7 /\ nth_error data 8 = Some d8
    /\ nth_error data 10 = Some d10 /\ nth_error data 11 = Some d11
    /\ children p
       = ([text_element s_title [] d2]
          ++ labelled_xml s_sub_title l_sous_titre d7
          ++ desc_xml d6
          ++ credits_xml d7
          ++ labelled_xml s_date l_annee d7
          ++ categories_xml d5 d7
          ++ [empty_element s_icon [(s_src, icon_src (fst times) d0)]]
          ++ episodenum_xml d7)
         ++ (audio_xml d7 ++ previously_shown_xml d7 ++ premiere_xml d7
             ++ subtitles_xml d7 ++ rating_xml d8 ++ starrating_xml d10
             ++ review_xml d11).
Proof.
  unfold programme. intros H.
  bind_inv H. rename a into times, Ha into Ht.
  bind_inv H. rename a into d0, Ha into H0.
  bind_inv H. rename a into d7, Ha into H7.
  bind_inv H. rename a into d2, Ha into H2.
  bind_inv H. rename a into d6, Ha into H6.
  bind_inv H. rename a into d5, Ha into H5.
  bind_inv H. rename a into video, Ha into Hv.
  bind_inv H. rename a into d8, Ha into H8.
  bind_inv H. rename a into d10, Ha into H10.
  bind_inv H. rename a into d11, Ha into H11.
  injection H as <- _.
  apply item_ok in H0 as [H0 _], H2 as [H2 _], H5 as [H5 _], H6 as [H6 _],
    H7 as [H7 _], H8 as [H8 _], H10 as [H10 _], H11 as [H11 _].
  exists times, d0, d2, d5, d6, d7, d8, d10, d11.
  repeat (split; [assumption|]). reflexivity.
Qed.

Lemma filter_labelled (t u label details : str) :
  str_eqb u t = false ->
  filter (has_tag t) (labelled_xml u label details) = [].
Proof.
  intros H. unfold labelled_xml.
  destruct (label_value label details); [|reflexivity].
  unfold has_tag. simpl. now rewrite H.
Qed.

Ltac filter_section f :=
  unfold f, has_tag;
  repeat match goal with
         | |- context [if ?b then _ else _] => destruct b
         | |- context [match ?o with Some _ => _ | None => _ end] => destruct o
         end; reflexivity.

Lemma filter_categories_xml (native details : str) :
  filter (has_tag s_category) (categories_xml native details)
  = categories_xml native details.
Proof.
  unfold categories_xml.
  destruct (str_eqb (fst (translate_categories native)) []);
    destruct (str_eqb native []);
    destruct (label_value l_genre details) as [g|];
    try destruct (str_eqb g native); reflexivity.
Qed.

(** The [category] children of a programme are those of lines 342-358. *)
Lemma programme_categories (france_tz : datetime -> Z) (data : list str)
    (p : element) (log : list str) :
  programme france_tz data = Ok (p, log) ->
  exists d5 d7,
    nth_error data 5 = Some d5 /\ nth_error data 7 = Some d7
    /\ filter (has_tag s_category) (children p) = categories_xml d5 d7.
Proof.
  intros H.
  apply programme_children in H
    as (times & d0 & d2 & d5 & d6 & d7 & d8 & d10 & d11 & _ & _ & _ & H5 & _
        & H7 & _ & _ & _ & ->).
  exists d5, d7. split; [exact H5|]. split; [exact H7|].
  rewrite !filter_app, filter_categories_xml.
  rewrite !filter_labelled by reflexivity.
  replace (filter (has_tag s_category) (desc_xml d6)) with (@nil element)
    by (symmetry; filter_section desc_xml).
  replace (filter (has_tag s_category) (credits_xml d7)) with (@nil element)
    by (symmetry; filter_section credits_xml).
  replace (filter (has_tag s_category) (episodenum_xml d7)) with (@nil element)
    by (symmetry; filter_section episodenum_xml).
  replace (filter (has_tag s_category) (audio_xml d7)) with (@nil element)
    by (symmetry; filter_section audio_xml).
  replace (filter (has_tag s_category) (previously_shown_xml d7))
    with (@nil element) by (symmetry; filter_section previously_shown_xml).
  replace (filter (has_tag s_category) (premiere_xml d7)) with (@nil element)
    by (symmetry; filter_section premiere_xml).
  replace (filter (has_tag s_category) (subtitles_xml d7)) with (@nil element)
    by (symmetry; filter_section subtitles_xml).
  replace (filter (has_tag s_category) (rating_xml d8)) with (@nil element)
    by (symmetry; filter_section rating_xml).
  replace (filter (has_tag s_category) (starrating_xml d10)) with (@nil element)
    by (symmetry; filter_section starrating_xml).
  replace (filter (has_tag s_category) (review_xml d11)) with (@nil element)
    by (symmetry; filter_section review_xml).
  simpl. now rewrite !app_nil_r.
Qed.

(** ** Categories *)

Lemma category_xml_inj (a b : list (str * str)) (x y : str) :
  category_xml a x = category_xml b y -> a = b /\ x = y.
Proof. unfold category_xml, text_element. intros H. now injection H. Qed.

Lemma categories_xml_in (native details : str) (e : element) :
  In e (categories_xml native details)
  <-> (fst (translate_categories native) <> []
       /\ e = category_xml [] (fst (translate_categories native)))
      \/ (native <> [] /\ e = category_xml lang_fr native)
      \/ (exists g, label_value l_genre details = Some g /\ g <> native
                    /\ e = category_xml lang_fr g).
Proof.
  unfold categories_xml. rewrite !in_app_iff.
  destruct (str_eqb (fst (translate_categories native)) []) eqn:T;
    destruct (str_eqb native []) eqn:N;
    destruct (label_value l_genre details) as [g|];
    try destruct (str_eqb g native) eqn:G;
    rewrite ?str_eqb_eq, ?str_eqb_neq in *; simpl; split;
    intros H;
    repeat match goal with
           | h : _ \/ _ |- _ => destruct h
           | h : _ /\ _ |- _ => destruct h
           | h : exists _, _ |- _ => destruct h
           | h : False |- _ => contradiction
           | h : Some _ = Some _ |- _ => injection h as h
           | h : None = Some _ |- _ => discriminate
           end; subst; try contradiction; try congruence; eauto 10.
Qed.

Lemma categories_xml_nodup (native details : str) :
  NoDup (categories_xml native details).
Proof.
  unfold categories_xml.
  destruct (str_eqb (fst (translate_categories native)) []);
    destruct (str_eqb native []);
    destruct (label_value l_genre details) as [g|];
    try destruct (str_eqb g native) eqn:G; simpl;
    repeat constructor; simpl;
    try (intros [E|[E|[]]] || intros [E|[]] || intros []);
    try (apply category_xml_inj in E as [E1 E2]; try discriminate);
    try tauto.
  all: apply str_eqb_neq in G; congruence.
Qed.



(** ** The matcher and what a pattern matches *)

Lemma star_sound (cs : cset) (k : kont) :
  forall s pv cp m,
    star (in_cset cs) k pv s cp = Some m ->
    exists st', Matches (Star cs) (mk_mstate pv s cp) st' /\ k st' = Some m.
Proof.
  induction s as [|x s IH]; intros pv cp m H; cbn [star] in H.
  - eexists. split; [apply M_StarNil | exact H].
  - destruct (in_cset cs x) eqn:E.
    + destruct (star (in_cset cs) k (Some x) s cp) as [m'|] eqn:S.
      * injection H as <-. destruct (IH _ _ _ S) as (st' & M & K).
        exists st'. split; [now apply M_StarCons | exact K].
      * eexists. split; [apply M_StarNil | exact H].
    + eexists. split; [apply M_StarNil | exact H].
Qed.

(** A match found by the matcher is a match of the pattern. *)
Lemma rmatch_sound (r : regex) :
  forall k st m,
    rmatch r k st = Some m ->
    exists st', Matches r st st' /\ k st' = Some m.
Proof.
  induction r as [|cs| | |r1 IH1 r2 IH2|r1 IH1 r2 IH2|cs|n r IH];
    intros k st m H; cbn [rmatch] in H.
  - exists st. split; [constructor | exact H].
  - destruct st as [pv s cp]. cbn [rest caps] in H.
    destruct s as [|x s]; [discriminate|].
    destruct (in_cset cs x) eqn:E; [|discriminate].
    eexists. split; [apply M_One; exact E | exact H].
  - destruct (at_bol (prev st)) eqn:E; [|discriminate].
    exists st. split; [now constructor | exact H].
  - destruct (at_eol (rest st)) eqn:E; [|discriminate].
    exists st. split; [now constructor | exact H].
  - apply IH1 in H as (st1 & M1 & H). apply IH2 in H as (st2 & M2 & H).
    exists st2. split; [econstructor; eassumption | exact H].
  - destruct (rmatch r1 k st) as [m'|] eqn:E.
    + injection H as <-. apply IH1 in E as (st' & M & K).
      exists st'. split; [now apply M_AltL | exact K].
    + apply IH2 in H as (st' & M & K).
      exists st'. split; [now apply M_AltR | exact K].
  - destruct st as [pv s cp]. cbn [prev rest caps] in H.
    now apply star_sound.
  - apply IH in H as (st' & M & K).
    eexists. split; [apply M_Group; exact M | exact K].
Qed.

Lemma star_keeps (p : char -> bool) (k : kont) (s : str) (pv : option char)
    (cp : captures) :
  k (mk_mstate pv s cp) <> None -> star p k pv s cp <> None.
Proof.
  intros K. destruct s as [|x s]; cbn [star]; [exact K|].
  destruct (p x); [|exact K].
  destruct (star p k (Some x) s cp); [discriminate | exact K].
Qed.

(** Where the pattern has a match that the rest of the search accepts, the
    matcher finds a match. *)
Lemma rmatch_complete (r : regex) (st st' : mstate) :
  Matches r st st' ->
  forall k, k st' <> None -> rmatch r k st <> None.
Proof.
  induction 1 as [st|cs x s pv cp E|st E|st E|r1 r2 st st1 st2 _ IH1 _ IH2
                  |r1 r2 st st' _ IH|r1 r2 st st' _ IH|cs st
                  |cs x s pv cp st' E _ IH|n r st st' _ IH];
    intros k K; cbn [rmatch].
  - exact K.
  - cbn [rest caps]. now rewrite E.
  - now rewrite E.
  - now rewrite E.
  - apply IH1. apply IH2. exact K.
  - specialize (IH k K). destruct (rmatch r1 k st); [discriminate | contradiction].
  - destruct (rmatch r1 k st); [discriminate | now apply IH].
  - destruct st as [pv s cp]. cbn [prev rest caps]. now apply star_keeps.
  - cbn [prev rest caps star]. rewrite E.
    specialize (IH k K). cbn [rmatch prev rest caps] in IH.
    destruct (star (in_cset cs) k (Some x) s cp); [discriminate | contradiction].
  - apply IH. exact K.
Qed.

(** *** Reading matches of the parts of a pattern *)

Lemma prev_of_app (pv : option char) (s t : str) :
  prev_of pv (s ++ t) = prev_of (prev_of pv s) t.
Proof. apply fold_left_app. Qed.

Lemma Matches_Seq_inv (r1 r2 : regex) (st st' : mstate) :
  Matches (Seq r1 r2) st st' ->
  exists st1, Matches r1 st st1 /\ Matches r2 st1 st'.
Proof. inversion 1; subst. eauto. Qed.

Lemma Matches_Alt_inv (r1 r2 : regex) (st st' : mstate) :
  Matches (Alt r1 r2) st st' -> Matches r1 st st' \/ Matches r2 st st'.
Proof. inversion 1; subst; auto. Qed.

Lemma Matches_Eps_inv (st st' : mstate) : Matches Eps st st' -> st' = st.
Proof. now inversion 1. Qed.

Lemma Matches_Bol_inv (st st' : mstate) :
  Matches Bol st st' -> st' = st /\ at_bol (prev st) = true.
Proof. inversion 1; subst. auto. Qed.

Lemma Matches_Eol_inv (st st' : mstate) :
  Matches Eol st st' -> st' = st /\ at_eol (rest st) = true.
Proof. inversion 1; subst. auto. Qed.

Lemma Matches_One_inv (cs : cset) (st st' : mstate) :
  Matches (One cs) st st' ->
  exists x, in_cset cs x = true /\ rest st = x :: rest st'
            /\ caps st' = caps st /\ prev st' = Some x.
Proof. inversion 1; subst. exists x. auto. Qed.

Lemma Matches_Group_inv (n : nat) (r : regex) (st st' : mstate) :
  Matches (Group n r) st st' ->
  exists st1,
    Matches r st st1 /\ prev st' = prev st1 /\ rest st' = rest st1
    /\ caps st'
       = (n, firstn (length (rest st) - length (rest st1)) (rest st)) :: caps st1.
Proof.
  inversion 1 as [| | | | | | | | |n' r' st0 st1 M]; subst.
  exists st1. split; [exact M|]. repeat split.
Qed.

Lemma Matches_Star_inv (cs : cset) (st st' : mstate) :
  Matches (Star cs) st st' ->
  exists xs, rest st = xs ++ rest st' /\ all_in cs xs = true
             /\ caps st' = caps st /\ prev st' = prev_of (prev st) xs.
Proof.
  intros H. remember (Star cs) as r eqn:Er.
  induction H; try discriminate; injection Er as ->.
  - exists []. repeat split.
  - destruct (IHMatches eq_refl) as (xs & Hr & Ha & Hc & Hp).
    cbn [rest caps prev] in *.
    exists (x :: xs). cbn [app all_in forallb]. rewrite Hr, H. repeat split; assumption.
Qed.

Lemma Matches_Plus_inv (cs : cset) (st st' : mstate) :
  Matches (Plus cs) st st' ->
  exists xs, xs <> [] /\ rest st = xs ++ rest st' /\ all_in cs xs = true
             /\ caps st' = caps st /\ prev st' = prev_of (prev st) xs.
Proof.
  unfold Plus. intros H.
  apply Matches_Seq_inv in H as (st1 & H1 & H2).
  apply Matches_One_inv in H1 as (x & Hx & Hr & Hc & Hp).
  apply Matches_Star_inv in H2 as (xs & Hr2 & Ha & Hc2 & Hp2).
  exists (x :: xs). split; [discriminate|].
  cbn [app all_in forallb]. rewrite Hr, Hr2, Hx.
  repeat split; try assumption; try congruence.
  rewrite Hp2, Hp. reflexivity.
Qed.

Lemma Matches_Lit_inv (l : str) :
  forall st st',
    Matches (Lit l) st st' ->
    rest st = l ++ rest st' /\ caps st' = caps st
    /\ prev st' = prev_of (prev st) l.
Proof.
  induction l as [|x l IH]; intros st st' H; cbn [Lit] in H.
  - apply Matches_Eps_inv in H as ->. repeat split.
  - apply Matches_Seq_inv in H as (st1 & H1 & H2).
    apply Matches_One_inv in H1 as (y & Hy & Hr & Hc & Hp).
    apply IH in H2 as (Hr2 & Hc2 & Hp2).
    cbn [in_cset] in Hy. apply N.eqb_eq in Hy as ->.
    cbn [app]. rewrite Hr, Hr2. repeat split; try congruence.
    rewrite Hp2, Hp. reflexivity.
Qed.

Lemma Matches_Lit_intro (l : str) :
  forall pv t cp,
    Matches (Lit l) (mk_mstate pv (l ++ t) cp) (mk_mstate (prev_of pv l) t cp).
Proof.
  induction l as [|x l IH]; intros pv t cp; cbn [Lit app].
  - constructor.
  - eapply M_Seq; [apply M_One; apply N.eqb_refl | apply IH].
Qed.

Lemma Matches_Star_intro (cs : cset) (xs : str) :
  forall pv t cp,
    all_in cs xs = true ->
    Matches (Star cs) (mk_mstate pv (xs ++ t) cp)
            (mk_mstate (prev_of pv xs) t cp).
Proof.
  induction xs as [|x xs IH]; intros pv t cp H; cbn [app].
  - constructor.
  - cbn [all_in forallb] in H. apply andb_true_iff in H as [Hx H].
    apply M_StarCons; [exact Hx | now apply IH].
Qed.

Lemma Matches_Plus_intro (cs : cset) (xs : str) (pv : option char) (t : str)
    (cp : captures) :
  xs <> [] -> all_in cs xs = true ->
  Matches (Plus cs) (mk_mstate pv (xs ++ t) cp)
          (mk_mstate (prev_of pv xs) t cp).
Proof.
  intros Hn H. destruct xs as [|x xs]; [congruence|].
  cbn [all_in forallb] in H. apply andb_true_iff in H as [Hx H].
  unfold Plus. cbn [app].
  eapply M_Seq; [apply M_One; exact Hx|].
  change (prev_of pv (x :: xs)) with (prev_of (Some x) xs).
  now apply Matches_Star_intro.
Qed.

Lemma firstn_consumed (xs t : str) :
  firstn (length (xs ++ t) - length t) (xs ++ t) = xs.
Proof.
  rewrite length_app, Nat.add_sub, firstn_app, Nat.sub_diag, firstn_all.
  simpl. apply app_nil_r.
Qed.

(** *** [re.search] *)

(** [re.search] returns the match at the first position that has one. *)
Lemma search_from_spec (r : regex) :
  forall s pv,
    match search_from r pv s with
    | Some m =>
        exists pre post,
          s = pre ++ post /\ try_at r (prev_of pv pre) post = Some m
          /\ forall p q, s = p ++ q -> length p < length pre ->
                         try_at r (prev_of pv p) q = None
    | None => forall p q, s = p ++ q -> try_at r (prev_of pv p) q = None
    end.
Proof.
  induction s as [|x s IH]; intros pv; cbn [search_from].
  - fold (try_at r pv (@nil char)).
    destruct (try_at r pv []) as [m|] eqn:E.
    + exists [], []. repeat split; [exact E|]. intros p q _ L. simpl in L. lia.
    + intros p q H. symmetry in H. apply app_eq_nil in H as [-> ->]. exact E.
  - fold (try_at r pv (x :: s)).
    destruct (try_at r pv (x :: s)) as [m|] eqn:E.
    + exists [], (x :: s). repeat split; [exact E|]. intros p q _ L. simpl in L. lia.
    + specialize (IH (Some x)).
      destruct (search_from r (Some x) s) as [m|].
      * destruct IH as (pre & post & -> & T & F).
        exists (x :: pre), post. repeat split; [exact T|].
        intros p q H L. destruct p as [|y p].
        -- simpl in H. subst q. exact E.
        -- simpl in H. injection H as <- H. apply (F p q H). simpl in L. lia.
      * intros p q H. destruct p as [|y p].
        -- simpl in H. subst q. exact E.
        -- simpl in H. injection H as <- H. apply (IH p q H).
Qed.

(** ** The episode and season patterns *)

Lemma episode_at_here (details pre N : str) (M : option str) :
  episode_at details pre N M
  <-> exists s, details = pre ++ s
                /\ number_here l_episode (prev_of None pre) s N M.
Proof.
  unfold episode_at, number_here, line_start. split.
  - intros (ws1 & ws2 & post & -> & H). eexists. split; [reflexivity|].
    exists ws1, ws2, post. split; [reflexivity | exact H].
  - intros (s & -> & ws1 & ws2 & post & -> & H).
    exists ws1, ws2, post. split; [reflexivity | exact H].
Qed.

Lemma saison_at_here (details pre S : str) :
  saison_at details pre S
  <-> exists s, details = pre ++ s
                /\ number_here l_saison (prev_of None pre) s S None.
Proof.
  unfold saison_at, number_here, line_start. cbn [total_text digits_or_none app].
  split.
  - intros (ws1 & ws2 & post & -> & H1 & H2 & H3 & H4 & H5 & H6).
    eexists. split; [reflexivity|].
    exists ws1, ws2, post. repeat split; assumption.
  - intros (s & -> & ws1 & ws2 & post & -> & H1 & H2 & H3 & H4 & _ & H5 & H6).
    exists ws1, ws2, post. repeat split; assumption.
Qed.

(** What a match of the episode pattern has read, and its groups. *)
Lemma episode_re_sound (pv : option char) (s : str) (m : match_object) :
  try_at episode_re pv s = Some m ->
  exists N M, number_here l_episode pv s N M
              /\ group m 1 = Some N /\ group m 2 = M.
Proof.
  unfold try_at. intros H.
  apply rmatch_sound in H as (st' & Hm & Hacc).
  apply Matches_Group_inv in Hm as (st6 & Hm & _ & Hr' & Hc').
  unfold episode_re in Hm. cbn [Seqs] in Hm.
  apply Matches_Seq_inv in Hm as (st1 & HB & Hm).
  apply Matches_Bol_inv in HB as [-> HB].
  apply Matches_Seq_inv in Hm as (st2 & HL & Hm).
  apply Matches_Lit_inv in HL as (L1 & L2 & _).
  apply Matches_Seq_inv in Hm as (st3 & HS & Hm).
  apply Matches_Star_inv in HS as (ws1 & S1 & S2 & S3 & _).
  apply Matches_Seq_inv in Hm as (st4 & HG & Hm).
  apply Matches_Group_inv in HG as (st4' & HP & _ & G2 & G3).
  apply Matches_Plus_inv in HP as (N & P0 & P1 & P2 & P3 & _).
  apply Matches_Seq_inv in Hm as (st5 & HO & Hm).
  apply Matches_Seq_inv in Hm as (st6' & HS2 & HE).
  apply Matches_Star_inv in HS2 as (ws2 & T1 & T2 & T3 & _).
  apply Matches_Eol_inv in HE as [-> HE].
  cbn [prev rest caps] in *.
  assert (C4 : caps st4 = [(1, N)]).
  { rewrite G3, P1, firstn_consumed, P3, S3, L2. reflexivity. }
  unfold accept in Hacc. injection Hacc as <-.
  unfold group. cbn [fst]. rewrite Hc', T3.
  unfold Opt in HO. apply Matches_Alt_inv in HO as [HO|HO].
  - apply Matches_Seq_inv in HO as (st4a & H1 & H2).
    apply Matches_One_inv in H1 as (x & Hx & O1 & O2 & _).
    cbn [in_cset] in Hx. apply N.eqb_eq in Hx as ->.
    apply Matches_Group_inv in H2 as (st5' & HP2 & _ & Q2 & Q3).
    apply Matches_Plus_inv in HP2 as (M & R0 & R1 & R2 & R3 & _).
    exists N, (Some M). split.
    + exists ws1, ws2, (rest st6').
      split.
      { rewrite L1, S1, P1, <- G2, O1, R1, <- Q2, T1. reflexivity. }
      repeat split; assumption.
    + rewrite Q3, R1, firstn_consumed, R3, O2, C4. split; reflexivity.
  - apply Matches_Eps_inv in HO as ->.
    exists N, None. split.
    + exists ws1, ws2, (rest st6').
      split.
      { rewrite L1, S1, P1, <- G2, T1. reflexivity. }
      repeat split; assumption.
    + rewrite C4. split; reflexivity.
Qed.

Lemma saison_re_sound (pv : option char) (s : str) (m : match_object) :
  try_at saison_re pv s = Some m ->
  exists N M, (number_here l_saison pv s N M /\ M = None)
              /\ group m 1 = Some N /\ group m 2 = M.
Proof.
  unfold try_at. intros H.
  apply rmatch_sound in H as (st' & Hm & Hacc).
  apply Matches_Group_inv in Hm as (st6 & Hm & _ & Hr' & Hc').
  unfold saison_re in Hm. cbn [Seqs] in Hm.
  apply Matches_Seq_inv in Hm as (st1 & HB & Hm).
  apply Matches_Bol_inv in HB as [-> HB].
  apply Matches_Seq_inv in Hm as (st2 & HL & Hm).
  apply Matches_Lit_inv in HL as (L1 & L2 & _).
  apply Matches_Seq_inv in Hm as (st3 & HS & Hm).
  apply Matches_Star_inv in HS as (ws1 & S1 & S2 & S3 & _).
  apply Matches_Seq_inv in Hm as (st4 & HG & Hm).
  apply Matches_Group_inv in HG as (st4' & HP & _ & G2 & G3).
  apply Matches_Plus_inv in HP as (N & P0 & P1 & P2 & P3 & _).
  apply Matches_Seq_inv in Hm as (st6' & HS2 & HE).
  apply Matches_Star_inv in HS2 as (ws2 & T1 & T2 & T3 & _).
  apply Matches_Eol_inv in HE as [-> HE].
  cbn [prev rest caps] in *.
  assert (C4 : caps st4 = [(1, N)]).
  { rewrite G3, P1, firstn_consumed, P3, S3, L2. reflexivity. }
  unfold accept in Hacc. injection Hacc as <-.
  unfold group. cbn [fst]. rewrite Hc', T3, C4.
  exists N, None. split; [split; [|reflexivity] | split; reflexivity].
  exists ws1, ws2, (rest st6'). split.
  { rewrite L1, S1, P1, <- G2, T1. reflexivity. }
  repeat split; assumption.
Qed.

(** Where a line of the episode is, the pattern matches. *)
Lemma episode_re_complete (pv : option char) (s N : str) (M : option str) :
  number_here l_episode pv s N M -> try_at episode_re pv s <> None.
Proof.
  intros (ws1 & ws2 & post & -> & HB & H1 & HN & H2 & HM & H3 & HE).
  unfold try_at.
  destruct M as [m|]; cbn [total_text digits_or_none app] in *;
    (eapply rmatch_complete; [|unfold accept; discriminate]);
    apply M_Group; unfold episode_re; cbn [Seqs];
    (eapply M_Seq; [apply M_Bol; exact HB|]);
    (eapply M_Seq; [apply Matches_Lit_intro|]);
    (eapply M_Seq; [apply Matches_Star_intro; exact H1|]);
    (eapply M_Seq;
       [apply M_Group; apply Matches_Plus_intro; [exact HN | exact H2]|]);
    cbn [prev rest caps]; unfold Opt.
  - eapply M_Seq.
    + apply M_AltL. eapply M_Seq; [apply M_One; reflexivity|].
      apply M_Group. apply Matches_Plus_intro; tauto.
    + cbn [prev rest caps].
      eapply M_Seq; [apply Matches_Star_intro; exact H3|].
      apply M_Eol. exact HE.
  - eapply M_Seq; [apply M_AltR; apply M_Eps|].
    eapply M_Seq; [apply Matches_Star_intro; exact H3|].
    apply M_Eol. exact HE.
Qed.

Lemma saison_re_complete (pv : option char) (s N : str) (M : option str) :
  number_here l_saison pv s N M /\ M = None -> try_at saison_re pv s <> None.
Proof.
  intros [(ws1 & ws2 & post & -> & HB & H1 & HN & H2 & HM & H3 & HE) ->].
  unfold try_at.
  eapply rmatch_complete; [|unfold accept; discriminate].
  apply M_Group. unfold saison_re. cbn [Seqs total_text app].
  eapply M_Seq; [apply M_Bol; exact HB|].
  eapply M_Seq; [apply Matches_Lit_intro|].
  eapply M_Seq; [apply Matches_Star_intro; exact H1|].
  eapply M_Seq; [apply M_Group; apply Matches_Plus_intro; [exact HN | exact H2]|].
  cbn [prev rest caps].
  eapply M_Seq; [apply Matches_Star_intro; exact H3|].
  apply M_Eol. exact HE.
Qed.

(** *** The groups of a match are determined by its position *)

Lemma run_unique (p : char -> bool) (xs : str) :
  forall ys r r',
    xs ++ r = ys ++ r' ->
    forallb p xs = true -> forallb p ys = true ->
    stops p r -> stops p r' ->
    xs = ys /\ r = r'.
Proof.
  induction xs as [|x xs IH]; intros [|y ys] r r' E Hx Hy Sr Sr'; cbn [app] in E.
  - now split.
  - subst r. cbn [stops forallb] in *. apply andb_true_iff in Hy as [Hy _].
    congruence.
  - subst r'. cbn [stops forallb] in *. apply andb_true_iff in Hx as [Hx _].
    congruence.
  - injection E as <- E. cbn [forallb] in *.
    apply andb_true_iff in Hx as [_ Hx]. apply andb_true_iff in Hy as [_ Hy].
    destruct (IH ys r r' E Hx Hy Sr Sr') as [-> ->]. now split.
Qed.

Lemma digit_not_space (x : char) :
  in_cset digit x = true -> is_space x = false.
Proof.
  unfold in_cset, digit, is_space. intros H.
  apply andb_true_iff in H as [H1 H2]. apply N.leb_le in H1, H2.
  repeat rewrite orb_false_iff. repeat split;
    try (apply andb_false_iff; (left; apply N.leb_gt; lia) || (right; apply N.leb_gt; lia));
    apply N.eqb_neq; lia.
Qed.

Lemma stops_space_digits (N r : str) :
  N <> [] -> all_in digit N = true -> stops is_space (N ++ r).
Proof.
  intros Hn H. destruct N as [|x N]; [congruence|].
  cbn [all_in forallb] in H. apply andb_true_iff in H as [H _].
  cbn [app stops]. now apply digit_not_space.
Qed.

Lemma stops_digit_blank (ws post : str) :
  all_in CSpace ws = true -> at_eol post = true ->
  stops (in_cset digit) (ws ++ post).
Proof.
  intros H E. destruct ws as [|x ws]; cbn [app].
  - destruct post as [|y post]; cbn [stops]; [exact I|].
    cbn [at_eol] in E. apply N.eqb_eq in E as ->. reflexivity.
  - cbn [all_in forallb in_cset] in H. apply andb_true_iff in H as [H _].
    cbn [stops]. destruct (in_cset digit x) eqn:D; [|reflexivity].
    apply digit_not_space in D. congruence.
Qed.

Lemma stops_digit_total (M : option str) (ws post : str) :
  all_in CSpace ws = true -> at_eol post = true ->
  stops (in_cset digit) (total_text M ++ ws ++ post).
Proof.
  intros H E. destruct M as [m|]; cbn [total_text app].
  - reflexivity.
  - now apply stops_digit_blank.
Qed.

Lemma blank_not_slash (ws post : str) (t : str) :
  all_in CSpace ws = true -> at_eol post = true ->
  ws ++ post <> 47%N :: t.
Proof.
  intros H E A. destruct ws as [|x ws]; cbn [app] in A.
  - subst post. discriminate.
  - injection A as -> _. cbn [all_in forallb in_cset] in H. discriminate.
Qed.

(** At one position, the number and the total of a numbered line are
    determined. *)
Lemma number_here_unique (label : str) (pv : option char) (s N N' : str)
    (M M' : option str) :
  number_here label pv s N M -> number_here label pv s N' M' ->
  N = N' /\ M = M'.
Proof.
  intros (ws1 & ws2 & post & -> & _ & H1 & HN & H2 & HM & H3 & HE)
         (ws1' & ws2' & post' & E & _ & H1' & HN' & H2' & HM' & H3' & HE').
  apply app_inv_head in E.
  apply run_unique with (p := is_space) in E as [_ E];
    try assumption; try (now apply stops_space_digits).
  apply run_unique with (p := in_cset digit) in E as [<- E];
    try assumption; try (now apply stops_digit_total).
  split; [reflexivity|].
  destruct M as [m|], M' as [m'|]; cbn [total_text app digits_or_none] in *.
  - injection E as E.
    apply run_unique with (p := in_cset digit) in E as [<- _];
      try tauto; try (now apply stops_digit_blank).
  - symmetry in E. now apply blank_not_slash in E.
  - now apply blank_not_slash in E.
  - reflexivity.
Qed.

Lemma app_same_length {A : Type} (a b c d : list A) :
  a ++ b = c ++ d -> length a = length c -> a = c /\ b = d.
Proof.
  revert c; induction a as [|x a IH]; intros [|y c] E L; simpl in L; try lia.
  - now split.
  - simpl in E. injection E as <- E. destruct (IH c E) as [-> ->]; [lia|].
    now split.
Qed.

(** *** The search for a numbered line *)

Section NumberedLine.

Variable r : regex.
Variable label : str.
Variable ok : option str -> Prop.

Hypothesis sound :
  forall pv s m,
    try_at r pv s = Some m ->
    exists N M, (number_here label pv s N M /\ ok M)
                /\ group m 1 = Some N /\ group m 2 = M.

Hypothesis complete :
  forall pv s N M,
    number_here label pv s N M /\ ok M -> try_at r pv s <> None.

(** The search succeeds exactly when some position has a numbered line. *)
Lemma numbered_search_some (details : str) :
  re_search r details <> None
  <-> exists pre s N M,
        details = pre ++ s
        /\ number_here label (prev_of None pre) s N M /\ ok M.
Proof.
  unfold re_search. pose proof (search_from_spec r details None) as S.
  destruct (search_from r None details) as [m|].
  - split; [intros _ | discriminate].
    destruct S as (pre & post & E & T & _).
    apply sound in T as (N & M & [H O] & _).
    exists pre, post, N, M. auto.
  - split; [congruence|].
    intros (pre & s & N & M & E & H & O). exfalso.
    apply (complete (prev_of None pre) s N M (conj H O)). now apply S.
Qed.

(** It returns the numbered line of the first such position. *)
Lemma numbered_search_first (details pre s N : str) (M : option str) :
  details = pre ++ s ->
  number_here label (prev_of None pre) s N M -> ok M ->
  (forall pre' s' N' M',
      details = pre' ++ s' ->
      number_here label (prev_of None pre') s' N' M' -> ok M' ->
      length pre <= length pre') ->
  exists m, re_search r details = Some m
            /\ group m 1 = Some N /\ group m 2 = M.
Proof.
  intros E H O First.
  unfold re_search. pose proof (search_from_spec r details None) as S.
  destruct (search_from r None details) as [m|].
  - destruct S as (pre0 & post0 & E0 & T & Before).
    exists m. split; [reflexivity|].
    apply sound in T as (N0 & M0 & [H0 O0] & G1 & G2).
    pose proof (First pre0 post0 N0 M0 E0 H0 O0) as L.
    destruct (Nat.eq_dec (length pre) (length pre0)) as [Eq|Ne].
    + rewrite E in E0. destruct (app_same_length _ _ _ _ E0 Eq) as [<- <-].
      destruct (number_here_unique _ _ _ _ _ _ _ H H0) as [<- <-].
      now split.
    + exfalso. apply (complete (prev_of None pre) s N M (conj H O)).
      apply Before; [exact E | lia].
  - exfalso. apply (complete (prev_of None pre) s N M (conj H O)). now apply S.
Qed.

End NumberedLine.

Lemma episode_sound_ok (pv : option char) (s : str) (m : match_object) :
  try_at episode_re pv s = Some m ->
  exists N M, (number_here l_episode pv s N M /\ True)
              /\ group m 1 = Some N /\ group m 2 = M.
Proof.
  intros H. apply episode_re_sound in H as (N & M & H & G).
  exists N, M. tauto.
Qed.

Lemma episode_complete_ok (pv : option char) (s N : str) (M : option str) :
  number_here l_episode pv s N M /\ True -> try_at episode_re pv s <> None.
Proof. intros [H _]. now apply episode_re_complete in H. Qed.

Lemma filter_categories_other (t native details : str) :
  str_eqb s_category t = false ->
  filter (has_tag t) (categories_xml native details) = [].
Proof.
  intros H. apply filter_none. intros e He.
  rewrite <- filter_categories_xml in He. apply filter_In in He as [_ He].
  unfold has_tag in *. apply str_eqb_eq in He. now rewrite He.
Qed.

(** The [episode-num] children of a programme are those of lines 368-387. *)
Lemma programme_episode_num (france_tz : datetime -> Z) (data : list str)
    (p : element) (log : list str) (details : str) :
  programme france_tz data = Ok (p, log) ->
  nth_error data 7 = Some details ->
  filter (has_tag s_episode_num) (children p) = episodenum_xml details.
Proof.
  intros H E7.
  apply programme_children in H
    as (times & d0 & d2 & d5 & d6 & d7 & d8 & d10 & d11 & _ & _ & _ & _ & _
        & H7 & _ & _ & _ & ->).
  rewrite H7 in E7. injection E7 as ->.
  rewrite !filter_app.
  rewrite !filter_labelled by reflexivity.
  rewrite filter_categories_other by reflexivity.
  replace (filter (has_tag s_episode_num) (episodenum_xml details))
    with (episodenum_xml details) by (symmetry; filter_section episodenum_xml).
  replace (filter (has_tag s_episode_num) (desc_xml d6)) with (@nil element)
    by (symmetry; filter_section desc_xml).
  replace (filter (has_tag s_episode_num) (credits_xml details))
    with (@nil element) by (symmetry; filter_section credits_xml).
  replace (filter (has_tag s_episode_num) (audio_xml details))
    with (@nil element) by (symmetry; filter_section audio_xml).
  replace (filter (has_tag s_episode_num) (previously_shown_xml details))
    with (@nil element) by (symmetry; filter_section previously_shown_xml).
  replace (filter (has_tag s_episode_num) (premiere_xml details))
    with (@nil element) by (symmetry; filter_section premiere_xml).
  replace (filter (has_tag s_episode_num) (subtitles_xml details))
    with (@nil element) by (symmetry; filter_section subtitles_xml).
  replace (filter (has_tag s_episode_num) (rating_xml d8)) with (@nil element)
    by (symmetry; filter_section rating_xml).
  replace (filter (has_tag s_episode_num) (starrating_xml d10))
    with (@nil element) by (symmetry; filter_section starrating_xml).
  replace (filter (has_tag s_episode_num) (review_xml d11)) with (@nil element)
    by (symmetry; filter_section review_xml).
  simpl. now rewrite !app_nil_r.
Qed.

Lemma episode_data_text (season episode : Z) (M : option str) :
  episode_data season episode M
  = str_of_Z season ++ 46%N :: str_of_Z episode ++ total_text M ++ s_part.
Proof. unfold episode_data. now destruct M. Qed.

Lemma season_of_first (details pre S : str) :
  saison_at details pre S ->
  (forall pre' S', saison_at details pre' S' -> length pre <= length pre') ->
  season_of details = (int_of_digits S - 1)%Z.
Proof.
  intros H First. apply saison_at_here in H as (s & E & H).
  destruct (numbered_search_first saison_re l_saison (fun M => M = None)
              saison_re_sound saison_re_complete details pre s S None E H eq_refl)
    as (m & Hs & G1 & _).
  - intros pre' s' N' M' E' H' ->. apply (First pre' N').
    apply saison_at_here. now exists s'.
  - unfold season_of, group_str. now rewrite Hs, G1.
Qed.

Lemma season_of_none (details : str) :
  (forall pre S, ~ saison_at details pre S) -> season_of details = 0%Z.
Proof.
  intros H. unfold season_of.
  destruct (re_search saison_re details) as [m|] eqn:E; [exfalso|reflexivity].
  assert (N : re_search saison_re details <> None) by congruence.
  apply (numbered_search_some saison_re l_saison (fun M => M = None)
           saison_re_sound saison_re_complete) in N
    as (pre & s & S & M & Ed & Hh & ->).
  apply (H pre S). apply saison_at_here. now exists s.
Qed.


(** A plain line [Episode : N] or [Episode : N/M] is a line of the
    episode. *)
Lemma episode_at_plain_line (pre N post : str) (M : option str) :
  line_start pre = true -> N <> [] -> all_in digit N = true ->
  digits_or_none M -> at_eol post = true ->
  episode_at (pre ++ l_episode ++ 32%N :: N ++ total_text M ++ post) pre N M.
Proof.
  intros HB HN HD HM HE. exists [32%N], [], post.
  split; [reflexivity|]. split; [exact HB|]. split; [reflexivity|].
  split; [exact HN|]. split; [exact HD|]. split; [exact HM|].
  split; [reflexivity | exact HE].
Qed.

(** The lines of the example. *)
Example episode_at_example :
  episode_at (py "Episode : 3/10" ++ newline :: py "Saison : 2") []
    (py "3") (Some (py "10"))
  /\ saison_at (py "Episode : 3/10" ++ newline :: py "Saison : 2")
       (py "Episode : 3/10" ++ [newline]) (py "2").
Proof.
  split.
  - exists [32%N], [], (newline :: py "Saison : 2").
    split; [reflexivity|]. split; [reflexivity|]. split; [reflexivity|].
    split; [discriminate|]. split; [reflexivity|].
    split; [split; [discriminate | reflexivity]|].
    split; reflexivity.
  - exists [32%N], [], [].
    split; [reflexivity|]. split; [reflexivity|]. split; [reflexivity|].
    split; [discriminate|]. split; [reflexivity|]. split; reflexivity.
Qed.

(** ** The order in which the matcher tries *)

Lemma rmatch_Lit (l : str) (k : kont) :
  forall pv t cp,
    rmatch (Lit l) k (mk_mstate pv (l ++ t) cp)
    = k (mk_mstate (prev_of pv l) t cp).
Proof.
  induction l as [|x l IH]; intros pv t cp; cbn [Lit rmatch app]; [reflexivity|].
  cbn [rest caps in_cset]. rewrite N.eqb_refl. apply IH.
Qed.

Lemma rmatch_Lit_fail (l : str) (k : kont) :
  forall pv s cp,
    starts_with l s = false -> rmatch (Lit l) k (mk_mstate pv s cp) = None.
Proof.
  induction l as [|x l IH]; intros pv s cp H.
  - unfold starts_with in H. simpl in H. discriminate.
  - cbn [Lit rmatch rest caps]. destruct s as [|y s]; [reflexivity|].
    cbn [in_cset]. destruct (N.eqb y x) eqn:E; [|reflexivity].
    apply IH. unfold starts_with in *. cbn [length firstn str_eqb] in H.
    rewrite E in H. exact H.
Qed.

(** When no longer run is accepted, the repetition stops where it is. *)
Lemma star_fallback (p : char -> bool) (k : kont) (cp : captures) :
  forall t pv,
    (forall a b, t = a ++ b -> a <> [] -> forallb p a = true ->
                 k (mk_mstate (prev_of pv a) b cp) = None) ->
    star p k pv t cp = k (mk_mstate pv t cp).
Proof.
  induction t as [|x t IH]; intros pv H; cbn [star]; [reflexivity|].
  destruct (p x) eqn:E; [|reflexivity].
  rewrite IH.
  - assert (Hx : k (mk_mstate (Some x) t cp) = None).
    { apply (H [x] t eq_refl); [discriminate|].
      cbn [forallb]. now rewrite E. }
    now rewrite Hx.
  - intros a b Et Ha Hp.
    change (prev_of (Some x) a) with (prev_of pv (x :: a)).
    apply (H (x :: a) b).
    + now rewrite Et.
    + discriminate.
    + cbn [forallb]. now rewrite E, Hp.
Qed.

(** The repetition takes the longest run that the rest of the pattern
    accepts. *)
Lemma star_backtrack (p : char -> bool) (k : kont) (cp : captures)
    (m : match_object) (t : str) :
  forall xs pv,
    forallb p xs = true ->
    k (mk_mstate (prev_of pv xs) t cp) = Some m ->
    (forall a b, t = a ++ b -> a <> [] -> forallb p a = true ->
                 k (mk_mstate (prev_of (prev_of pv xs) a) b cp) = None) ->
    star p k pv (xs ++ t) cp = Some m.
Proof.
  induction xs as [|x xs IH]; intros pv Hp K Long; cbn [app].
  - rewrite star_fallback; [exact K | exact Long].
  - cbn [forallb] in Hp. apply andb_true_iff in Hp as [Hx Hp].
    cbn [star]. rewrite Hx. now rewrite (IH (Some x) Hp K Long).
Qed.

Lemma star_greedy (p : char -> bool) (k : kont) (cp : captures)
    (m : match_object) (t xs : str) (pv : option char) :
  forallb p xs = true -> stops p t ->
  k (mk_mstate (prev_of pv xs) t cp) = Some m ->
  star p k pv (xs ++ t) cp = Some m.
Proof.
  intros Hp St K. apply star_backtrack; [exact Hp | exact K|].
  intros a b -> Ha Hpa. destruct a as [|y a]; [congruence|].
  cbn [app stops forallb] in *. apply andb_true_iff in Hpa as [Hy _]. congruence.
Qed.

(** [re.search] finds the match of a position before which no position has
    one. *)
Lemma search_from_found (r : regex) (s pre post : str) (pv : option char)
    (m : match_object) :
  s = pre ++ post ->
  try_at r (prev_of pv pre) post = Some m ->
  (forall p q, s = p ++ q -> length p < length pre ->
               try_at r (prev_of pv p) q = None) ->
  search_from r pv s = Some m.
Proof.
  intros E T Before. pose proof (search_from_spec r s pv) as S.
  destruct (search_from r pv s) as [m0|].
  - destruct S as (pre0 & post0 & E0 & T0 & Before0).
    destruct (Nat.lt_trichotomy (length pre) (length pre0)) as [L|[L|L]].
    + rewrite (Before0 pre post E L) in T. discriminate.
    + rewrite E in E0. destruct (app_same_length _ _ _ _ E0 L) as [<- <-].
      congruence.
    + rewrite (Before pre0 post0 E0 L) in T0. discriminate.
  - rewrite (S pre post E) in T. discriminate.
Qed.

(** ** The lines [Label : value] *)

Lemma rmatch_Seq (r1 r2 : regex) (k : kont) (st : mstate) :
  rmatch (Seq r1 r2) k st = rmatch r1 (rmatch r2 k) st.
Proof. reflexivity. Qed.

Lemma rmatch_Group (n : nat) (r : regex) (k : kont) (st : mstate) :
  rmatch (Group n r) k st
  = rmatch r
      (fun st' =>
         k (mk_mstate (prev st') (rest st')
              ((n, firstn (length (rest st) - length (rest st')) (rest st))
                 :: caps st')))
      st.
Proof. reflexivity. Qed.

Lemma rmatch_Star (cs : cset) (k : kont) (pv : option char) (s : str)
    (cp : captures) :
  rmatch (Star cs) k (mk_mstate pv s cp) = star (in_cset cs) k pv s cp.
Proof. reflexivity. Qed.

Lemma rmatch_One (cs : cset) (k : kont) (pv : option char) (x : char)
    (s : str) (cp : captures) :
  rmatch (One cs) k (mk_mstate pv (x :: s) cp)
  = if in_cset cs x then k (mk_mstate (Some x) s cp) else None.
Proof. reflexivity. Qed.

Lemma rmatch_Bol (k : kont) (st : mstate) :
  rmatch Bol k st = if at_bol (prev st) then k st else None.
Proof. reflexivity. Qed.

(** The end of a labelled line: blanks and the end of the line, which
    leave the groups as they are. *)
Lemma label_tail (k : kont) (pv : option char) (post : str) (cp : captures) :
  (forall st', exists g, k st' = Some ((0, g) :: caps st', rest st')) ->
  at_eol post = true ->
  exists m g0,
    rmatch (Seq (Star CSpace) Eol) k (mk_mstate pv post cp) = Some m
    /\ fst m = (0, g0) :: cp.
Proof.
  intros Hk HE.
  destruct (rmatch (Seq (Star CSpace) Eol) k (mk_mstate pv post cp)) as [m|] eqn:E.
  - apply rmatch_sound in E as (st' & M & K).
    apply Matches_Seq_inv in M as (st1 & M1 & M2).
    apply Matches_Star_inv in M1 as (ws & _ & _ & C1 & _).
    apply Matches_Eol_inv in M2 as [-> _].
    destruct (Hk st1) as [g Hg]. rewrite Hg in K. injection K as <-.
    exists ((0, g) :: caps st1, rest st1), g. split; [reflexivity|].
    cbn [fst]. now rewrite C1.
  - exfalso. revert E. apply rmatch_complete with (st' := mk_mstate pv post cp).
    + eapply M_Seq; [apply M_StarNil | apply M_Eol; exact HE].
    + destruct (Hk (mk_mstate pv post cp)) as [g ->]. discriminate.
Qed.

Lemma stops_any_eol (post : str) :
  at_eol post = true -> stops (in_cset CAny) post.
Proof.
  destruct post as [|x post]; cbn [at_eol stops in_cset]; [trivial|].
  intros ->. reflexivity.
Qed.

(** One try of a label pattern at the start of a line that holds the label
    and a value. *)
Lemma label_try_line (label : str) (pv : option char) (ws v post : str) :
  at_bol pv = true -> all_in CSpace ws = true ->
  v <> [] -> stops is_space v -> all_in CAny v = true ->
  at_eol post = true ->
  exists m, try_at (label_re label) pv (label ++ ws ++ v ++ post) = Some m
            /\ group m 1 = Some v.
Proof.
  intros HB Hws Hv Sv Av HE.
  destruct v as [|y v']; [congruence|].
  cbn [all_in forallb] in Av. apply andb_true_iff in Av as [Hy Av].
  set (k0 := fun st' : mstate =>
               accept (mk_mstate (prev st') (rest st')
                         ((0, firstn (length (label ++ ws ++ (y :: v') ++ post)
                                      - length (rest st'))
                                     (label ++ ws ++ (y :: v') ++ post))
                            :: caps st'))).
  destruct (label_tail k0 (prev_of (Some y) v') post [(1, y :: v')])
    as (m & g0 & Hm & Hg); [|exact HE|].
  { intros st'. eexists. reflexivity. }
  exists m. split.
  - unfold try_at, label_re. cbn [Seqs].
    rewrite rmatch_Group. cbn [rest]. fold k0.
    rewrite rmatch_Seq, rmatch_Bol. cbn [prev]. rewrite HB.
    rewrite rmatch_Seq, rmatch_Lit.
    rewrite rmatch_Seq, rmatch_Star.
    apply star_greedy; [exact Hws | exact Sv |].
    rewrite rmatch_Seq, rmatch_Group. unfold Plus.
    rewrite rmatch_Seq. cbn [app rest]. rewrite rmatch_One, Hy, rmatch_Star.
    apply star_greedy; [exact Av | now apply stops_any_eol |].
    cbn [prev rest caps].
    change (y :: v' ++ post) with ((y :: v') ++ post).
    rewrite firstn_consumed. exact Hm.
  - unfold group. rewrite Hg. reflexivity.
Qed.

Lemma label_try_fail (label : str) (pv : option char) (s : str) :
  (at_bol pv = true -> starts_with label s = false) ->
  try_at (label_re label) pv s = None.
Proof.
  intros H. unfold try_at, label_re. cbn [Seqs].
  rewrite rmatch_Group, rmatch_Seq, rmatch_Bol. cbn [prev].
  destruct (at_bol pv); [|reflexivity].
  rewrite rmatch_Seq. apply rmatch_Lit_fail. now apply H.
Qed.

(** The value of the first line that starts with the label. *)
Lemma label_value_line (label details pre v : str) :
  label_line label details pre v -> label_value label details = Some v.
Proof.
  intros (ws & post & E & HB & First & Hws & Hv & Sv & Av & HE).
  destruct (label_try_line label (prev_of None pre) ws v post HB Hws Hv Sv Av HE)
    as (m & T & G).
  unfold label_value, re_search.
  rewrite (search_from_found (label_re label) details pre
             (label ++ ws ++ v ++ post) None m E T).
  - unfold group_str. now rewrite G.
  - intros p q Ed L. apply label_try_fail. intros B.
    apply (First p q Ed L B).
Qed.

Lemma label_value_none (label details : str) :
  no_label_line label details -> label_value label details = None.
Proof.
  intros H. unfold label_value, re_search.
  pose proof (search_from_spec (label_re label) details None) as S.
  destruct (search_from (label_re label) None details) as [m|]; [|reflexivity].
  destruct S as (pre & post & E & T & _).
  rewrite label_try_fail in T; [discriminate|].
  intros B. apply (H pre post E B).
Qed.

(** ** The path of line 235 *)

Lemma rmatch_Alt_r (r1 r2 : regex) (k : kont) (st : mstate) :
  rmatch r1 k st = None -> rmatch (Alt r1 r2) k st = rmatch r2 k st.
Proof. intros H. cbn [rmatch]. now rewrite H. Qed.

Lemma rmatch_Alt_l (r1 r2 : regex) (k : kont) (st : mstate) (m : match_object) :
  rmatch r1 k st = Some m -> rmatch (Alt r1 r2) k st = Some m.
Proof. intros H. cbn [rmatch]. now rewrite H. Qed.

Lemma findall_go_skip (r : regex) (tok t : str) :
  forall pv, findall_go r (length tok) pv (tok ++ t)
             = findall_go r 0 (prev_of pv tok) t.
Proof.
  induction tok as [|x tok IH]; intros pv; [reflexivity|].
  cbn [length app findall_go]. apply IH.
Qed.

Lemma findall_go_token (r : regex) (pv : option char) (tok t : str)
    (m : match_object) :
  tok <> [] -> try_at r pv (tok ++ t) = Some m -> group_str m 0 = tok ->
  findall_go r 0 pv (tok ++ t) = m :: findall_go r 0 (prev_of pv tok) t.
Proof.
  intros Hn T G. destruct tok as [|x tok]; [congruence|].
  cbn [app findall_go]. cbn [app] in T. rewrite T, G. f_equal.
  replace (length (x :: tok) - 1) with (length tok) by (cbn [length]; lia).
  change (prev_of pv (x :: tok)) with (prev_of (Some x) tok).
  apply findall_go_skip.
Qed.

Ltac token_here tok t :=
  let E := fresh "E" in
  pose proof (firstn_consumed tok t) as E;
  cbv delta [s_channel s_id] in E; cbn [app] in E;
  unfold try_at; cbn -[Nat.sub length firstn];
  unfold str, char in *; rewrite !E; reflexivity.

Lemma token_channel (pv : option char) (t : str) :
  try_at xpath_tokenizer_re pv (s_channel ++ [91%N] ++ t)
  = Some ([(0, s_channel); (2, s_channel)], [91%N] ++ t).
Proof. token_here s_channel (91%N :: t). Qed.

Lemma token_bracket (pv : option char) (t : str) :
  try_at xpath_tokenizer_re pv ([91%N] ++ t) = Some ([(0, [91%N]); (1, [91%N])], t).
Proof. token_here [91%N] t. Qed.

Lemma token_at (pv : option char) (t : str) :
  try_at xpath_tokenizer_re pv ([64%N] ++ t) = Some ([(0, [64%N]); (1, [64%N])], t).
Proof. token_here [64%N] t. Qed.

Lemma token_id (pv : option char) (t : str) :
  try_at xpath_tokenizer_re pv (s_id ++ [61%N] ++ t)
  = Some ([(0, s_id); (2, s_id)], [61%N] ++ t).
Proof. token_here s_id (61%N :: t). Qed.

Lemma token_equals (pv : option char) (t : str) :
  try_at xpath_tokenizer_re pv ([61%N] ++ t) = Some ([(0, [61%N]); (1, [61%N])], t).
Proof. token_here [61%N] t. Qed.

Lemma token_close_bracket (pv : option char) (t : str) :
  try_at xpath_tokenizer_re pv ([93%N] ++ t) = Some ([(0, [93%N]); (1, [93%N])], t).
Proof. token_here [93%N] t. Qed.

Lemma all_in_none_of (q : char) (v : str) :
  mem q v = false -> all_in (CNoneOf [q] false) v = true.
Proof.
  induction v as [|x v IH]; intros H; [reflexivity|].
  apply mem_false_cons in H as [Hx H].
  cbn [all_in forallb in_cset mem existsb]. rewrite N.eqb_sym, Hx. cbn.
  now apply IH.
Qed.

(** A text between double quotes that holds none is one token. *)
Lemma token_quoted (pv : option char) (v t : str) :
  mem double_quote v = false ->
  try_at xpath_tokenizer_re pv ((double_quote :: v ++ [double_quote]) ++ t)
  = Some ([(0, double_quote :: v ++ [double_quote]);
           (1, double_quote :: v ++ [double_quote])], t).
Proof.
  intros H.
  pose proof (firstn_consumed (double_quote :: v ++ [double_quote]) t) as E.
  unfold try_at. rewrite rmatch_Group. cbn [rest].
  unfold xpath_tokenizer_re. cbn [Alts].
  apply rmatch_Alt_l. rewrite rmatch_Group. cbn [rest].
  unfold token_symbol_re. cbn [Alts].
  rewrite rmatch_Alt_r by reflexivity.
  apply rmatch_Alt_l. unfold quoted_re. cbn [Seqs].
  rewrite rmatch_Seq. cbn [app]. rewrite rmatch_One.
  cbn [in_cset]. rewrite N.eqb_refl.
  rewrite rmatch_Seq, rmatch_Star, <- app_assoc.
  apply star_greedy.
  - now apply all_in_none_of.
  - cbn. reflexivity.
  - cbn [app]. rewrite rmatch_One. cbn [in_cset]. rewrite N.eqb_refl.
    cbn [prev rest caps accept].
    cbn [app] in E. rewrite <- app_assoc in E. cbn [app] in E.
    unfold str, char in *. rewrite E. reflexivity.
Qed.

Lemma xpath_tokens_step (pv : option char) (tok t : str) (m : match_object) :
  tok <> [] -> try_at xpath_tokenizer_re pv (tok ++ t) = Some m ->
  group_str m 0 = tok ->
  map xpath_token (findall_go xpath_tokenizer_re 0 pv (tok ++ t))
  = xpath_token m
    :: map xpath_token (findall_go xpath_tokenizer_re 0 (prev_of pv tok) t).
Proof.
  intros Hn T G. now rewrite (findall_go_token _ _ _ _ _ Hn T G).
Qed.

(** The tokens of the path of line 235, for an identifier without a double
    quote. *)
Lemma channel_path_tokens (channel_id : str) :
  mem double_quote channel_id = false ->
  xpath_tokenizer (channel_path channel_id)
  = [Ok ([], s_channel); Ok ([91%N], []); Ok ([64%N], []); Ok ([], s_id);
     Ok ([61%N], []); Ok (double_quote :: channel_id ++ [double_quote], []);
     Ok ([93%N], [])].
Proof.
  intros H. unfold xpath_tokenizer, findall.
  replace (channel_path channel_id)
    with (s_channel ++ [91%N] ++ [64%N] ++ s_id ++ [61%N]
          ++ (double_quote :: channel_id ++ [double_quote]) ++ [93%N] ++ [])
    by (unfold channel_path; cbn [app]; now rewrite <- app_assoc).
  rewrite (xpath_tokens_step _ s_channel _ _ ltac:(discriminate)
             (token_channel _ _) eq_refl).
  rewrite (xpath_tokens_step _ [91%N] _ _ ltac:(discriminate)
             (token_bracket _ _) eq_refl).
  rewrite (xpath_tokens_step _ [64%N] _ _ ltac:(discriminate)
             (token_at _ _) eq_refl).
  rewrite (xpath_tokens_step _ s_id _ _ ltac:(discriminate)
             (token_id _ _) eq_refl).
  rewrite (xpath_tokens_step _ [61%N] _ _ ltac:(discriminate)
             (token_equals _ _) eq_refl).
  rewrite (xpath_tokens_step _ (double_quote :: channel_id ++ [double_quote])
             _ _ ltac:(discriminate) (token_quoted _ _ _ H) eq_refl).
  rewrite (xpath_tokens_step _ [93%N] _ _ ltac:(discriminate)
             (token_close_bracket _ _) eq_refl).
  reflexivity.
Qed.

Lemma channel_path_compile (channel_id : str) :
  mem double_quote channel_id = false ->
  compile step (xpath_tokenizer (channel_path channel_id))
  = Ok [Some (select_child s_channel);
        Some (select_attribute s_id channel_id false)].
Proof.
  intros H. rewrite (channel_path_tokens channel_id H).
  cbn. now rewrite removelast_last.
Qed.

Lemma last_chars_one (s : str) (x : char) : last_chars 1 (s ++ [x]) = [x].
Proof.
  unfold last_chars. rewrite length_app, Nat.add_sub.
  rewrite skipn_app, skipn_all, Nat.sub_diag. reflexivity.
Qed.

Lemma for_each_test (p : node -> bool) (f : node -> stream) (l : list node)
    (final : option error) :
  (forall n, f n = (if p n then [n] else [], None)) ->
  for_each f l final = (filter p l, final).
Proof.
  intros Hf. induction l as [|n l IH]; [reflexivity|].
  cbn [for_each filter]. rewrite Hf, IH. now destruct (p n).
Qed.

Lemma number_snd {A : Type} (l : list A) :
  forall i, map snd (number i l) = l.
Proof. induction l as [|x l IH]; intros i; cbn; [reflexivity | now rewrite IH]. Qed.

Lemma child_nodes_here (n : node) : map here (child_nodes n) = children (here n).
Proof.
  unfold child_nodes. rewrite map_map. cbn [here]. apply number_snd.
Qed.

Lemma hd_filter_here (p : element -> bool) (l : list node) :
  option_map here (hd_error (filter (fun c => p (here c)) l))
  = find p (map here l).
Proof.
  induction l as [|c l IH]; [reflexivity|].
  cbn [filter map find]. destruct (p (here c)); [reflexivity | exact IH].
Qed.

Lemma filter_twice {A : Type} (p q : A -> bool) (l : list A) :
  filter q (filter p l) = filter (fun x => p x && q x) l.
Proof.
  induction l as [|x l IH]; [reflexivity|].
  cbn [filter]. destruct (p x); cbn [filter andb]; [|exact IH].
  destruct (q x); now rewrite IH.
Qed.

(** For an identifier without a double quote, the path of line 235 is read
    as it is meant: the [channel] children of the element with this [id]. *)
Lemma channel_path_iterfind (nested : element -> str -> outcome (option stream))
    (r : element) (channel_id : str) :
  mem double_quote channel_id = false ->
  iterfind_with nested r (channel_path channel_id)
  = Ok (Some (filter (fun c => is_channel channel_id (here c))
                     (child_nodes (top_node r)), None)).
Proof.
  intros H. unfold iterfind_with.
  assert (S : s_slash_end (channel_path channel_id) = channel_path channel_id).
  { unfold s_slash_end, channel_path.
    change (double_quote :: s_close_bracket) with ([double_quote] ++ [93%N]).
    rewrite app_comm_cons, !app_assoc, last_chars_one. reflexivity. }
  rewrite S.
  assert (F : str_eqb (firstn 1 (channel_path channel_id)) s_slash = false)
    by reflexivity.
  rewrite F.
  pose proof (channel_path_compile channel_id H) as Hc.
  destruct (xpath_tokenizer (channel_path channel_id)) as [|tk tokens] eqn:T.
  - rewrite (channel_path_tokens channel_id H) in T. discriminate.
  - rewrite Hc.
    cbn [bind forallb is_some andb fold_left select fst snd for_each].
    replace (select_one nested (select_child s_channel) (top_node r))
      with (filter (fun c => str_eqb (tag (here c)) s_channel)
                   (child_nodes (top_node r)), @None error) by reflexivity.
    cbn [fst snd]. rewrite app_nil_r.
    rewrite (for_each_test
               (fun c => match get (here c) s_id with
                         | Some v => str_eqb v channel_id
                         | None => false
                         end)).
    + now rewrite filter_twice.
    + intros n. cbn [select_one].
      destruct (get (here n) s_id) as [v|]; [|reflexivity].
      cbn [xorb]. now destruct (str_eqb v channel_id).
Qed.

(** [root.find] then answers the first [channel] child of the root with
    this [id], or [None]. *)
Lemma root_find_plain (r : element) (channel_id : str) :
  mem double_quote channel_id = false ->
  root_find r channel_id = Ok (find_channel r channel_id).
Proof.
  intros H. unfold root_find, etree_find, element_find.
  assert (C : checkpath (channel_path channel_id) = true) by reflexivity.
  rewrite C.
  change (iterfind recursion_limit)
    with (iterfind_with (iterfind (Nat.pred recursion_limit))).
  rewrite (channel_path_iterfind _ r channel_id H). cbn [bind].
  unfold find_channel.
  change (children r) with (children (here (top_node r))).
  rewrite <- (child_nodes_here (top_node r)).
  rewrite <- (hd_filter_here (is_channel channel_id)).
  destruct (filter _ (child_nodes (top_node r))) as [|n l]; reflexivity.
Qed.

(** ** The answers of [Element.find] on sample paths *)

(** The steps of a path: a name, [*], [.], [..] and [//]. *)
Example library_steps :
  map (fun path => find_place sample_tree (py path))
      [ "channel";
        "title";
        "*";
        "./channel";
        "channel/display-name";
        "programme/credits/actor";
        "*/title";
        ".//actor";
        "programme//actor";
        ".//*";
        ".//actor/..";
        ".//actor/../..";
        "channel/..";
        "..";
        ".";
        "channel/";
        "channel//" ]%string
  = [ Ok (Some [0]);
      Ok None;
      Ok (Some [0]);
      Ok (Some [0]);
      Ok (Some [0; 0]);
      Ok (Some [3; 1; 0]);
      Ok (Some [2; 0]);
      Ok (Some [3; 1; 0]);
      Ok (Some [3; 1; 0]);
      Ok (Some [0]);
      Ok (Some [3; 1]);
      Ok (Some [3]);
      Ok (Some []);
      Ok None;
      Ok (Some []);
      Ok (Some [0; 0]);
      Ok (Some [0; 0]) ].
Proof. vm_compute. reflexivity. Qed.

(** The predicates on an attribute. *)
Example library_attributes :
  map (fun path => find_place sample_tree (py path))
      [ "channel[@id]";
        "programme[@showview]";
        "channel[@id='1.tv.telerama.fr']";
        "channel[@id!='2.tv.telerama.fr']";
        "programme[@showview='123']/title";
        ".//category[@lang='fr']";
        ".//category[@lang!='fr']";
        "channel[@id='1.tv.telerama.fr'][@id='2.tv.telerama.fr']";
        "channel[ @id ]" ]%string
  = [ Ok (Some [0]);
      Ok (Some [3]);
      Ok (Some [1]);
      Ok (Some [1]);
      Ok (Some [3; 0]);
      Ok (Some [2; 2]);
      Ok None;
      Ok None;
      Ok (Some [0]) ].
Proof. vm_compute. reflexivity. Qed.

(** The predicates on a child and on the text. *)
Example library_children :
  map (fun path => find_place sample_tree (py path))
      [ "programme[credits]";
        "programme[title]";
        "programme[actor]";
        "programme[title='Le film']";
        "programme[title!='Journal']";
        "programme[category='Journal']";
        "programme[category!='News']";
        ".//actor[.='Marie Curie']";
        ".//actor[.!='Jean Dupont']";
        "programme[credits='Jean DupontMarie Curie']";
        "*[.='TF1']" ]%string
  = [ Ok (Some [3]);
      Ok (Some [2]);
      Ok None;
      Ok (Some [3]);
      Ok (Some [3]);
      Ok (Some [2]);
      Ok (Some [2]);
      Ok (Some [3; 1; 1]);
      Ok (Some [3; 1; 1]);
      Ok (Some [3]);
      Ok (Some [1]) ].
Proof. vm_compute. reflexivity. Qed.

(** The predicates on the position among the siblings of the same tag; a
    position may be written with the decimal digits of any script. *)
Example library_positions :
  map (fun path => find_place sample_tree (py path))
      [ "programme[1]";
        "programme[2]";
        "programme[3]";
        "channel[last()]";
        "programme[last()-1]";
        "*[1]";
        "*[3]";
        ".//category[2]";
        ".//actor[last()]";
        "channel[@id='1.tv.telerama.fr'][1]";
        "channel[@id='1.tv.telerama.fr'][2]";
        "programme[١]";
        "programme[last()-١]";
        "programme[last()-1_0]";
        "programme[+1]";
        "programme[-1]" ]%string
  = [ Ok (Some [2]);
      Ok (Some [3]);
      Ok None;
      Ok (Some [1]);
      Ok (Some [2]);
      Ok (Some [0]);
      Ok None;
      Ok (Some [2; 2]);
      Ok (Some [3; 1; 1]);
      Ok None;
      Ok (Some [1]);
      Ok (Some [2]);
      Ok (Some [2]);
      Ok None;
      Ok None;
      Err SyntaxError ].
Proof. vm_compute. reflexivity. Qed.

(** The names with a namespace in braces. *)
Example library_wildcards :
  map (fun path => find_place sample_tree (py path))
      [ "{}channel";
        "{*}programme";
        "{*}*";
        "{}*";
        ".//{*}actor";
        "{ns}*";
        ".//{}actor" ]%string
  = [ Ok (Some [0]);
      Ok (Some [2]);
      Ok (Some [0]);
      Ok (Some [0]);
      Ok (Some [3; 1; 0]);
      Ok None;
      Ok (Some [3; 1; 0]) ].
Proof. vm_compute. reflexivity. Qed.

(** The paths that do not compile, and the texts without a path character, which are compared with the tags as they are. *)
Example library_errors :
  map (fun path => find_place sample_tree (py path))
      [ "/channel";
        "channel[";
        "channel[]";
        "channel[@id=]";
        "channel[0]";
        "channel[last()-0]";
        "channel[first()]";
        "channel[@id='1' x]";
        "channel['x']";
        "channel@id";
        "channel [@id]";
        "channel]";
        "channel=";
        "xml:channel";
        "!" ]%string
  = [ Err SyntaxError;
      Err TypeError;
      Err SyntaxError;
      Err SyntaxError;
      Err SyntaxError;
      Err SyntaxError;
      Err SyntaxError;
      Err SyntaxError;
      Err SyntaxError;
      Err KeyError;
      Ok None;
      Ok None;
      Ok None;
      Ok None;
      Ok None ].
Proof. vm_compute. reflexivity. Qed.

(** ** The document: channels and programmes *)

Section Document.

Variable france_tz : datetime -> Z.

Lemma programme_tag (data : list str) (p : element) (log : list str) :
  programme france_tz data = Ok (p, log) -> tag p = s_programme.
Proof.
  unfold programme. intros H.
  repeat bind_inv H. injection H as <- _. reflexivity.
Qed.

Lemma is_channel_channel_of (channel_id : str) (ch : str * str) :
  is_channel channel_id (channel_of ch) = str_eqb (fst ch) channel_id.
Proof. reflexivity. Qed.

Lemma is_channel_programme (channel_id : str) (p : element) :
  tag p = s_programme -> is_channel channel_id p = false.
Proof. unfold is_channel. intros ->. reflexivity. Qed.

Lemma find_app_none {A : Type} (f : A -> bool) (l1 l2 : list A) :
  find f (l1 ++ l2) = None <-> find f l1 = None /\ find f l2 = None.
Proof.
  induction l1 as [|a l1 IH]; simpl.
  - tauto.
  - destruct (f a); [split; [discriminate | intros [? _]; discriminate] | exact IH].
Qed.

Lemma find_programmes (channel_id : str) (ps : list element) :
  Forall (fun p => tag p = s_programme) ps ->
  find (is_channel channel_id) ps = None.
Proof.
  induction 1 as [|p ps Hp _ IH]; [reflexivity|].
  simpl. now rewrite is_channel_programme.
Qed.

Lemma find_channels (channel_id : str) (seen : list (str * str)) :
  find (is_channel channel_id) (map channel_of seen) = None
  <-> declared channel_id seen = false.
Proof.
  induction seen as [|ch seen IH]; simpl; [tauto|].
  rewrite is_channel_channel_of.
  destruct (str_eqb (fst ch) channel_id); simpl; [split; discriminate | exact IH].
Qed.

Lemma find_rev_none {A : Type} (f : A -> bool) (l : list A) :
  find f (rev l) = None <-> find f l = None.
Proof.
  induction l as [|a l IH]; simpl; [tauto|].
  rewrite find_app_none, IH. simpl.
  destruct (f a); [split; [intros [_ ?] | intros ?]; discriminate | tauto].
Qed.

(** [root.find] answers [None] exactly for the identifiers not declared. *)
Lemma find_channel_declared (r : element) (channel_id : str)
    (seen : list (str * str)) (ps : list element) :
  children r = rev (map channel_of seen) ++ ps ->
  Forall (fun p => tag p = s_programme) ps ->
  (find_channel r channel_id = None <-> declared channel_id seen = false).
Proof.
  intros Hc Hp. unfold find_channel. rewrite Hc, find_app_none, find_rev_none.
  rewrite find_channels. pose proof (find_programmes channel_id ps Hp). tauto.
Qed.

Lemma children_insert0 (r e : element) : children (insert0 r e) = e :: children r.
Proof. now destruct r. Qed.

Lemma children_append (r e : element) : children (append r e) = children r ++ [e].
Proof. now destruct r. Qed.

Lemma mem_quote_channel_id (d0 : str) :
  mem double_quote (telerama_to_xmltv_id d0) = mem double_quote d0.
Proof.
  unfold telerama_to_xmltv_id, mem. rewrite existsb_app.
  change (existsb (N.eqb double_quote) telerama_domain) with false.
  apply orb_false_r.
Qed.

(** Lines 233-240 either leave the root as it is or put the declaration of
    the channel of the record in front of its children. *)
Lemma add_channel_cases (r r' : element) (data : list str) :
  add_channel r data = Ok r' ->
  r' = r \/ r' = insert0 r (channel_of (record_channel data)).
Proof.
  intros H. unfold add_channel in H.
  bind_inv H. rename a into d0, Ha into H0. apply item_ok in H0 as [_ H0].
  bind_inv H. rename a into found, Ha into Hf.
  destruct found as [found|].
  - injection H as <-. now left.
  - bind_inv H. rename a into d1, Ha into H1. apply item_ok in H1 as [_ H1].
    injection H as <-. right. unfold record_channel. now rewrite H0, H1.
Qed.

(** Lines 233-240 on a root made of channels and programmes, for an
    identifier without a double quote. *)
Lemma add_channel_children (r r' : element) (data : list str)
    (seen : list (str * str)) (ps : list element) :
  add_channel r data = Ok r' ->
  unquoted data ->
  children r = rev (map channel_of seen) ++ ps ->
  Forall (fun p => tag p = s_programme) ps ->
  children r'
  = rev (map channel_of
           (if declared (fst (record_channel data)) seen then seen
            else seen ++ [record_channel data])) ++ ps.
Proof.
  intros H Hq Hc Hp. unfold add_channel in H. bind_inv H.
  apply item_ok in Ha as [_ H0].
  unfold record_channel. cbn [fst]. rewrite H0.
  pose proof (find_channel_declared r (telerama_to_xmltv_id a) seen ps Hc Hp) as F.
  bind_inv H.
  rewrite root_find_plain in Ha
    by (rewrite mem_quote_channel_id, <- H0; exact Hq).
  injection Ha as <-.
  destruct (find_channel r (telerama_to_xmltv_id a)) eqn:E.
  - injection H as <-.
    destruct (declared (telerama_to_xmltv_id a) seen); [exact Hc|].
    destruct F as [_ F]. specialize (F eq_refl). discriminate.
  - bind_inv H. apply item_ok in Ha as [_ H1]. injection H as <-.
    destruct F as [F _]. rewrite (F eq_refl).
    rewrite children_insert0, Hc, map_app, rev_app_distr, H1. reflexivity.
Qed.

(** The shape of the document after the loop, whatever the identifiers: the
    declarations of the channels of some of the records, the last record
    first, then the programmes of all the records, in the order of the
    records. *)
Lemma process_records_shape (records : list (list str)) :
  forall (st st' : grab_state) (cs ps : list element),
  process_records france_tz st records = Ok st' ->
  children (root st) = cs ++ ps ->
  exists declaring ps',
    subsequence declaring records
    /\ children (root st')
       = rev (map (fun data => channel_of (record_channel data)) declaring)
         ++ cs ++ ps ++ ps'
    /\ Forall2 (fun data p => exists log, programme france_tz data = Ok (p, log))
               records ps'.
Proof.
  induction records as [|data records IH]; intros st st' cs ps H Hc.
  - injection H as <-. exists [], []. rewrite app_nil_r.
    split; [constructor|]. split; [exact Hc | constructor].
  - cbn [process_records] in H. bind_inv H.
    unfold process_record in Ha. bind_inv Ha. bind_inv Ha.
    injection Ha as <-. destruct a1 as [p log].
    destruct (add_channel_cases _ _ _ Ha0) as [->| ->].
    + destruct (IH _ _ cs (ps ++ [p]) H) as (declaring & ps' & S & E & F).
      * cbn [root fst]. now rewrite children_append, Hc, <- app_assoc.
      * exists declaring, (p :: ps'). split; [now constructor|].
        rewrite E, <- app_assoc. split; [reflexivity|].
        constructor; [now exists log | exact F].
    + destruct (IH _ _ (channel_of (record_channel data) :: cs) (ps ++ [p]) H)
        as (declaring & ps' & S & E & F).
      * cbn [root fst]. rewrite children_append, children_insert0, Hc.
        cbn [app]. now rewrite <- app_assoc.
      * exists (data :: declaring), (p :: ps'). split; [now constructor|].
        rewrite E. cbn [map rev]. rewrite <- !app_assoc. cbn [app].
        split; [reflexivity|].
        constructor; [now exists log | exact F].
Qed.

Lemma write_xmltv_data_shape (telerama_programs : list (list str))
    (st : grab_state) :
  write_xmltv_data france_tz telerama_programs = Ok st ->
  exists declaring ps,
    subsequence declaring (map fields (concat telerama_programs))
    /\ children (root st)
       = rev (map (fun data => channel_of (record_channel data)) declaring) ++ ps
    /\ Forall2 (fun data p => exists log, programme france_tz data = Ok (p, log))
               (map fields (concat telerama_programs)) ps.
Proof.
  intros H. unfold write_xmltv_data in H.
  apply (process_records_shape _ _ _ [] []) in H; [exact H | reflexivity].
Qed.

(** The shape of the document after the loop, for identifiers without a
    double quote: the channels in the reverse of the order of their first
    appearance, then the programmes of the records, in the order of the
    records. *)
Lemma process_records_children (records : list (list str)) :
  forall (st st' : grab_state) (seen : list (str * str)) (ps : list element),
  process_records france_tz st records = Ok st' ->
  Forall unquoted records ->
  children (root st) = rev (map channel_of seen) ++ ps ->
  Forall (fun p => tag p = s_programme) ps ->
  exists ps',
    children (root st')
    = rev (map channel_of (first_seen seen records)) ++ ps ++ ps'
    /\ Forall2 (fun data p => exists log, programme france_tz data = Ok (p, log))
               records ps'.
Proof.
  induction records as [|data records IH]; intros st st' seen ps H Hq Hc Hp.
  - injection H as <-. exists []. rewrite app_nil_r. split; [exact Hc | constructor].
  - cbn [process_records] in H. bind_inv H.
    unfold process_record in Ha. bind_inv Ha. bind_inv Ha.
    injection Ha as <-. destruct a1 as [p log].
    apply Forall_cons_iff in Hq as [Hq1 Hq].
    pose proof (add_channel_children _ _ _ seen ps Ha0 Hq1 Hc Hp) as Hc1.
    cbn [first_seen].
    assert (Hp1 : Forall (fun p => tag p = s_programme) (ps ++ [p])).
    { apply Forall_app. split; [exact Hp|]. constructor; [|constructor].
      apply (programme_tag data p log Ha1). }
    destruct (declared (fst (record_channel data)) seen).
    + destruct (IH _ _ seen (ps ++ [p]) H Hq) as (ps' & E & F); [|exact Hp1|].
      * cbn [root fst]. now rewrite children_append, Hc1, <- app_assoc.
      * exists (p :: ps'). rewrite E, <- app_assoc. split; [reflexivity|].
        constructor; [now exists log | exact F].
    + destruct (IH _ _ (seen ++ [record_channel data]) (ps ++ [p]) H Hq)
        as (ps' & E & F); [|exact Hp1|].
      * cbn [root fst]. now rewrite children_append, Hc1, <- app_assoc.
      * exists (p :: ps'). rewrite E, <- app_assoc. split; [reflexivity|].
        constructor; [now exists log | exact F].
Qed.

Lemma write_xmltv_data_children (telerama_programs : list (list str))
    (st : grab_state) :
  write_xmltv_data france_tz telerama_programs = Ok st ->
  Forall unquoted (map fields (concat telerama_programs)) ->
  exists ps,
    children (root st)
    = rev (map channel_of
             (first_seen_channels (map fields (concat telerama_programs))))
      ++ ps
    /\ Forall2 (fun data p => exists log, programme france_tz data = Ok (p, log))
               (map fields (concat telerama_programs)) ps.
Proof.
  intros H Hq. unfold write_xmltv_data in H.
  apply (process_records_children _ _ _ [] []) in H;
    [exact H | exact Hq | reflexivity | constructor].
Qed.

End Document.

(** ** First appearances *)

Lemma declared_false (channel_id : str) (seen : list (str * str)) :
  declared channel_id seen = false <-> ~ In channel_id (map fst seen).
Proof.
  induction seen as [|ch seen IH]; simpl; [tauto|].
  rewrite orb_false_iff, IH, str_eqb_neq. tauto.
Qed.

Lemma declared_app (channel_id : str) (seen more : list (str * str)) :
  declared channel_id (seen ++ more)
  = declared channel_id seen || declared channel_id more.
Proof. apply existsb_app. Qed.

Lemma first_seen_extends (records : list (list str)) (seen : list (str * str)) :
  exists more, first_seen seen records = seen ++ more.
Proof.
  revert seen; induction records as [|data records IH]; intros seen;
    cbn [first_seen].
  - exists []. now rewrite app_nil_r.
  - destruct (declared (fst (record_channel data)) seen); [apply IH|].
    destruct (IH (seen ++ [record_channel data])) as [more ->].
    exists (record_channel data :: more). now rewrite <- app_assoc.
Qed.

Lemma first_seen_nodup (records : list (list str)) (seen : list (str * str)) :
  NoDup (map fst seen) -> NoDup (map fst (first_seen seen records)).
Proof.
  revert seen; induction records as [|data records IH]; intros seen H;
    cbn [first_seen]; [exact H|].
  destruct (declared (fst (record_channel data)) seen) eqn:D; [now apply IH|].
  apply IH. rewrite map_app. simpl.
  apply declared_false in D.
  apply NoDup_app; [exact H | repeat constructor; simpl; tauto |].
  intros x Hx [<-|[]]. contradiction.
Qed.

(** The first record of a channel is the one that declares it. *)
Lemma first_seen_first (r1 : list (list str)) (data : list str)
    (r2 : list (list str)) (seen : list (str * str)) :
  (forall d, In d r1 -> fst (record_channel d) <> fst (record_channel data)) ->
  declared (fst (record_channel data)) seen = false ->
  In (record_channel data) (first_seen seen (r1 ++ data :: r2)).
Proof.
  revert seen; induction r1 as [|d r1 IH]; intros seen H D; cbn [app first_seen].
  - rewrite D.
    destruct (first_seen_extends r2 (seen ++ [record_channel data])) as [more ->].
    rewrite !in_app_iff. simpl. tauto.
  - assert (H' : forall d0, In d0 r1 ->
                 fst (record_channel d0) <> fst (record_channel data))
      by (intros d0 Hd; apply H; now right).
    destruct (declared (fst (record_channel d)) seen); [now apply IH|].
    apply IH; [exact H'|].
    rewrite declared_app, D. simpl. rewrite orb_false_r.
    apply str_eqb_neq. apply H. now left.
Qed.

Lemma filter_unique_key (channel_id : str) (seen : list (str * str))
    (ch : str * str) :
  NoDup (map fst seen) -> In ch seen -> fst ch = channel_id ->
  filter (fun c => str_eqb (fst c) channel_id) seen = [ch].
Proof.
  intros N I <-. induction seen as [|c seen IH]; [contradiction|].
  simpl in N. apply NoDup_cons_iff in N as [N1 N2]. simpl.
  destruct I as [->|I].
  - rewrite str_eqb_refl. f_equal.
    apply filter_none. intros c Hc. apply str_eqb_neq. intros E.
    apply N1. rewrite <- E. now apply in_map.
  - destruct (str_eqb (fst c) (fst ch)) eqn:E; [|now apply IH].
    apply str_eqb_eq in E. exfalso. apply N1. rewrite E. now apply in_map.
Qed.

Lemma filter_key_length (channel_id : str) (seen : list (str * str)) :
  NoDup (map fst seen) ->
  length (filter (fun c => str_eqb (fst c) channel_id) seen) <= 1.
Proof.
  intros N.
  destruct (filter (fun c => str_eqb (fst c) channel_id) seen) as [|ch l] eqn:E;
    [simpl; lia|].
  assert (I : In ch (filter (fun c => str_eqb (fst c) channel_id) seen))
    by (rewrite E; now left).
  apply filter_In in I as [I K]. apply str_eqb_eq in K.
  rewrite (filter_unique_key channel_id seen ch N I K) in E.
  injection E as El. rewrite <- El. simpl. lia.
Qed.

Lemma filter_channels (channel_id : str) (seen : list (str * str))
    (ps : list element) :
  Forall (fun p => tag p = s_programme) ps ->
  filter (is_channel channel_id) (rev (map channel_of seen) ++ ps)
  = rev (map channel_of (filter (fun c => str_eqb (fst c) channel_id) seen)).
Proof.
  intros Hp. rewrite filter_app.
  assert (Hps : filter (is_channel channel_id) ps = []).
  { induction Hp as [|p ps Hp _ IH]; [reflexivity|].
    simpl. now rewrite is_channel_programme. }
  rewrite Hps, app_nil_r. clear.
  induction seen as [|c seen IH]; [reflexivity|].
  simpl. rewrite filter_app, IH. simpl. rewrite is_channel_channel_of.
  destruct (str_eqb (fst c) channel_id); simpl; [reflexivity|].
  now rewrite app_nil_r.
Qed.

Lemma find_filter {A : Type} (f : A -> bool) (l : list A) :
  find f l = hd_error (filter f l).
Proof.
  induction l as [|a l IH]; [reflexivity|].
  simpl. destruct (f a); [reflexivity | exact IH].
Qed.

(** Adding the channel of a record twice adds it once, for an identifier
    without a double quote. *)
Lemma add_channel_idempotent (r r' : element) (data data' : list str) :
  add_channel r data = Ok r' ->
  unquoted data ->
  nth_error data' 0 = nth_error data 0 ->
  add_channel r' data' = Ok r'.
Proof.
  unfold add_channel, item. intros H Hq E. rewrite E.
  destruct (nth_error data 0) as [d0|] eqn:E0; [|discriminate].
  cbn [bind] in *.
  assert (Q : mem double_quote (telerama_to_xmltv_id d0) = false).
  { rewrite mem_quote_channel_id. unfold unquoted in Hq.
    now rewrite (nth_error_nth _ _ _ E0) in Hq. }
  rewrite (root_find_plain r _ Q) in H. rewrite (root_find_plain r' _ Q).
  cbn [bind] in *.
  destruct (find_channel r (telerama_to_xmltv_id d0)) eqn:F.
  - injection H as <-. now rewrite F.
  - destruct (nth_error data 1) as [d1|]; [|discriminate]. cbn [bind] in H.
    injection H as <-.
    unfold find_channel. rewrite children_insert0. cbn [find].
    unfold channel_element at 1. unfold is_channel at 1. cbn.
    rewrite str_eqb_refl. reflexivity.
Qed.

Lemma channel_of_tag (seen : list (str * str)) :
  Forall (fun e => tag e = s_channel) (rev (map channel_of seen)).
Proof.
  apply Forall_forall. intros e He. apply in_rev, in_map_iff in He.
  destruct He as (ch & <- & _). reflexivity.
Qed.

Lemma programmes_tag (france_tz : datetime -> Z) (records : list (list str))
    (ps : list element) :
  Forall2 (fun data p => exists log, programme france_tz data = Ok (p, log))
          records ps ->
  Forall (fun e => tag e = s_programme) ps.
Proof.
  induction 1 as [|data p records ps [log Hp] _ IH]; constructor.
  - apply (programme_tag france_tz data p log Hp).
  - exact IH.
Qed.

(** The records have one list of programmes. *)
Lemma programmes_functional (france_tz : datetime -> Z)
    (records : list (list str)) (ps : list element) :
  Forall2 (fun data p => exists log, programme france_tz data = Ok (p, log))
          records ps ->
  forall ps',
    Forall2 (fun data p => exists log, programme france_tz data = Ok (p, log))
            records ps' ->
    ps = ps'.
Proof.
  induction 1 as [|data p records ps [log Hp] _ IH]; intros ps' F;
    inversion F as [|data' p' records' ps'' [log' Hp'] F' E1 E2]; subst;
    [reflexivity|].
  rewrite Hp in Hp'. injection Hp' as <- _. f_equal. now apply IH.
Qed.

(** C7 (amended). In the document, every [channel] element precedes every
    [programme] element; the [programme] elements are those of the records,
    in the order of the records; the [channel] elements are the declarations
    of the channels of some of the records, in the reverse of the order of
    these records, a channel declared later coming first.  When no
    identifier holds a double quote, the channels declared are those of the
    records in which an identifier appears for the first time: the
    [channel] elements are in the reverse of the order in which the
    identifiers first appear. *)
Theorem document_order (france_tz : datetime -> Z)
    (telerama_programs : list (list str)) (st : grab_state) :
  write_xmltv_data france_tz telerama_programs = Ok st ->
  exists channels programmes declaring,
    children (root st) = channels ++ programmes
    /\ Forall (fun e => tag e = s_channel) channels
    /\ Forall (fun e => tag e = s_programme) programmes
    /\ Forall2 (fun data p => exists log, programme france_tz data = Ok (p, log))
               (map fields (concat telerama_programs)) programmes
    /\ subsequence declaring (map fields (concat telerama_programs))
    /\ channels
       = rev (map (fun data => channel_of (record_channel data)) declaring)
    /\ (Forall unquoted (map fields (concat telerama_programs)) ->
        channels
        = rev (map channel_of
                 (first_seen_channels
                    (map fields (concat telerama_programs))))).
Proof.
  intros H.
  destruct (write_xmltv_data_shape france_tz _ _ H) as (declaring & ps & S & Hc & F).
  exists (rev (map (fun data => channel_of (record_channel data)) declaring)),
    ps, declaring.
  split; [exact Hc|]. split.
  { apply Forall_forall. intros e He. apply in_rev, in_map_iff in He.
    destruct He as (data & <- & _). reflexivity. }
  split; [exact (programmes_tag france_tz _ _ F)|].
  split; [exact F|]. split; [exact S|]. split; [reflexivity|].
  intros Hq.
  destruct (write_xmltv_data_children france_tz _ _ H Hq) as (ps' & Hc' & F').
  rewrite (programmes_functional france_tz _ _ F' _ F) in Hc'.
  rewrite Hc in Hc'. now apply app_inv_tail in Hc'.
Qed.

Lemma sample_feed_unquoted :
  Forall unquoted (map fields (concat sample_feed)).
Proof. repeat constructor. Qed.

Lemma document_order_witness :
  exists st,
    write_xmltv_data europe_paris sample_feed = Ok st
    /\ exists channels programmes,
         children (root st) = channels ++ programmes
         /\ length channels = 2 /\ length programmes = 3.
Proof.
  destruct (write_xmltv_data europe_paris sample_feed) as [st|e] eqn:E.
  - exists st. split; [reflexivity|].
    destruct (document_order europe_paris sample_feed st E)
      as (channels & programmes & declaring & Hc & _ & _ & F & _ & _ & Hch).
    exists channels, programmes. split; [exact Hc|]. split.
    + rewrite (Hch sample_feed_unquoted). reflexivity.
    + apply Forall2_length in F. rewrite <- F. reflexivity.
  - vm_compute in E. discriminate.
Defined.

(** The channels of [sample_feed] first appear in the order 1, 2; the
    document declares them in the order 2, 1. *)
Lemma document_order_counterexample :
  exists st,
    write_xmltv_data europe_paris sample_feed = Ok st
    /\ document_channel_ids st
       = [Some (telerama_to_xmltv_id (py "2")); Some (telerama_to_xmltv_id (py "1"))]
    /\ map (fun ch => Some (fst ch))
           (first_seen_channels (map fields (concat sample_feed)))
       = [Some (telerama_to_xmltv_id (py "1")); Some (telerama_to_xmltv_id (py "2"))].
Proof.
  destruct (write_xmltv_data europe_paris sample_feed) as [st|e] eqn:E.
  - exists st. split; [reflexivity|].
    vm_compute in E. injection E as <-. split; reflexivity.
  - vm_compute in E. discriminate.
Qed.

(** For identifiers without a double quote, adding the channel of a record
    is idempotent; the document has at most one [channel] element for an
    identifier, and that element carries the display name of the first
    record with this identifier. *)
Theorem channel_declared_once (france_tz : datetime -> Z)
    (telerama_programs : list (list str)) (st : grab_state) :
  write_xmltv_data france_tz telerama_programs = Ok st ->
  Forall unquoted (map fields (concat telerama_programs)) ->
  (forall r r' data data',
      add_channel r data = Ok r' -> unquoted data ->
      nth_error data' 0 = nth_error data 0 ->
      add_channel r' data' = Ok r')
  /\ (forall channel_id,
        length (filter (is_channel channel_id) (children (root st))) <= 1)
  /\ (forall r1 data r2,
        map fields (concat telerama_programs) = r1 ++ data :: r2 ->
        (forall d, In d r1 ->
                   fst (record_channel d) <> fst (record_channel data)) ->
        filter (is_channel (fst (record_channel data))) (children (root st))
        = [Element s_channel [(s_id, fst (record_channel data))] None
             [Element s_display_name [] (Some (snd (record_channel data))) []]]).
Proof.
  intros H Hq. split; [exact add_channel_idempotent|].
  apply write_xmltv_data_children in H as (ps & Hc & F); [|exact Hq].
  pose proof (programmes_tag france_tz _ _ F) as Hp.
  assert (N : NoDup (map fst (first_seen_channels
                                (map fields (concat telerama_programs)))))
    by (apply first_seen_nodup; constructor).
  split.
  - intros channel_id. rewrite Hc, (filter_channels _ _ _ Hp).
    rewrite length_rev, length_map. now apply filter_key_length.
  - intros r1 data r2 E Hfirst.
    rewrite Hc, (filter_channels _ _ _ Hp).
    rewrite (filter_unique_key _ _ (record_channel data) N); [reflexivity| |reflexivity].
    unfold first_seen_channels. rewrite E.
    now apply first_seen_first.
Qed.

Lemma channel_declared_once_witness :
  exists st,
    write_xmltv_data europe_paris sample_feed = Ok st
    /\ length (filter (is_channel (telerama_to_xmltv_id (py "1")))
                      (children (root st))) <= 1
    /\ find_channel (root st) (telerama_to_xmltv_id (py "1"))
       = Some (channel_of (telerama_to_xmltv_id (py "1"), py "TF1")).
Proof.
  destruct (write_xmltv_data europe_paris sample_feed) as [st|e] eqn:E.
  - exists st. split; [reflexivity|].
    destruct (channel_declared_once europe_paris sample_feed st E
                sample_feed_unquoted) as (_ & Hone & Hfirst).
    split; [apply Hone|].
    pose proof (Hfirst [] (fields sample_news)
                  [fields sample_film; fields sample_late] eq_refl
                  (fun d (I : In d []) => match I with end)) as Hf.
    change (fst (record_channel (fields sample_news)))
      with (telerama_to_xmltv_id (py "1")) in Hf.
    unfold find_channel. rewrite find_filter. unfold str, char in *.
    rewrite Hf. reflexivity.
  - vm_compute in E. discriminate.
Defined.

(** C8. An identifier is pasted into the path of line 235 as it comes: in
    [quoted_id] a double quote ends the text of the predicate, and what
    follows is read as a second predicate on the same attribute.  No
    element has two values for its [id]: [root.find] answers [None] even
    when the document declares the channel, each record of the channel
    declares it again, and the document holds two [channel] elements with
    this identifier, the one of the second record first. *)
Theorem channel_declared_twice :
  exists st,
    write_xmltv_data europe_paris sample_quoted_feed = Ok st
    /\ map record_channel (map fields (concat sample_quoted_feed))
       = [(telerama_to_xmltv_id quoted_id, py "First");
          (telerama_to_xmltv_id quoted_id, py "Second")]
    /\ document_channels st
       = [channel_of (telerama_to_xmltv_id quoted_id, py "Second");
          channel_of (telerama_to_xmltv_id quoted_id, py "First")]
    /\ root_find (root st) (telerama_to_xmltv_id quoted_id) = Ok None.
Proof.
  destruct (write_xmltv_data europe_paris sample_quoted_feed) as [st|e] eqn:E.
  - exists st. split; [reflexivity|].
    vm_compute in E. injection E as <-.
    split; [reflexivity|]. split; [reflexivity|]. vm_compute. reflexivity.
  - vm_compute in E. discriminate.
Qed.

(** An identifier with one double quote leaves a name after the quoted
    text of the predicate, and the path does not compile: the search
    raises, and a feed with such a record yields no document. *)
Example odd_quote_raises :
  root_find initial_root (telerama_to_xmltv_id odd_quote_id) = Err SyntaxError
  /\ write_xmltv_data europe_paris
       [[raw_record odd_quote_id (py "Odd") (py "Nuit") (py "20:30:00")
           (py "21:00:00") (py "Divers") (py "") (py "En 16:9") (py "0")
           (py "") (py "0") (py "") (py "01/03/2024")]]
     = Err SyntaxError.
Proof. split; reflexivity. Qed.

(** The path of [detour_id] finds the channel 1 once it is declared: the
    channel of the record is not declared, and the programme of the record
    names a channel that the document does not have. *)
Example programme_channel_undeclared :
  exists st,
    write_xmltv_data europe_paris [[sample_news; sample_detour]] = Ok st
    /\ document_channel_ids st = [Some (telerama_to_xmltv_id (py "1"))]
    /\ map (fun p => get p s_channel)
           (filter (has_tag s_programme) (children (root st)))
       = [Some (telerama_to_xmltv_id (py "1"));
          Some (telerama_to_xmltv_id detour_id)].
Proof.
  destruct (write_xmltv_data europe_paris [[sample_news; sample_detour]])
    as [st|e] eqn:E.
  - exists st. split; [reflexivity|].
    vm_compute in E. injection E as <-. split; reflexivity.
  - vm_compute in E. discriminate.
Qed.

(** The path of the identifier [quoted_id] compiles to a step and two
    predicates on the attribute [id]. *)
Example quoted_path_selectors :
  compile step (xpath_tokenizer (channel_path (telerama_to_xmltv_id quoted_id)))
  = Ok [Some (select_child s_channel);
        Some (select_attribute s_id (py "a") false);
        Some (select_attribute s_id (py "b.tv.telerama.fr") false)].
Proof. reflexivity. Qed.

(** ** The role of an actor *)

Lemma app_last_split (X Y W : str) (c : char) :
  X ++ [c] = Y ++ W -> W <> [] -> exists W', W = W' ++ [c] /\ X = Y ++ W'.
Proof.
  intros E HW. destruct (exists_last HW) as (W' & d & ->).
  rewrite app_assoc in E. apply app_inj_tail in E as [-> ->]. now exists W'.
Qed.

(** A space and an opening parenthesis inside [" (" ++ role ++ ")"], after
    its start, are inside [role]. *)
Lemma role_contains (role a b' : str) :
  32%N :: 40%N :: role ++ [41%N] = a ++ 32%N :: 40%N :: b' ->
  a <> [] -> contains [32%N; 40%N] role.
Proof.
  intros E Ha. destruct a as [|x a]; [congruence|].
  cbn [app] in E. injection E as _ E.
  destruct a as [|z a]; cbn [app] in E; [discriminate|].
  injection E as _ E.
  apply app_last_split in E as (W' & EW & Er); [|discriminate].
  destruct W' as [|w1 [|w2 W']]; cbn [app] in EW; try discriminate.
  injection EW as <- <- _. exists a, W'. exact Er.
Qed.

Lemma role_tail_fail (r : regex) (k : kont) (pv : option char) (b : str)
    (cp : captures) :
  starts_with [32%N; 40%N] b = false ->
  rmatch (Seq (One (CChar 32%N)) (Seq (One (CChar 40%N)) r)) k
         (mk_mstate pv b cp) = None.
Proof.
  intros H. rewrite rmatch_Seq.
  destruct b as [|x b]; [reflexivity|]. rewrite rmatch_One. cbn [in_cset].
  destruct (N.eqb x 32) eqn:Ex; [|reflexivity].
  rewrite rmatch_Seq. destruct b as [|y b]; [reflexivity|].
  rewrite rmatch_One. cbn [in_cset].
  destruct (N.eqb y 40) eqn:Ey; [|reflexivity].
  unfold starts_with in H. cbn [length firstn str_eqb] in H.
  rewrite Ex, Ey in H. destruct b; discriminate.
Qed.

(** The pattern of the role on an entry [name (role)] whose role holds no
    [" ("]: group 1 is the name and group 2 the role. *)
Lemma actor_role_match (name role : str) :
  all_in CAny name = true -> all_in CAny role = true ->
  ~ contains [32%N; 40%N] role ->
  exists m,
    re_search actor_role_re (name ++ 32%N :: 40%N :: role ++ [41%N]) = Some m
    /\ group m 1 = Some name /\ group m 2 = Some role.
Proof.
  intros An Ar Hn.
  set (entry := name ++ 32%N :: 40%N :: role ++ [41%N]).
  eexists. split.
  - unfold re_search.
    apply (search_from_found actor_role_re entry [] entry None);
      [reflexivity | | intros p q _ L; simpl in L; lia].
    unfold try_at, actor_role_re. cbn [Seqs prev_of fold_left].
    rewrite rmatch_Group. cbn [rest].
    set (k0 := fun st' : mstate =>
                 accept (mk_mstate (prev st') (rest st')
                           ((0, firstn (length entry - length (rest st')) entry)
                              :: caps st'))).
    rewrite rmatch_Seq, rmatch_Group, rmatch_Star. cbn [rest].
    unfold entry at 1.
    apply star_backtrack; [exact An | |].
    + cbn [prev rest caps]. unfold entry at 1 2.
      rewrite firstn_consumed.
      rewrite rmatch_Seq, rmatch_One. cbn [in_cset N.eqb Pos.eqb].
      rewrite rmatch_Seq, rmatch_One. cbn [in_cset N.eqb Pos.eqb].
      rewrite rmatch_Seq, rmatch_Group, rmatch_Star. cbn [rest].
      apply star_backtrack; [exact Ar | |].
      * cbn [prev rest caps]. rewrite firstn_consumed, rmatch_One.
        cbn [in_cset N.eqb Pos.eqb]. unfold k0, accept. cbn [prev rest caps].
        reflexivity.
      * intros a b E Ha _. destruct a as [|x a]; [congruence|].
        cbn [app] in E. injection E as _ E.
        symmetry in E. apply app_eq_nil in E as [_ ->]. reflexivity.
    + intros a b E Ha _. cbn [prev rest caps].
      apply role_tail_fail.
      destruct (starts_with [32%N; 40%N] b) eqn:S; [exfalso|reflexivity].
      apply starts_with_true in S as [b' ->].
      apply Hn. now apply (role_contains role a b').
  - split; reflexivity.
Qed.

(** Where the pattern of the role matches, the entry holds [" ("]. *)
Lemma actor_role_none (entry : str) :
  ~ contains [32%N; 40%N] entry -> re_search actor_role_re entry = None.
Proof.
  intros Hn. unfold re_search.
  pose proof (search_from_spec actor_role_re entry None) as S.
  destruct (search_from actor_role_re None entry) as [m|]; [exfalso|reflexivity].
  destruct S as (pre & post & E & T & _).
  unfold try_at in T. apply rmatch_sound in T as (st' & M & _).
  apply Matches_Group_inv in M as (st5 & M & _).
  unfold actor_role_re in M. cbn [Seqs] in M.
  apply Matches_Seq_inv in M as (st1 & M1 & M).
  apply Matches_Group_inv in M1 as (st1' & M1 & _ & R1 & _).
  apply Matches_Star_inv in M1 as (xs & X1 & _).
  apply Matches_Seq_inv in M as (st2 & M2 & M).
  apply Matches_One_inv in M2 as (x & Hx & X2 & _).
  apply Matches_Seq_inv in M as (st3 & M3 & _).
  apply Matches_One_inv in M3 as (y & Hy & X3 & _).
  cbn [in_cset rest] in *. apply N.eqb_eq in Hx as ->, Hy as ->.
  apply Hn. exists (pre ++ xs), (rest st3).
  rewrite E, X1, <- R1, X2, X3. now rewrite <- app_assoc.
Qed.

(** ** Actor credits *)

Lemma split_names_spec (v : str) :
  split_outside_delimiters v s_comma_space s_open s_close = Some (split_names v).
Proof.
  unfold split_names.
  destruct (split_outside_delimiters_total v s_comma_space s_open s_close)
    as [segs ->]; [discriminate | reflexivity].
Qed.

Lemma join_forallb (p : char -> bool) (sep : str) (l : list str) :
  forallb p (join sep l) = true -> Forall (fun e => forallb p e = true) l.
Proof.
  induction l as [|a l IH]; intros H; [constructor|].
  destruct l as [|b l].
  - constructor; [exact H | constructor].
  - rewrite join_cons in H by discriminate.
    rewrite !forallb_app in H.
    apply andb_true_iff in H as [Ha H]. apply andb_true_iff in H as [_ H].
    constructor; [exact Ha | now apply IH].
Qed.

(** The entries of a value, joined again, are the value. *)
Lemma split_names_join (v : str) : join s_comma_space (split_names v) = v.
Proof.
  pose proof (split_names_spec v) as Hs.
  rewrite split_outside_delimiters_scan in Hs.
  apply scan_join in Hs. exact Hs.
Qed.

(** The entries of a value without a newline have no newline. *)
Lemma split_names_any (v : str) :
  all_in CAny v = true ->
  Forall (fun entry => all_in CAny entry = true) (split_names v).
Proof.
  intros H.
  apply (join_forallb (in_cset CAny) s_comma_space).
  now rewrite split_names_join.
Qed.

Lemma actor_xml_tag (entry : str) : has_tag s_actor (actor_xml entry) = true.
Proof. unfold actor_xml. now destruct (re_search actor_role_re entry). Qed.

Lemma filter_actors (details : str) :
  filter (has_tag s_actor) (actors_xml details) = actors_xml details.
Proof.
  unfold actors_xml, credit_list.
  destruct (label_value l_acteurs details) as [v|]; [|reflexivity].
  induction (split_names v) as [|e l IH]; [reflexivity|].
  cbn [map filter]. now rewrite actor_xml_tag, IH.
Qed.

Lemma filter_plain_credits (t kind label details : str) :
  str_eqb kind t = false ->
  filter (has_tag t) (credit_list label details (plain_credit kind)) = [].
Proof.
  intros H. unfold credit_list.
  destruct (label_value label details) as [v|]; [|reflexivity].
  induction (split_names v) as [|e l IH]; [reflexivity|].
  cbn [map filter]. unfold has_tag at 1. cbn [plain_credit tag].
  now rewrite H.
Qed.

(** The [actor] children of the [credits] element are those of lines
    300-310. *)
Lemma credits_actors (details : str) (c : element) :
  In c (credits_xml details) ->
  filter (has_tag s_actor) (children c) = actors_xml details.
Proof.
  unfold credits_xml.
  destruct (is_some (label_value l_realisateur details)
            || is_some (label_value l_acteurs details)
            || is_some (label_value l_musique details)
            || is_some (label_value l_presentateur details)
            || is_some (label_value l_invites details)); [|intros []].
  intros [<-|[]]. cbn [children].
  rewrite !filter_app, filter_actors.
  rewrite !filter_plain_credits by reflexivity.
  now rewrite app_nil_r.
Qed.

Lemma programme_credits (france_tz : datetime -> Z) (data : list str)
    (p : element) (log : list str) (details : str) :
  programme france_tz data = Ok (p, log) ->
  nth_error data 7 = Some details ->
  filter (has_tag s_credits) (children p) = credits_xml details.
Proof.
  intros H E7.
  apply programme_children in H
    as (times & d0 & d2 & d5 & d6 & d7 & d8 & d10 & d11 & _ & _ & _ & _ & _
        & H7 & _ & _ & _ & ->).
  rewrite H7 in E7. injection E7 as ->.
  rewrite !filter_app.
  rewrite !filter_labelled by reflexivity.
  rewrite filter_categories_other by reflexivity.
  replace (filter (has_tag s_credits) (credits_xml details))
    with (credits_xml details) by (symmetry; filter_section credits_xml).
  replace (filter (has_tag s_credits) (episodenum_xml details))
    with (@nil element) by (symmetry; filter_section episodenum_xml).
  replace (filter (has_tag s_credits) (desc_xml d6)) with (@nil element)
    by (symmetry; filter_section desc_xml).
  replace (filter (has_tag s_credits) (audio_xml details))
    with (@nil element) by (symmetry; filter_section audio_xml).
  replace (filter (has_tag s_credits) (previously_shown_xml details))
    with (@nil element) by (symmetry; filter_section previously_shown_xml).
  replace (filter (has_tag s_credits) (premiere_xml details))
    with (@nil element) by (symmetry; filter_section premiere_xml).
  replace (filter (has_tag s_credits) (subtitles_xml details))
    with (@nil element) by (symmetry; filter_section subtitles_xml).
  replace (filter (has_tag s_credits) (rating_xml d8)) with (@nil element)
    by (symmetry; filter_section rating_xml).
  replace (filter (has_tag s_credits) (starrating_xml d10))
    with (@nil element) by (symmetry; filter_section starrating_xml).
  replace (filter (has_tag s_credits) (review_xml d11)) with (@nil element)
    by (symmetry; filter_section review_xml).
  simpl. now rewrite !app_nil_r.
Qed.

(** A record with a line [Acteurs :] yields a programme with one [credits]
    element, and the [actor] children of that element are the actors of the
    line. *)
Lemma programme_actor_credits (france_tz : datetime -> Z) (data : list str)
    (p : element) (log : list str) (details pre v : str) :
  programme france_tz data = Ok (p, log) ->
  nth_error data 7 = Some details ->
  label_line l_acteurs details pre v ->
  exists c,
    filter (has_tag s_credits) (children p) = [c]
    /\ tag c = s_credits /\ attrib c = [] /\ text c = None
    /\ filter (has_tag s_actor) (children c) = map actor_xml (split_names v).
Proof.
  intros H E7 L. apply label_value_line in L.
  rewrite (programme_credits france_tz data p log details H E7).
  unfold credits_xml. rewrite L. cbn [is_some orb].
  rewrite orb_true_r. cbn [orb].
  eexists. split; [reflexivity|]. repeat (split; [reflexivity|]).
  cbn [children]. rewrite !filter_app, filter_actors.
  rewrite !filter_plain_credits by reflexivity.
  rewrite app_nil_r. cbn [app]. unfold actors_xml, credit_list. now rewrite L.
Qed.



(** An annotation that holds a nested one is cut at the inner [" ("]. *)
Example actor_nested_annotation :
  actor_xml (py "Jean Dupont (Paul (jeune))")
  = Element s_actor [(s_role, py "jeune)")] (Some (py "Jean Dupont (Paul")) [].
Proof. reflexivity. Qed.

(** The line of the example is a line [Acteurs :]. *)
Example actors_line_example :
  label_line l_acteurs (py "Acteurs : Jean Dupont (Paul), Marie Curie") []
    (py "Jean Dupont (Paul), Marie Curie").
Proof.
  exists [32%N], []. split; [reflexivity|]. split; [reflexivity|].
  split; [intros p q _ L; exfalso; exact (Nat.nlt_0_r _ L)|].
  split; [reflexivity|]. split; [discriminate|]. split; [reflexivity|].
  split; reflexivity.
Qed.

(** ** The date of a record *)

Lemma accepts_app (r1 r2 : regex) (x : char) (mk : regex -> regex -> regex) :
  csets (mk r1 r2) = csets r1 ++ csets r2 ->
  accepts (mk r1 r2) x = accepts r1 x || accepts r2 x.
Proof. unfold accepts. intros ->. apply existsb_app. Qed.

Lemma forallb_weaken {A : Type} (p q : A -> bool) (l : list A) :
  (forall x, p x = true -> q x = true) ->
  forallb p l = true -> forallb q l = true.
Proof.
  intros H. induction l as [|a l IH]; [reflexivity|]. cbn [forallb].
  intros E. apply andb_true_iff in E as [Ea El]. now rewrite (H a Ea), IH.
Qed.

(** A match reads characters that the sets of the pattern accept. *)
Lemma Matches_footprint (r : regex) (st st' : mstate) :
  Matches r st st' ->
  exists xs, rest st = xs ++ rest st' /\ forallb (accepts r) xs = true.
Proof.
  induction 1 as [st|cs x s pv cp E|st E|st E|r1 r2 st st1 st2 _ IH1 _ IH2
                  |r1 r2 st st' _ IH|r1 r2 st st' _ IH|cs st
                  |cs x s pv cp st' E _ IH|n r st st' _ IH].
  - now exists [].
  - exists [x]. split; [reflexivity|]. unfold accepts. cbn. now rewrite E.
  - now exists [].
  - now exists [].
  - destruct IH1 as (xs & E1 & F1), IH2 as (ys & E2 & F2).
    exists (xs ++ ys). split; [now rewrite E1, E2, app_assoc|].
    rewrite forallb_app. apply andb_true_iff. split.
    + apply (forallb_weaken (accepts r1)); [|exact F1].
      intros x Hx. rewrite (accepts_app r1 r2 x Seq eq_refl), Hx. reflexivity.
    + apply (forallb_weaken (accepts r2)); [|exact F2].
      intros x Hx. rewrite (accepts_app r1 r2 x Seq eq_refl), Hx.
      apply orb_true_r.
  - destruct IH as (xs & E1 & F1). exists xs. split; [exact E1|].
    apply (forallb_weaken (accepts r1)); [|exact F1].
    intros x Hx. rewrite (accepts_app r1 r2 x Alt eq_refl), Hx. reflexivity.
  - destruct IH as (xs & E1 & F1). exists xs. split; [exact E1|].
    apply (forallb_weaken (accepts r2)); [|exact F1].
    intros x Hx. rewrite (accepts_app r1 r2 x Alt eq_refl), Hx.
    apply orb_true_r.
  - now exists [].
  - destruct IH as (xs & E1 & F1). cbn [rest] in *.
    exists (x :: xs). split; [now rewrite E1|].
    cbn [forallb]. rewrite F1. unfold accepts. cbn. now rewrite E.
  - destruct IH as (xs & E1 & F1). exists xs. split; [exact E1 | exact F1].
Qed.

(** A pattern without a group leaves the groups as they are. *)
Lemma Matches_groupless (r : regex) (st st' : mstate) :
  Matches r st st' -> groupless r = true -> caps st' = caps st.
Proof.
  induction 1 as [st|cs x s pv cp E|st E|st E|r1 r2 st st1 st2 _ IH1 _ IH2
                  |r1 r2 st st' _ IH|r1 r2 st st' _ IH|cs st
                  |cs x s pv cp st' E _ IH|n r st st' _ IH];
    cbn [groupless]; intros G; try reflexivity.
  - apply andb_true_iff in G as [G1 G2]. now rewrite IH2, IH1.
  - apply andb_true_iff in G as [G1 G2]. now apply IH.
  - apply andb_true_iff in G as [G1 G2]. now apply IH.
  - now apply IH.
  - discriminate.
Qed.

(** A group over a pattern without a group: what it reads is what it
    captures. *)
Lemma Matches_Group_footprint (n : nat) (r : regex) (st st' : mstate) :
  Matches (Group n r) st st' -> groupless r = true ->
  exists g, rest st = g ++ rest st' /\ caps st' = (n, g) :: caps st
            /\ forallb (accepts r) g = true /\ Matches r st (mk_mstate (prev st') (rest st') (caps st)).
Proof.
  intros H G. apply Matches_Group_inv in H as (st1 & M & P & R & C).
  pose proof (Matches_groupless r st st1 M G) as Cg.
  destruct (Matches_footprint r st st1 M) as (g & E & F).
  exists g. rewrite R, C, E, firstn_consumed, Cg.
  repeat split; try assumption.
  rewrite P, <- Cg. now destruct st1.
Qed.

Lemma digit_sets_accept (r : regex) (x : char) :
  forallb digit_set (csets r) = true -> accepts r x = true ->
  in_cset digit x = true.
Proof.
  unfold accepts. induction (csets r) as [|cs l IH]; cbn [forallb existsb];
    [discriminate|].
  intros D A. apply andb_true_iff in D as [Dc Dl].
  apply orb_true_iff in A as [A|A]; [|now apply IH].
  destruct cs as [y| | |lo hi|xs|xs bl|]; cbn [digit_set in_cset] in *; try discriminate.
  - apply N.eqb_eq in A as ->. exact Dc.
  - unfold digit. cbn [in_cset].
    apply andb_true_iff in Dc as [D1 D2]. apply andb_true_iff in A as [A1 A2].
    apply N.leb_le in D1, D2, A1, A2. apply andb_true_iff.
    split; apply N.leb_le; lia.
Qed.

Lemma digit_set_in (cs : cset) (x : char) :
  in_cset cs x = true -> digit_set cs = true -> in_cset digit x = true.
Proof.
  intros A D. apply (digit_sets_accept (One cs) x).
  - cbn. now rewrite D.
  - unfold accepts. cbn. now rewrite A.
Qed.

Lemma Matches_two (a b : cset) (st st' : mstate) :
  Matches (Seq (One a) (One b)) st st' ->
  exists x y, rest st = x :: y :: rest st'
              /\ in_cset a x = true /\ in_cset b y = true.
Proof.
  intros H. apply Matches_Seq_inv in H as (st1 & H1 & H2).
  apply Matches_One_inv in H1 as (x & Hx & R1 & _).
  apply Matches_One_inv in H2 as (y & Hy & R2 & _).
  exists x, y. rewrite R1, R2. auto.
Qed.

(** The day of the month: one or two digits, or a space and a digit. *)
Lemma strptime_day_shape (st st' : mstate) :
  Matches strptime_d st st' ->
  exists x g, rest st = x :: g ++ rest st'
              /\ forallb (in_cset digit) g = true
              /\ (in_cset digit x = true \/ x = 32%N).
Proof.
  unfold strptime_d. intros H.
  repeat (apply Matches_Alt_inv in H as [H|H]);
    try (apply Matches_two in H as (x & y & R & Hx & Hy);
         exists x, [y]; split; [exact R|]; split;
         [cbn [forallb]; rewrite (digit_set_in _ y Hy eq_refl); reflexivity|];
         first [ left; apply (digit_set_in _ x Hx eq_refl)
               | right; cbn [in_cset] in Hx; now apply N.eqb_eq in Hx ]).
  apply Matches_One_inv in H as (x & Hx & R & _).
  exists x, []. split; [exact R|]. split; [reflexivity|].
  left. apply (digit_set_in _ x Hx eq_refl).
Qed.

Lemma digits_accepted (r : regex) (g : str) :
  forallb digit_set (csets r) = true -> forallb (accepts r) g = true ->
  all_in digit g = true.
Proof.
  intros D. apply forallb_weaken. intros x. now apply digit_sets_accept.
Qed.

Lemma digits_no_space (g : str) :
  all_in digit g = true -> forallb (fun c => negb (is_space c)) g = true.
Proof.
  apply forallb_weaken. intros x H. now rewrite (digit_not_space x H).
Qed.

(** What [strptime] reads: the day, the month and the year between
    slashes, blanks, and a time made of digits and colons. *)
Lemma strptime_parts (s : str) (m : match_object) :
  re_match strptime_re s = Some m ->
  exists x g1 g2 g3 ws tm,
    s = (x :: g1) ++ 47%N :: g2 ++ 47%N :: g3 ++ ws ++ tm ++ snd m
    /\ group_str m 1 = x :: g1 /\ group_str m 2 = g2 /\ group_str m 3 = g3
    /\ (in_cset digit x = true \/ x = 32%N)
    /\ all_in digit g1 = true /\ all_in digit g2 = true
    /\ all_in digit g3 = true
    /\ ws <> [] /\ all_in CSpace ws = true
    /\ forallb (fun c => negb (is_space c)) tm = true.
Proof.
  unfold re_match. intros H.
  apply rmatch_sound in H as (st' & M & Hacc).
  unfold accept in Hacc. injection Hacc as <-. cbn [snd].
  apply Matches_Group_inv in M as (st11 & M & _ & Rend & Cend).
  unfold strptime_re in M. cbn [Seqs] in M.
  apply Matches_Seq_inv in M as (st1 & M1 & M).
  apply Matches_Group_footprint in M1 as (g1 & R1 & C1 & _ & Md); [|reflexivity].
  apply strptime_day_shape in Md as (x & g1' & Rd & Dg & Dx).
  cbn [rest caps] in *.
  apply Matches_Seq_inv in M as (st2 & M2 & M).
  apply Matches_One_inv in M2 as (c2 & H2 & R2 & C2 & _).
  cbn [in_cset slash] in H2. apply N.eqb_eq in H2 as ->.
  apply Matches_Seq_inv in M as (st3 & M3 & M).
  apply Matches_Group_footprint in M3 as (g2 & R3 & C3 & F3 & _); [|reflexivity].
  apply Matches_Seq_inv in M as (st4 & M4 & M).
  apply Matches_One_inv in M4 as (c4 & H4 & R4 & C4 & _).
  cbn [in_cset slash] in H4. apply N.eqb_eq in H4 as ->.
  apply Matches_Seq_inv in M as (st5 & M5 & M).
  apply Matches_Group_footprint in M5 as (g3 & R5 & C5 & F5 & _); [|reflexivity].
  apply Matches_Seq_inv in M as (st6 & M6 & M).
  apply Matches_Plus_inv in M6 as (ws & W0 & R6 & W1 & C6 & _).
  apply Matches_Seq_inv in M as (st7 & M7 & M).
  apply Matches_Group_footprint in M7 as (g4 & R7 & C7 & F7 & _); [|reflexivity].
  apply Matches_Seq_inv in M as (st8 & M8 & M).
  apply Matches_One_inv in M8 as (c8 & H8 & R8 & C8 & _).
  cbn [in_cset colon] in H8. apply N.eqb_eq in H8 as ->.
  apply Matches_Seq_inv in M as (st9 & M9 & M).
  apply Matches_Group_footprint in M9 as (g5 & R9 & C9 & F9 & _); [|reflexivity].
  apply Matches_Seq_inv in M as (st10 & M10 & M).
  apply Matches_One_inv in M10 as (c10 & H10 & R10 & C10 & _).
  cbn [in_cset colon] in H10. apply N.eqb_eq in H10 as ->.
  apply Matches_Group_footprint in M as (g6 & R11 & C11 & F11 & _); [|reflexivity].
  assert (E1 : g1 = x :: g1').
  { rewrite R1 in Rd. rewrite app_comm_cons in Rd. now apply app_inv_tail in Rd. }
  subst g1.
  exists x, g1', g2, g3, ws, (g4 ++ 58%N :: g5 ++ 58%N :: g6).
  split.
  { rewrite R1, R2, R3, R4, R5, R6, R7, R8, R9, R10, R11, Rend.
    repeat (rewrite <- app_assoc; cbn [app]). reflexivity. }
  unfold group_str, group. cbn [fst].
  rewrite Cend, C11, C10, C9, C8, C7, C6, C5, C4, C3, C2, C1.
  cbn [lookup_group Nat.eqb].
  repeat (split; [reflexivity|]). split; [exact Dx|].
  split; [exact Dg|].
  split; [apply (digits_accepted strptime_m); [reflexivity | exact F3]|].
  split; [apply (digits_accepted strptime_Y); [reflexivity | exact F5]|].
  split; [exact W0|]. split; [exact W1|].
  assert (D4 : forallb (fun c => negb (is_space c)) g4 = true)
    by (apply digits_no_space, (digits_accepted strptime_H); [reflexivity | exact F7]).
  assert (D5 : forallb (fun c => negb (is_space c)) g5 = true)
    by (apply digits_no_space, (digits_accepted strptime_M); [reflexivity | exact F9]).
  assert (D6 : forallb (fun c => negb (is_space c)) g6 = true)
    by (apply digits_no_space, (digits_accepted strptime_S); [reflexivity | exact F11]).
  rewrite forallb_app, D4. cbn [forallb]. rewrite forallb_app, D5.
  cbn [forallb]. rewrite D6. reflexivity.
Qed.

(** A text is a run of characters that [p] accepts and a rest where the run
    stops. *)
Lemma run_split (p : char -> bool) (s : str) :
  exists a b, s = a ++ b /\ forallb p a = true /\ stops p b.
Proof.
  induction s as [|x s (a & b & E & Fa & Sb)].
  - exists [], []. repeat split.
  - destruct (p x) eqn:Px.
    + exists (x :: a), b. cbn [app forallb]. rewrite <- E, Px, Fa. repeat split.
      exact Sb.
    + exists [], (x :: s). repeat split. exact Px.
Qed.

Lemma stops_app (p : char -> bool) (b r : str) (y : char) :
  stops p b -> p y = false -> stops p (b ++ y :: r).
Proof. destruct b as [|z b]; cbn [app stops]; auto. Qed.

(** The date that [strptime] reads is written in the date field when the
    field is not empty: the blank that follows the field is one of the
    blanks between the date and the time. *)
Lemma strptime_date_groups (d12 t t' : str) (m m' : match_object) :
  d12 <> [] ->
  re_match strptime_re (d12 ++ 32%N :: t) = Some m ->
  re_match strptime_re (d12 ++ 32%N :: t') = Some m' ->
  group_str m 1 = group_str m' 1 /\ group_str m 2 = group_str m' 2
  /\ group_str m 3 = group_str m' 3.
Proof.
  intros Hd H H'.
  apply strptime_parts in H
    as (x & g1 & g2 & g3 & ws & tm & E & -> & -> & -> & _ & D1 & D2 & D3 & W0 & W1 & _).
  apply strptime_parts in H'
    as (x' & h1 & h2 & h3 & ws' & tm' & E' & -> & -> & -> & _ & K1 & K2 & K3 & V0 & V1 & _).
  destruct d12 as [|x0 d]; [congruence|]. clear Hd.
  cbn [app] in E, E'. injection E as <- E. injection E' as <- E'.
  destruct (run_split (fun c => negb (is_space c)) d) as (a & b & -> & Fa & Sb).
  rewrite <- app_assoc in E, E'.
  assert (Run : forall k1 k2 k3, all_in digit k1 = true -> all_in digit k2 = true ->
                  all_in digit k3 = true ->
                  forallb (fun c => negb (is_space c)) (k1 ++ 47%N :: k2 ++ 47%N :: k3) = true).
  { intros k1 k2 k3 A1 A2 A3.
    rewrite forallb_app, (digits_no_space k1 A1). cbn [forallb].
    rewrite forallb_app, (digits_no_space k2 A2). cbn [forallb].
    rewrite (digits_no_space k3 A3). reflexivity. }
  assert (Blank : forall v r, v <> [] -> all_in CSpace v = true ->
                    stops (fun c => negb (is_space c)) (v ++ r)).
  { intros [|y v] r N A; [congruence|]. cbn [all_in forallb in_cset] in A.
    apply andb_true_iff in A as [A _]. cbn [app stops]. now rewrite A. }
  assert (Sa : forall r, stops (fun c => negb (is_space c)) (b ++ 32%N :: r))
    by (intros r; now apply stops_app).
  assert (Ea : a = g1 ++ 47%N :: g2 ++ 47%N :: g3).
  { apply (run_unique (fun c => negb (is_space c)) a (g1 ++ 47%N :: g2 ++ 47%N :: g3)
             (b ++ 32%N :: t) (ws ++ tm ++ snd m)).
    - rewrite E. repeat (rewrite <- app_assoc; cbn [app]). reflexivity.
    - exact Fa.
    - now apply Run.
    - apply Sa.
    - now apply Blank. }
  assert (Ea' : a = h1 ++ 47%N :: h2 ++ 47%N :: h3).
  { apply (run_unique (fun c => negb (is_space c)) a (h1 ++ 47%N :: h2 ++ 47%N :: h3)
             (b ++ 32%N :: t') (ws' ++ tm' ++ snd m')).
    - rewrite E'. repeat (rewrite <- app_assoc; cbn [app]). reflexivity.
    - exact Fa.
    - now apply Run.
    - apply Sa.
    - now apply Blank. }
  rewrite Ea' in Ea. clear - Ea D1 D2 D3 K1 K2 K3.
  destruct (run_unique (in_cset digit) h1 g1 _ _ Ea K1 D1 eq_refl eq_refl) as [-> Eb].
  injection Eb as Eb.
  destruct (run_unique (in_cset digit) h2 g2 _ _ Eb K2 D2 eq_refl eq_refl) as [-> Ec].
  injection Ec as ->. repeat split.
Qed.

(** Two times read with the same non-empty date field are on the same
    date. *)
Lemma strptime_same_date (d12 t t' : str) (a b : datetime) :
  d12 <> [] ->
  strptime (d12 ++ 32%N :: t) = Ok a -> strptime (d12 ++ 32%N :: t') = Ok b ->
  same_date a b.
Proof.
  intros Hd Ha Hb. unfold strptime, datetime_new in Ha, Hb.
  destruct (re_match strptime_re (d12 ++ 32%N :: t)) as [m|] eqn:M; [|discriminate].
  destruct (re_match strptime_re (d12 ++ 32%N :: t')) as [m'|] eqn:M'; [|discriminate].
  destruct (strptime_date_groups d12 t t' m m' Hd M M') as (G1 & G2 & G3).
  destruct (snd m); [|discriminate]. destruct (snd m'); [|discriminate].
  repeat match type of Ha with context [valid_datetime ?v] =>
    destruct (valid_datetime v); [|discriminate] end.
  repeat match type of Hb with context [valid_datetime ?v] =>
    destruct (valid_datetime v); [|discriminate] end.
  injection Ha as <-. injection Hb as <-.
  unfold same_date. cbn [year month day]. now rewrite G1, G2, G3.
Qed.

(** ** The start and the stop of a programme *)

(** What lines 242-250 compute.  The start is the date of field 12 with the
    time of field 3, and the stop the date of field 12 with the time of
    field 4, both localized; one calendar day is added to the wall clock of
    the stop exactly when the computed stop is strictly earlier than the
    start, and the stop keeps the UTC offset that it was given before.  A
    date field that is not empty puts the start and the stop that are read
    on the same date; when the two are read with the same UTC offset, the
    stop is not before the start, and it is after the start unless the two
    times of the day are the same. *)
Theorem program_times_rollover (france_tz : datetime -> Z) (data : list str)
    (start stop : aware) :
  program_times france_tz data = Ok (start, stop) ->
  exists d12 d3 d4 start_naive stop_naive,
    nth_error data 12 = Some d12 /\ nth_error data 3 = Some d3
    /\ nth_error data 4 = Some d4
    /\ strptime (d12 ++ 32%N :: d3) = Ok start_naive
    /\ strptime (d12 ++ 32%N :: d4) = Ok stop_naive
    /\ (d12 <> [] -> same_date start_naive stop_naive)
    /\ start = localize france_tz start_naive
    /\ ((instant (localize france_tz stop_naive) < instant start)%Z ->
        add_one_day stop_naive = Ok (wall stop)
        /\ utcoffset stop = france_tz stop_naive
        /\ instant stop = (instant (localize france_tz stop_naive) + 86400)%Z)
    /\ ((instant start <= instant (localize france_tz stop_naive))%Z ->
        stop = localize france_tz stop_naive)
    /\ (same_date start_naive stop_naive ->
        utcoffset start = france_tz stop_naive ->
        (instant start <= instant stop)%Z
        /\ (seconds_of_day start_naive <> seconds_of_day stop_naive ->
            (instant start < instant stop)%Z)).
Proof.
  unfold program_times. intros H.
  bind_inv H. rename a into d12, Ha into H12.
  bind_inv H. rename a into d3, Ha into H3.
  bind_inv H. rename a into sn, Ha into Hs.
  bind_inv H. rename a into d4, Ha into H4.
  bind_inv H. rename a into tn, Ha into Ht.
  apply item_ok in H12 as [H12 _], H3 as [H3 _], H4 as [H4 _].
  exists d12, d3, d4, sn, tn.
  repeat (split; [assumption|]).
  split; [intros Hd; exact (strptime_same_date d12 d3 d4 sn tn Hd Hs Ht)|].
  pose proof (strptime_valid _ _ Hs) as Vs.
  pose proof (strptime_valid _ _ Ht) as Vt.
  pose proof (seconds_of_day_bounds sn Vs) as Bs.
  pose proof (seconds_of_day_bounds tn Vt) as Bt.
  destruct (instant (localize france_tz tn) <? instant (localize france_tz sn))%Z
    eqn:C.
  - apply Z.ltb_lt in C. bind_inv H. unfold aware_add_one_day in Ha.
    bind_inv Ha. injection Ha as <-. injection H as <- <-.
    destruct (add_one_day_ordinal tn a0 Vt Ha0) as [Ho Hd].
    assert (Hi : instant {| wall := a0; utcoffset := utcoffset (localize france_tz tn) |}
                 = (instant (localize france_tz tn) + 86400)%Z).
    { unfold instant, localize in *. cbn [wall utcoffset] in *. lia. }
    split; [reflexivity|]. split; [intros _; repeat split; assumption|].
    split; [intros L; lia|].
    intros (Ey & Em & Ed) Eo.
    assert (toordinal sn = toordinal tn)
      by (unfold toordinal; now rewrite Ey, Em, Ed).
    unfold instant, localize in *. cbn [wall utcoffset] in *. lia.
  - apply Z.ltb_ge in C. injection H as <- <-.
    split; [reflexivity|]. split; [intros L; lia|].
    split; [reflexivity|].
    intros (Ey & Em & Ed) Eo.
    assert (toordinal sn = toordinal tn)
      by (unfold toordinal; now rewrite Ey, Em, Ed).
    split; [exact C|]. intros Hn.
    unfold instant, localize in *. cbn [wall utcoffset] in *. lia.
Qed.

Lemma program_times_rollover_witness :
  exists start stop,
    program_times europe_paris (fields sample_late) = Ok (start, stop)
    /\ (instant start <= instant stop)%Z.
Proof.
  destruct (program_times europe_paris (fields sample_late))
    as [[start stop]|e] eqn:E.
  - exists start, stop. split; [reflexivity|].
    destruct (program_times_rollover europe_paris (fields sample_late) start stop E)
      as (d12 & d3 & d4 & sn & tn & H12 & H3 & H4 & Hs & Ht & Hd & _ & _ & _ & Hle).
    vm_compute in H12, H3, H4.
    injection H12 as <-. injection H3 as <-. injection H4 as <-.
    vm_compute in Hs, Ht. injection Hs as <-. injection Ht as <-.
    vm_compute in E. injection E as <- <-.
    apply Hle; [apply Hd; discriminate | reflexivity].
  - vm_compute in E. discriminate.
Defined.

(** A record whose start and stop times are equal: line 249 tests
    [start > stop], the computed stop is not earlier than the start, no day
    is added, and the programme does not satisfy [stop > start]. *)
Example program_times_equal_times :
  exists start stop,
    program_times europe_paris (fields sample_same_time) = Ok (start, stop)
    /\ (instant stop <= instant start)%Z
    /\ wall stop = mk_datetime 2024 3 1 20 0 0
    /\ ~ (instant start < instant stop)%Z.
Proof.
  eexists _, _. split; [vm_compute; reflexivity|].
  split; [vm_compute; discriminate|].
  split; [reflexivity|]. vm_compute. discriminate.
Qed.

Example program_times_evening :
  program_times europe_paris (fields sample_news)
  = Ok (mk_aware (mk_datetime 2024 3 1 20 0 0) 3600,
        mk_aware (mk_datetime 2024 3 1 20 30 0) 3600).
Proof. reflexivity. Qed.

Example program_times_across_midnight :
  program_times europe_paris (fields sample_late)
  = Ok (mk_aware (mk_datetime 2024 3 1 23 30 0) 3600,
        mk_aware (mk_datetime 2024 3 2 0 45 0) 3600).
Proof. reflexivity. Qed.

(** C2. A programme from 23:45 to 00:30 on the night after summer time has
    ended.  The start is read with the offset of winter; the stop, 00:30 of
    the date of the record, is read with the offset of summer, which was in
    force that morning.  The stop is earlier than the start, and line 250
    adds one day to its wall clock; the offset attached to it stays the one
    of summer.  The programme is written with a stop fifteen minutes before
    its start. *)
Theorem program_times_time_change :
  exists st p start stop,
    write_xmltv_data europe_paris [[sample_time_change]] = Ok st
    /\ filter (has_tag s_programme) (children (root st)) = [p]
    /\ get p s_start = Some (py "20241027234500 +0100")
    /\ get p s_stop = Some (py "20241028003000 +0200")
    /\ program_times europe_paris (fields sample_time_change) = Ok (start, stop)
    /\ start = mk_aware (mk_datetime 2024 10 27 23 45 0) 3600
    /\ stop = mk_aware (mk_datetime 2024 10 28 0 30 0) 7200
    /\ instant stop = (instant start - 900)%Z.
Proof.
  destruct (write_xmltv_data europe_paris [[sample_time_change]])
    as [st|e] eqn:E; [|vm_compute in E; discriminate].
  vm_compute in E. injection E as <-.
  eexists _, _, _, _. split; [reflexivity|].
  split; [vm_compute; reflexivity|].
  split; [reflexivity|]. split; [reflexivity|].
  split; [vm_compute; reflexivity|].
  split; [reflexivity|]. split; reflexivity.
Qed.

(** The morning of the same day, across the change itself: a programme from
    01:30 to 03:30 is read with the offset of summer at its start and the
    offset of winter at its stop, and lasts three hours. *)
Example program_times_morning_of_change :
  program_times europe_paris
    (fields (raw_record (py "1") (py "TF1") (py "Nuit") (py "01:30:00")
               (py "03:30:00") (py "Divers") (py "") (py "En 16:9") (py "0")
               (py "") (py "0") (py "") (py "27/10/2024")))
  = Ok (mk_aware (mk_datetime 2024 10 27 1 30 0) 7200,
        mk_aware (mk_datetime 2024 10 27 3 30 0) 3600).
Proof. reflexivity. Qed.

(** With an empty date field the two time fields may carry dates of their
    own. *)
Example strptime_empty_date_field :
  exists a b,
    strptime ([] ++ 32%N :: py "1/03/2024 23:00:00") = Ok a
    /\ strptime ([] ++ 32%N :: py "2/03/2024 01:00:00") = Ok b
    /\ day a = 1%Z /\ day b = 2%Z.
Proof.
  eexists _, _. split; [vm_compute; reflexivity|].
  split; [vm_compute; reflexivity|]. split; reflexivity.
Qed.

(** ** [str.split] and the records of the feed *)

Lemma split_go_skip (sep : str) (s : str) :
  forall k cur, split_go sep k cur s = split_go sep 0 cur (skipn k s).
Proof.
  induction s as [|x s IH]; intros [|k] cur; try reflexivity.
  cbn [split_go skipn]. apply IH.
Qed.

Lemma split_go_at_sep (sep cur r : str) :
  sep <> [] ->
  split_go sep 0 cur (sep ++ r) = cur :: split_go sep 0 [] r.
Proof.
  intros H. destruct sep as [|c sep']; [congruence|].
  cbn [app split_go]. change (c :: sep' ++ r) with ((c :: sep') ++ r).
  rewrite starts_with_app. rewrite split_go_skip. f_equal. f_equal.
  cbn [length]. replace (S (length sep') - 1) with (length sep') by lia.
  rewrite skipn_app, Nat.sub_diag, skipn_all. reflexivity.
Qed.

Lemma split_go_step (sep cur : str) (x : char) (s : str) :
  starts_with sep (x :: s) = false ->
  split_go sep 0 cur (x :: s) = split_go sep 0 (cur ++ [x]) s.
Proof. intros H. cbn [split_go]. now rewrite H. Qed.

(** The pieces of [str.split]: each piece but the last is followed by the
    separator in the string, and no piece holds the separator. *)
Lemma split_go_spec (sep : str) :
  sep <> [] ->
  forall n s cur,
    length s <= n ->
    (forall p q, cur ++ s = p ++ sep ++ q -> length cur <= length p) ->
    exists init final,
      split_go sep 0 cur s = init ++ [final]
      /\ cur ++ s = concat (map (fun r => r ++ sep) init) ++ final
      /\ Forall (fun r => ~ contains sep r) (init ++ [final]).
Proof.
  intros Hsep. induction n as [|n IH]; intros s cur Hn Inv.
  - destruct s; [|simpl in Hn; lia].
    exists [], cur. split; [reflexivity|]. split; [now rewrite app_nil_r|].
    constructor; [|constructor]. intros (p & q & E).
    specialize (Inv p q). rewrite app_nil_r in Inv. specialize (Inv E).
    rewrite E, !length_app in Inv. destruct sep; [congruence|]. simpl in Inv. lia.
  - destruct s as [|x s].
    + exists [], cur. split; [reflexivity|]. split; [now rewrite app_nil_r|].
      constructor; [|constructor]. intros (p & q & E).
      specialize (Inv p q). rewrite app_nil_r in Inv. specialize (Inv E).
      rewrite E, !length_app in Inv. destruct sep; [congruence|]. simpl in Inv. lia.
    + destruct (starts_with sep (x :: s)) eqn:S.
      * apply starts_with_true in S as [r S]. rewrite S.
        rewrite split_go_at_sep by exact Hsep.
        destruct (IH r [] ) as (init & final & E1 & E2 & F).
        { apply (f_equal (@length char)) in S. rewrite length_app in S.
          simpl in S, Hn. destruct sep; [congruence|]. simpl in S. lia. }
        { intros p q _. simpl. lia. }
        exists (cur :: init), final. split; [now rewrite E1|].
        split.
        { cbn [map concat]. simpl in E2. rewrite <- !app_assoc. now rewrite E2. }
        cbn [app]. constructor; [|exact F].
        intros (p & q & E). specialize (Inv p (q ++ x :: s)).
        rewrite E, <- !app_assoc in Inv. specialize (Inv eq_refl).
        rewrite !length_app in Inv. destruct sep; [congruence|]. simpl in Inv. lia.
      * rewrite split_go_step by exact S.
        destruct (IH s (cur ++ [x])) as (init & final & E1 & E2 & F).
        { simpl in Hn. lia. }
        { intros p q E. rewrite <- app_assoc in E. cbn [app] in E.
          pose proof (Inv p q E) as L. rewrite length_app. simpl.
          destruct (Nat.eq_dec (length cur) (length p)) as [L'|L']; [|lia].
          destruct (app_same_length _ _ _ _ E L') as [_ E'].
          assert (T : starts_with sep (x :: s) = true)
            by (apply starts_with_true; now exists q).
          congruence. }
        exists init, final. split; [exact E1|]. split; [|exact F].
        rewrite <- E2, <- app_assoc. reflexivity.
Qed.

Lemma str_split_spec (sep s : str) :
  sep <> [] ->
  exists init final,
    str_split sep s = init ++ [final]
    /\ s = concat (map (fun r => r ++ sep) init) ++ final
    /\ Forall (fun r => ~ contains sep r) (init ++ [final]).
Proof.
  intros H. unfold str_split.
  apply (split_go_spec sep H (length s) s []); [lia|].
  intros p q _. simpl. lia.
Qed.

(** A piece that is free of the first character of the separator is read
    through. *)
Lemma split_go_free (c : char) (sep' x : str) :
  mem c x = false ->
  forall cur r,
    split_go (c :: sep') 0 cur (x ++ r) = split_go (c :: sep') 0 (cur ++ x) r.
Proof.
  induction x as [|a x IH]; intros Hx cur r.
  - now rewrite app_nil_r.
  - apply mem_false_cons in Hx as [Ha Hx]. cbn [app].
    rewrite split_go_step.
    + rewrite IH by exact Hx. now rewrite <- app_assoc.
    + unfold starts_with. cbn [length firstn str_eqb].
      rewrite N.eqb_sym, Ha. reflexivity.
Qed.

Lemma str_split_join (c : char) (sep' : str) (l : list str) :
  l <> [] -> Forall (fun x => mem c x = false) l ->
  str_split (c :: sep') (join (c :: sep') l) = l.
Proof.
  unfold str_split. induction l as [|x l IH]; [congruence|]. intros _ F.
  inversion F as [|x' l' Hx Hl]; subst.
  destruct l as [|y l].
  - cbn [join]. rewrite <- (app_nil_r x) at 1.
    rewrite split_go_free by exact Hx. reflexivity.
  - rewrite join_cons by discriminate.
    rewrite split_go_free by exact Hx. cbn [app].
    change (c :: sep' ++ join (c :: sep') (y :: l))
      with ((c :: sep') ++ join (c :: sep') (y :: l)).
    rewrite split_go_at_sep by discriminate.
    rewrite IH; [reflexivity | discriminate | exact Hl].
Qed.

(** X1. The records that [get_telerama_programs] returns are the pieces of the
    response that the record separator ends: the response is these records,
    each followed by the separator, and then a text without a separator,
    which is dropped; no record holds the separator.  A response without a
    separator gives no record. *)
Theorem telerama_records_prefix (content : str) :
  exists rest,
    content
    = concat (map (fun r => r ++ s_record_separator) (telerama_records content))
      ++ rest
    /\ ~ contains s_record_separator rest
    /\ Forall (fun r => ~ contains s_record_separator r) (telerama_records content)
    /\ (~ contains s_record_separator content -> telerama_records content = []).
Proof.
  destruct (str_split_spec s_record_separator content) as (init & final & E1 & E2 & F);
    [discriminate|].
  unfold telerama_records. rewrite E1, removelast_last.
  exists final. split; [exact E2|].
  apply Forall_app in F as [Fi Ff]. split; [now inversion Ff|].
  split; [exact Fi|].
  intros Hn. destruct init as [|r init]; [reflexivity|].
  exfalso. apply Hn. exists r, (concat (map (fun r => r ++ s_record_separator) init) ++ final).
  rewrite E2. cbn [map concat]. now rewrite <- !app_assoc.
Qed.

(** ** The records that a document needs *)

Lemma programme_fields (france_tz : datetime -> Z) (data : list str)
    (p : element) (log : list str) :
  programme france_tz data = Ok (p, log) -> 13 <= length data.
Proof.
  intros H.
  apply programme_children in H as (times & d0 & d2 & d5 & d6 & d7 & d8 & d10 & d11 & Ht & _).
  unfold program_times in Ht. bind_inv Ht.
  apply item_ok in Ha as [Ha _].
  assert (L : nth_error data 12 <> None) by congruence.
  apply nth_error_Some in L. lia.
Qed.

Lemma Forall2_In_r {A B : Type} (P : A -> B -> Prop) (l : list A) (l' : list B) :
  Forall2 P l l' -> forall y, In y l' -> exists x, In x l /\ P x y.
Proof.
  induction 1 as [|x y l l' Hxy _ IH]; intros z Hz; [contradiction|].
  destruct Hz as [<-|Hz].
  - exists x. split; [now left | exact Hxy].
  - destruct (IH z Hz) as (x' & Hx' & Hp). exists x'. split; [now right | exact Hp].
Qed.

Lemma Forall2_In_l {A B : Type} (P : A -> B -> Prop) (l : list A) (l' : list B) :
  Forall2 P l l' -> forall x, In x l -> exists y, In y l' /\ P x y.
Proof.
  induction 1 as [|x y l l' Hxy _ IH]; intros z Hz; [contradiction|].
  destruct Hz as [<-|Hz].
  - exists y. split; [now left | exact Hxy].
  - destruct (IH z Hz) as (y' & Hy' & Hp). exists y'. split; [now right | exact Hp].
Qed.

(** X2. A document is written only when every record of the feed has its
    thirteen fields: a shorter record ends the run with an exception, the
    records before and after it notwithstanding. *)
Theorem records_have_thirteen_fields (france_tz : datetime -> Z)
    (telerama_programs : list (list str)) (st : grab_state) :
  write_xmltv_data france_tz telerama_programs = Ok st ->
  Forall (fun program => 13 <= length (fields program))
         (concat telerama_programs).
Proof.
  intros H. apply write_xmltv_data_shape in H as (declaring & ps & _ & _ & F).
  apply Forall_forall. intros program Hp.
  destruct (Forall2_In_l _ _ _ F (fields program)) as (p & _ & log & Hprog).
  - now apply in_map.
  - exact (programme_fields france_tz _ p log Hprog).
Qed.

Lemma records_have_thirteen_fields_witness :
  exists st,
    write_xmltv_data europe_paris sample_feed = Ok st
    /\ Forall (fun program => 13 <= length (fields program)) (concat sample_feed).
Proof.
  destruct (write_xmltv_data europe_paris sample_feed) as [st|e] eqn:E.
  - exists st. split; [reflexivity|].
    exact (records_have_thirteen_fields europe_paris sample_feed st E).
  - vm_compute in E. discriminate.
Defined.

(** A record with fewer than thirteen fields raises an exception:
    [IndexError], unless the search of line 235 raises first. *)
Lemma short_record_fails (france_tz : datetime -> Z) (st : grab_state)
    (data : list str) :
  length data < 13 ->
  exists e, process_record france_tz st data = Err e.
Proof.
  intros L. unfold process_record.
  assert (P : programme france_tz data = Err IndexError).
  { unfold programme, program_times, item.
    destruct (nth_error data 12) eqn:E; [|reflexivity].
    assert (N : nth_error data 12 <> None) by congruence.
    apply nth_error_Some in N. lia. }
  destruct (add_channel (root st) data) as [r|e]; cbn [bind].
  - rewrite P. now exists IndexError.
  - now exists e.
Qed.

(** With an identifier without a double quote the exception is
    [IndexError]. *)
Lemma short_record_index_error (france_tz : datetime -> Z) (st : grab_state)
    (data : list str) :
  length data < 13 -> unquoted data ->
  process_record france_tz st data = Err IndexError.
Proof.
  intros L Hq. unfold process_record.
  assert (P : programme france_tz data = Err IndexError).
  { unfold programme, program_times, item.
    destruct (nth_error data 12) eqn:E; [|reflexivity].
    assert (N : nth_error data 12 <> None) by congruence.
    apply nth_error_Some in N. lia. }
  unfold add_channel, item.
  destruct (nth_error data 0) as [d0|] eqn:E0; cbn [bind]; [|reflexivity].
  rewrite root_find_plain.
  - cbn [bind]. destruct (find_channel (root st) (telerama_to_xmltv_id d0)).
    + cbn [bind]. now rewrite P.
    + destruct (nth_error data 1); cbn [bind]; [|reflexivity]. now rewrite P.
  - rewrite mem_quote_channel_id. unfold unquoted in Hq.
    now rewrite (nth_error_nth _ _ _ E0) in Hq.
Qed.

(** ** Programmes and their channels *)

Lemma programme_channel (france_tz : datetime -> Z) (data : list str)
    (p : element) (log : list str) :
  programme france_tz data = Ok (p, log) ->
  get p s_channel = Some (fst (record_channel data)).
Proof.
  unfold programme. intros H.
  bind_inv H. bind_inv H. rename a0 into d0, Ha0 into H0.
  do 8 bind_inv H. injection H as <- _.
  apply item_ok in H0 as [_ H0].
  unfold record_channel. cbn [fst]. rewrite H0. reflexivity.
Qed.

Lemma first_seen_covers (records : list (list str)) :
  forall seen data,
    In data records ->
    In (fst (record_channel data)) (map fst (first_seen seen records)).
Proof.
  induction records as [|d records IH]; intros seen data Hd; [contradiction|].
  destruct Hd as [<-|Hd]; cbn [first_seen].
  - destruct (declared (fst (record_channel d)) seen) eqn:D.
    + destruct (first_seen_extends records seen) as [more ->].
      rewrite map_app, in_app_iff. left.
      destruct (in_dec (list_eq_dec N.eq_dec) (fst (record_channel d)) (map fst seen))
        as [I|I]; [exact I|].
      apply declared_false in I. congruence.
    + destruct (first_seen_extends records (seen ++ [record_channel d])) as [more ->].
      rewrite !map_app, !in_app_iff. left. right. now left.
  - destruct (declared (fst (record_channel d)) seen); now apply IH.
Qed.

(** X3. When no channel identifier of the feed holds a double quote, every
    [programme] element of the document names, in its [channel] attribute,
    the identifier of one [channel] element of the document, and of one
    only: a [channel] element with this [id] and one child [display-name]. *)
Theorem programme_channel_declared (france_tz : datetime -> Z)
    (telerama_programs : list (list str)) (st : grab_state) :
  write_xmltv_data france_tz telerama_programs = Ok st ->
  Forall unquoted (map fields (concat telerama_programs)) ->
  forall p, In p (children (root st)) -> tag p = s_programme ->
    exists channel_id display_name,
      get p s_channel = Some channel_id
      /\ filter (is_channel channel_id) (children (root st))
         = [Element s_channel [(s_id, channel_id)] None
              [Element s_display_name [] (Some display_name) []]].
Proof.
  intros H Hq p Hp Ht.
  apply write_xmltv_data_children in H as (ps & Hc & F); [|exact Hq].
  pose proof (programmes_tag france_tz _ _ F) as Hps.
  rewrite Hc in Hp. apply in_app_iff in Hp as [Hp|Hp].
  - pose proof (channel_of_tag (first_seen_channels
                                  (map fields (concat telerama_programs)))) as T.
    rewrite Forall_forall in T. rewrite (T p Hp) in Ht. discriminate.
  - destruct (Forall2_In_r _ _ _ F p Hp) as (data & Hd & log & Hprog).
    pose proof (first_seen_covers _ [] data Hd) as C.
    apply in_map_iff in C as (ch & Ech & Hch).
    exists (fst (record_channel data)), (snd ch). split.
    + exact (programme_channel france_tz data p log Hprog).
    + rewrite Hc, filter_channels by exact Hps.
      rewrite (filter_unique_key (fst (record_channel data)) _ ch).
      * cbn [map rev app]. unfold channel_of. now rewrite Ech.
      * apply first_seen_nodup. constructor.
      * exact Hch.
      * exact Ech.
Qed.

Lemma programme_channel_declared_witness :
  exists st,
    write_xmltv_data europe_paris sample_feed = Ok st
    /\ Forall unquoted (map fields (concat sample_feed))
    /\ forall p, In p (children (root st)) -> tag p = s_programme ->
         exists channel_id display_name,
           get p s_channel = Some channel_id
           /\ filter (is_channel channel_id) (children (root st))
              = [Element s_channel [(s_id, channel_id)] None
                   [Element s_display_name [] (Some display_name) []]].
Proof.
  destruct (write_xmltv_data europe_paris sample_feed) as [st|e] eqn:E.
  - exists st. split; [reflexivity|]. split; [exact sample_feed_unquoted|].
    exact (programme_channel_declared europe_paris sample_feed st E
             sample_feed_unquoted).
  - vm_compute in E. discriminate.
Defined.

(** A feed whose identifier holds a double quote: the [programme] elements
    name an identifier that the document declares twice. *)
Example programme_channel_quoted :
  exists st,
    write_xmltv_data europe_paris sample_quoted_feed = Ok st
    /\ map (fun p => get p s_channel)
           (filter (has_tag s_programme) (children (root st)))
       = [Some (telerama_to_xmltv_id quoted_id);
          Some (telerama_to_xmltv_id quoted_id)]
    /\ length (filter (is_channel (telerama_to_xmltv_id quoted_id))
                      (children (root st))) = 2.
Proof.
  destruct (write_xmltv_data europe_paris sample_quoted_feed) as [st|e] eqn:E.
  - exists st. split; [reflexivity|].
    vm_compute in E. injection E as <-. split; reflexivity.
  - vm_compute in E. discriminate.
Qed.

(** ** What is written to the standard error *)

Lemma programme_log (france_tz : datetime -> Z) (data : list str)
    (p : element) (log : list str) :
  programme france_tz data = Ok (p, log) ->
  log = snd (translate_categories (nth 5 data [])).
Proof.
  unfold programme. intros H.
  do 5 bind_inv H. bind_inv H. rename a4 into d5, Ha4 into H5.
  do 4 bind_inv H. injection H as _ <-.
  apply item_ok in H5 as [_ H5]. now rewrite H5.
Qed.

Lemma process_records_stderr (france_tz : datetime -> Z)
    (records : list (list str)) :
  forall st st',
    process_records france_tz st records = Ok st' ->
    stderr st'
    = stderr st
      ++ flat_map (fun data => snd (translate_categories (nth 5 data []))) records.
Proof.
  induction records as [|data records IH]; intros st st' H.
  - injection H as <-. now rewrite app_nil_r.
  - cbn [process_records] in H. bind_inv H.
    unfold process_record in Ha. bind_inv Ha. bind_inv Ha.
    injection Ha as <-. destruct a1 as [p log].
    rewrite (IH _ _ H). cbn [stderr snd flat_map].
    rewrite (programme_log france_tz data p log Ha1). now rewrite <- app_assoc.
Qed.

(** X4. When a document is written, the standard error holds one line
    [Unmanaged category: c] for every record whose category [c] is not a key
    of the table, in the order of the records, and nothing else: a category
    that the table translates to the empty text is not reported, and an
    empty category is. *)
Theorem stderr_unmanaged_categories (france_tz : datetime -> Z)
    (telerama_programs : list (list str)) (st : grab_state) :
  write_xmltv_data france_tz telerama_programs = Ok st ->
  stderr st
  = map (fun data => s_unmanaged ++ nth 5 data [])
        (filter (fun data => negb (existsb (str_eqb (nth 5 data []))
                                           (map fst categories)))
                (map fields (concat telerama_programs))).
Proof.
  intros H. unfold write_xmltv_data in H.
  rewrite (process_records_stderr france_tz _ _ _ H). cbn [stderr app].
  clear H. induction (map fields (concat telerama_programs)) as [|data records IH];
    [reflexivity|].
  cbn [flat_map filter]. rewrite IH. clear IH.
  unfold translate_categories.
  assert (K : forall d key,
             dict_get d key = None <-> existsb (str_eqb key) (map fst d) = false).
  { induction d as [|[k v] d IHd]; intros key; cbn [dict_get map fst existsb];
      [tauto|].
    destruct (str_eqb k key) eqn:E.
    - apply str_eqb_eq in E as ->. rewrite str_eqb_refl. cbn. split; discriminate.
    - assert (E' : str_eqb key k = false).
      { apply str_eqb_neq. apply str_eqb_neq in E. congruence. }
      rewrite E'. cbn. apply IHd. }
  match goal with
  | |- context [existsb ?f ?l] => destruct (existsb f l) eqn:X
  end.
  - match goal with
    | |- context [dict_get ?d ?k] => destruct (dict_get d k) eqn:D
    end; [reflexivity|].
    apply K in D. unfold str in *. congruence.
  - apply K in X. unfold str in *. rewrite X. reflexivity.
Qed.

Lemma stderr_unmanaged_categories_witness :
  exists st,
    write_xmltv_data europe_paris sample_feed = Ok st /\ stderr st = [].
Proof.
  destruct (write_xmltv_data europe_paris sample_feed) as [st|e] eqn:E.
  - exists st. split; [reflexivity|].
    rewrite (stderr_unmanaged_categories europe_paris sample_feed st E).
    reflexivity.
  - vm_compute in E. discriminate.
Defined.

(** ** The shape of a programme *)

Lemma subseq_tail (x : str) (a b : list str) :
  subseq (x :: a) b = true -> subseq a b = true.
Proof.
  revert a x; induction b as [|y b IH]; intros a x H; [discriminate|].
  cbn [subseq] in H. destruct a as [|z a]; [reflexivity|].
  cbn [subseq]. destruct (str_eqb x y).
  - destruct (str_eqb z y); [now apply (IH a z) | exact H].
  - destruct (str_eqb z y); [apply (IH a z) | ]; now apply (IH _ x).
Qed.

Lemma subseq_cons_r (y : str) (a b : list str) :
  subseq a b = true -> subseq a (y :: b) = true.
Proof.
  destruct a as [|x a]; [reflexivity|]. intros H. cbn [subseq].
  destruct (str_eqb x y); [now apply (subseq_tail x) | exact H].
Qed.

Lemma subseq_app_r (a pre b : list str) :
  subseq a b = true -> subseq a (pre ++ b) = true.
Proof.
  intros H. induction pre as [|y pre IH]; [exact H|].
  cbn [app]. now apply subseq_cons_r.
Qed.

Lemma subseq_app (a1 a2 b1 b2 : list str) :
  subseq a1 b1 = true -> subseq a2 b2 = true ->
  subseq (a1 ++ a2) (b1 ++ b2) = true.
Proof.
  revert a1; induction b1 as [|y b1 IH]; intros a1 H1 H2.
  - destruct a1; [exact H2 | discriminate].
  - destruct a1 as [|x a1].
    + cbn [app]. apply subseq_cons_r. now apply subseq_app_r.
    + cbn [app subseq] in *. destruct (str_eqb x y).
      * now apply IH.
      * now apply (IH (x :: a1)).
Qed.

Lemma subseq_In (a b : list str) :
  subseq a b = true -> forall x, In x a -> In x b.
Proof.
  revert a; induction b as [|y b IH]; intros [|z a] H x Hx;
    try contradiction; try discriminate.
  cbn [subseq] in H. destruct (str_eqb z y) eqn:E.
  - apply str_eqb_eq in E as ->. destruct Hx as [<-|Hx]; [now left|].
    right. now apply (IH a).
  - right. now apply (IH (z :: a)).
Qed.

Lemma filter_outside (t : str) (l : list element) (slot : list str) :
  subseq (map tag l) slot = true -> existsb (str_eqb t) slot = false ->
  filter (has_tag t) l = [].
Proof.
  intros S X. apply filter_none. intros e He. unfold has_tag.
  apply str_eqb_neq. intros E.
  assert (I : In t slot).
  { apply (subseq_In _ _ S). rewrite <- E. now apply in_map. }
  assert (X' : existsb (str_eqb t) slot = true).
  { apply existsb_exists. exists t. split; [exact I | apply str_eqb_refl]. }
  congruence.
Qed.

Ltac section_tags f :=
  unfold f;
  repeat match goal with
         | |- context [if ?b then _ else _] => destruct b
         | |- context [match ?o with Some _ => _ | None => _ end] => destruct o
         end; reflexivity.

(** The children of a programme: the title, the children of lines 271-358,
    the icon, and the children of lines 368-462. *)
Lemma programme_sections (france_tz : datetime -> Z) (data : list str)
    (p : element) (log : list str) :
  programme france_tz data = Ok (p, log) ->
  exists title before icon after,
    children p = title :: before ++ icon :: after
    /\ tag title = s_title /\ tag icon = s_icon
    /\ subseq (map tag before)
         [s_sub_title; s_desc; s_credits; s_date;
          s_category; s_category; s_category] = true
    /\ subseq (map tag after)
         [s_episode_num; s_audio; s_previously_shown; s_premiere;
          s_subtitles; s_rating; s_star_rating; s_review] = true.
Proof.
  intros H.
  apply programme_children in H
    as (times & d0 & d2 & d5 & d6 & d7 & d8 & d10 & d11 & _ & _ & _ & _ & _
        & _ & _ & _ & _ & ->).
  exists (text_element s_title [] d2),
    (labelled_xml s_sub_title l_sous_titre d7 ++ desc_xml d6 ++ credits_xml d7
     ++ labelled_xml s_date l_annee d7 ++ categories_xml d5 d7),
    (empty_element s_icon [(s_src, icon_src (fst times) d0)]),
    (episodenum_xml d7 ++ audio_xml d7 ++ previously_shown_xml d7
     ++ premiere_xml d7 ++ subtitles_xml d7 ++ rating_xml d8
     ++ starrating_xml d10 ++ review_xml d11).
  split; [cbn [app]; repeat (rewrite <- app_assoc; cbn [app]); reflexivity|].
  split; [reflexivity|]. split; [reflexivity|]. split.
  - rewrite !map_app.
    apply (subseq_app _ _ [s_sub_title]); [section_tags labelled_xml|].
    apply (subseq_app _ _ [s_desc]); [section_tags desc_xml|].
    apply (subseq_app _ _ [s_credits]); [section_tags credits_xml|].
    apply (subseq_app _ _ [s_date]); [section_tags labelled_xml|].
    section_tags categories_xml.
  - rewrite !map_app.
    apply (subseq_app _ _ [s_episode_num]); [section_tags episodenum_xml|].
    apply (subseq_app _ _ [s_audio]); [section_tags audio_xml|].
    apply (subseq_app _ _ [s_previously_shown]); [section_tags previously_shown_xml|].
    apply (subseq_app _ _ [s_premiere]); [section_tags premiere_xml|].
    apply (subseq_app _ _ [s_subtitles]); [section_tags subtitles_xml|].
    apply (subseq_app _ _ [s_rating]); [section_tags rating_xml|].
    apply (subseq_app _ _ [s_star_rating]); [section_tags starrating_xml|].
    section_tags review_xml.
Qed.

(** X5. The children of a [programme] element come in one fixed order of tags:
    title, sub-title, desc, credits, date, up to three categories, icon,
    episode-num, audio, previously-shown, premiere, subtitles, rating,
    star-rating, review.  Each of them occurs at most once, the category
    at most three times, and the title and the icon exactly once. *)
Theorem programme_children_order (france_tz : datetime -> Z) (data : list str)
    (p : element) (log : list str) :
  programme france_tz data = Ok (p, log) ->
  subseq (map tag (children p)) programme_child_tags = true
  /\ length (filter (has_tag s_title) (children p)) = 1
  /\ length (filter (has_tag s_icon) (children p)) = 1.
Proof.
  intros H.
  apply programme_sections in H
    as (title & before & icon & after & -> & Tt & Ti & Sb & Sa).
  split; [|split].
  - cbn [map]. rewrite map_app. cbn [map]. rewrite Tt, Ti.
    apply (subseq_app [s_title] _ [s_title]); [reflexivity|].
    apply (subseq_app _ _
             [s_sub_title; s_desc; s_credits; s_date;
              s_category; s_category; s_category]); [exact Sb|].
    apply (subseq_app [s_icon] _ [s_icon]); [reflexivity | exact Sa].
  - assert (H1 : has_tag s_title title = true)
      by (unfold has_tag; rewrite Tt; reflexivity).
    assert (H2 : has_tag s_title icon = false)
      by (unfold has_tag; rewrite Ti; reflexivity).
    cbn [filter]. rewrite H1, filter_app. cbn [filter]. rewrite H2.
    rewrite (filter_outside s_title before _ Sb eq_refl).
    rewrite (filter_outside s_title after _ Sa eq_refl). reflexivity.
  - assert (H1 : has_tag s_icon title = false)
      by (unfold has_tag; rewrite Tt; reflexivity).
    assert (H2 : has_tag s_icon icon = true)
      by (unfold has_tag; rewrite Ti; reflexivity).
    cbn [filter]. rewrite H1, filter_app. cbn [filter]. rewrite H2.
    rewrite (filter_outside s_icon before _ Sb eq_refl).
    rewrite (filter_outside s_icon after _ Sa eq_refl). reflexivity.
Qed.

Lemma programme_children_order_witness :
  exists p log,
    programme europe_paris (fields sample_film) = Ok (p, log)
    /\ subseq (map tag (children p)) programme_child_tags = true
    /\ length (filter (has_tag s_title) (children p)) = 1
    /\ length (filter (has_tag s_icon) (children p)) = 1.
Proof.
  destruct (programme europe_paris (fields sample_film)) as [[p log]|e] eqn:E.
  - exists p, log. split; [reflexivity|].
    exact (programme_children_order europe_paris (fields sample_film) p log E).
  - vm_compute in E. discriminate.
Defined.

(** X6. Lines 390-399 build a [video] element with the aspect ratio and the
    quality of the record, and no line appends it: no child of a
    [programme] element is a [video] element. *)
Theorem video_never_emitted (france_tz : datetime -> Z) (data : list str)
    (p : element) (log : list str) :
  programme france_tz data = Ok (p, log) ->
  exists details video,
    nth_error data 7 = Some details
    /\ video_xml details = Ok video
    /\ tag video = s_video
    /\ filter (has_tag s_video) (children p) = [].
Proof.
  intros H. pose proof H as Hs.
  apply programme_sections in Hs
    as (title & before & icon & after & Hc & Tt & Ti & Sb & Sa).
  unfold programme in H.
  bind_inv H. rename a into times, Ha into Ht.
  bind_inv H. rename a into d0, Ha into H0.
  bind_inv H. rename a into d7, Ha into H7.
  bind_inv H. rename a into d2, Ha into H2.
  bind_inv H. rename a into d6, Ha into H6.
  bind_inv H. rename a into d5, Ha into H5.
  bind_inv H. rename a into video, Ha into Hv.
  apply item_ok in H7 as [H7 _].
  exists d7, video. split; [exact H7|]. split; [exact Hv|]. split.
  - unfold video_xml in Hv. destruct (re_search aspect_re d7); [|discriminate].
    injection Hv as <-. reflexivity.
  - assert (K1 : has_tag s_video title = false)
      by (unfold has_tag; rewrite Tt; reflexivity).
    assert (K2 : has_tag s_video icon = false)
      by (unfold has_tag; rewrite Ti; reflexivity).
    rewrite Hc. cbn [filter]. rewrite K1, filter_app. cbn [filter]. rewrite K2.
    rewrite (filter_outside s_video before _ Sb eq_refl).
    rewrite (filter_outside s_video after _ Sa eq_refl). reflexivity.
Qed.

Lemma video_never_emitted_witness :
  exists p log,
    programme europe_paris (fields sample_film) = Ok (p, log)
    /\ exists details video,
         nth_error (fields sample_film) 7 = Some details
         /\ video_xml details = Ok video
         /\ tag video = s_video
         /\ filter (has_tag s_video) (children p) = [].
Proof.
  destruct (programme europe_paris (fields sample_film)) as [[p log]|e] eqn:E.
  - exists p, log. split; [reflexivity|].
    exact (video_never_emitted europe_paris (fields sample_film) p log E).
  - vm_compute in E. discriminate.
Defined.

(** ** The configuration file *)

Lemma mem_app (x : char) (p q : str) : mem x (p ++ q) = mem x p || mem x q.
Proof. apply existsb_app. Qed.

Lemma free_of_any (c : str) : mem newline c = false <-> all_in CAny c = true.
Proof.
  unfold mem, all_in. induction c as [|x c IH]; cbn [existsb forallb in_cset];
    [tauto|].
  rewrite orb_false_iff, andb_true_iff, IH, N.eqb_sym, negb_true_iff. tauto.
Qed.

Lemma file_lines_go_line (x : str) :
  mem newline x = false -> mem carriage_return x = false ->
  forall cur rest,
    file_lines_go cur (x ++ newline :: rest)
    = (cur ++ x ++ [newline]) :: file_lines_go [] rest.
Proof.
  induction x as [|a x IH]; intros Hn Hr cur rest.
  - reflexivity.
  - apply mem_false_cons in Hn as [Hn Hn'], Hr as [Hr Hr'].
    cbn [app file_lines_go]. rewrite N.eqb_sym, Hn, N.eqb_sym, Hr.
    rewrite (IH Hn' Hr'). now rewrite <- app_assoc.
Qed.

Lemma file_lines_write (channels : list str) :
  Forall (fun c => free_of newline c /\ free_of carriage_return c) channels ->
  file_lines (write_configuration channels)
  = map (fun c => s_channel_eq ++ c ++ [newline]) channels.
Proof.
  unfold file_lines, write_configuration.
  induction 1 as [|c channels [Hn Hr] _ IH]; [reflexivity|].
  cbn [map concat]. rewrite <- !app_assoc. cbn [app].
  rewrite app_assoc.
  rewrite file_lines_go_line.
  - rewrite IH. cbn [app]. now rewrite <- app_assoc.
  - rewrite mem_app. unfold free_of in Hn. rewrite Hn. reflexivity.
  - rewrite mem_app. unfold free_of in Hr. rewrite Hr. reflexivity.
Qed.

(** A line [channel=c], with or without its newline, gives [c]. *)
Lemma search_config_line_channel (c tl : str) :
  all_in CAny c = true -> tl = [] \/ tl = [newline] ->
  exists m, search_config_line (s_channel_eq ++ c ++ tl) = Some m
            /\ group_str m 1 = c.
Proof.
  intros Hc Hr. unfold search_config_line, config_line_re.
  rewrite rmatch_Group, rmatch_Seq. cbn [rest caps prev].
  rewrite rmatch_Lit, rmatch_Group, rmatch_Star. cbn [rest caps prev].
  eexists. split.
  - apply star_greedy; [exact Hc | destruct Hr as [->| ->]; reflexivity|].
    cbn [rest caps prev]. rewrite firstn_consumed.
    assert (E : at_end tl = true) by (destruct Hr as [->| ->]; reflexivity).
    rewrite E. unfold accept. cbn [rest caps]. reflexivity.
  - reflexivity.
Qed.

(** Whatever the line, a match reads [channel=] at its start, then the
    channel, which holds no newline, up to the end of the line. *)
Lemma search_config_line_sound (l : str) (m : match_object) :
  search_config_line l = Some m ->
  exists tl,
    l = s_channel_eq ++ group_str m 1 ++ tl
    /\ all_in CAny (group_str m 1) = true /\ at_end tl = true.
Proof.
  unfold search_config_line, config_line_re. intros H.
  apply rmatch_sound in H as (st' & M & K).
  destruct (at_end (rest st')) eqn:E; [|discriminate].
  unfold accept in K. injection K as <-.
  apply Matches_Group_inv in M as (st1 & M & _ & R1 & C1).
  apply Matches_Seq_inv in M as (st2 & M2 & M).
  apply Matches_Lit_inv in M2 as (R2 & C2 & _).
  apply Matches_Group_inv in M as (st3 & M & _ & R3 & C3).
  apply Matches_Star_inv in M as (xs & R4 & A4 & C4 & _).
  cbn [rest caps] in *.
  rewrite R4, firstn_consumed in C3.
  exists (rest st'). unfold group_str, group. cbn [fst].
  rewrite C1, C3. cbn [lookup_group Nat.eqb].
  split; [|split; [exact A4 | exact E]].
  rewrite R2, R4, R1, R3. reflexivity.
Qed.

Lemma file_lines_go_shape (s : str) :
  forall cur,
    mem carriage_return cur = false ->
    Forall (fun l => mem carriage_return l = false) (file_lines_go cur s).
Proof.
  induction s as [|x s IH]; intros cur Hc; cbn [file_lines_go].
  - destruct cur; constructor; [exact Hc | constructor].
  - assert (Hl : mem carriage_return (cur ++ [newline]) = false)
      by (rewrite mem_app, Hc; reflexivity).
    destruct (N.eqb x newline) eqn:En.
    + constructor; [exact Hl | now apply IH].
    + destruct (N.eqb x carriage_return) eqn:Er.
      * destruct s as [|y s'].
        { constructor; [exact Hl | constructor]. }
        destruct (N.eqb y newline) eqn:Ey.
        { constructor; [exact Hl|].
          specialize (IH [] eq_refl). cbn [file_lines_go] in IH.
          rewrite Ey in IH. now inversion IH. }
        { constructor; [exact Hl | now apply IH]. }
      * apply IH. rewrite mem_app, Hc. cbn [mem existsb].
        rewrite N.eqb_sym, Er. reflexivity.
Qed.

(** No channel that [load_configuration] returns holds a line break. *)
Lemma load_configuration_free (content : str) :
  Forall (fun c => free_of newline c /\ free_of carriage_return c)
         (load_configuration content).
Proof.
  unfold load_configuration, file_lines.
  pose proof (file_lines_go_shape content [] eq_refl) as S.
  induction S as [|l ls Hl _ IH]; [constructor|].
  cbn [flat_map].
  destruct (search_config_line l) as [m|] eqn:E; [|exact IH].
  cbn [app]. constructor; [|exact IH].
  apply search_config_line_sound in E as (rest' & El & A & _).
  split.
  - now apply free_of_any.
  - unfold free_of. rewrite El, !mem_app in Hl.
    apply orb_false_iff in Hl as [_ Hl]. now apply orb_false_iff in Hl as [Hl _].
Qed.

Lemma load_write_configuration (channels : list str) :
  Forall (fun c => free_of newline c /\ free_of carriage_return c) channels ->
  load_configuration (write_configuration channels) = channels.
Proof.
  intros F. unfold load_configuration. rewrite (file_lines_write channels F).
  induction F as [|c channels [Hn Hr] _ IH]; [reflexivity|].
  cbn [map flat_map].
  destruct (search_config_line_channel c [newline]) as (m & -> & ->);
    [now apply free_of_any | now right|].
  cbn [app]. now rewrite IH.
Qed.

(** X7. The channels written by [write_configuration] are the channels that
    [load_configuration] reads back from the file, in the same order,
    exactly when no channel holds a newline or a carriage return. *)
Theorem configuration_round_trip (channels : list str) :
  load_configuration (write_configuration channels) = channels
  <-> Forall (fun c => free_of newline c /\ free_of carriage_return c) channels.
Proof.
  split.
  - intros <-. apply load_configuration_free.
  - apply load_write_configuration.
Qed.

(** ** The available channels *)

Lemma dict_get_set (d : list (str * str)) (k v key : str) :
  dict_get (dict_set d k v) key
  = if str_eqb k key then Some v else dict_get d key.
Proof.
  induction d as [|[k' v'] d IH]; cbn [dict_set dict_get]; [reflexivity|].
  destruct (str_eqb k' k) eqn:E; cbn [dict_get].
  - apply str_eqb_eq in E as ->. now destruct (str_eqb k key).
  - rewrite IH. destruct (str_eqb k' key) eqn:E'; [|reflexivity].
    apply str_eqb_eq in E' as ->.
    assert (E2 : str_eqb k key = false).
    { apply str_eqb_neq. apply str_eqb_neq in E. congruence. }
    now rewrite E2.
Qed.

Lemma dict_get_app (a b : list (str * str)) (key : str) :
  dict_get (a ++ b) key
  = match dict_get a key with
    | Some v => Some v
    | None => dict_get b key
    end.
Proof.
  induction a as [|[k v] a IH]; cbn [app dict_get]; [reflexivity|].
  now destruct (str_eqb k key).
Qed.

Lemma dict_set_keys (d : list (str * str)) (k v : str) :
  map fst (dict_set d k v)
  = if existsb (str_eqb k) (map fst d) then map fst d else map fst d ++ [k].
Proof.
  induction d as [|[k' v'] d IH]; cbn [dict_set map fst existsb]; [reflexivity|].
  destruct (str_eqb k' k) eqn:E.
  - apply str_eqb_eq in E as ->. now rewrite str_eqb_refl.
  - assert (E2 : str_eqb k k' = false).
    { apply str_eqb_neq. apply str_eqb_neq in E. congruence. }
    rewrite E2. cbn [map fst orb]. rewrite IH.
    now destruct (existsb (str_eqb k) (map fst d)).
Qed.

Lemma dict_set_nodup (d : list (str * str)) (k v : str) :
  NoDup (map fst d) -> NoDup (map fst (dict_set d k v)).
Proof.
  intros H. rewrite dict_set_keys.
  destruct (existsb (str_eqb k) (map fst d)) eqn:E; [exact H|].
  apply NoDup_app; [exact H | repeat constructor; simpl; tauto|].
  intros x Hx [->|[]].
  assert (T : existsb (str_eqb x) (map fst d) = true).
  { apply existsb_exists. exists x. split; [exact Hx | apply str_eqb_refl]. }
  congruence.
Qed.

Lemma dict_set_Forall (P : str * str -> Prop) (d : list (str * str)) (k v : str) :
  Forall P d -> P (k, v) -> Forall P (dict_set d k v).
Proof.
  intros H Hk. induction H as [|[k' v'] d Hd Hr IH]; cbn [dict_set].
  - constructor; [exact Hk | constructor].
  - destruct (str_eqb k' k) eqn:E.
    + apply str_eqb_eq in E as ->. constructor; [exact Hk | exact Hr].
    + constructor; [exact Hd | exact IH].
Qed.

Lemma available_channels_keys (response : str) :
  NoDup (map fst (get_available_channels response))
  /\ Forall (fun ch => (exists native, fst ch = telerama_to_xmltv_id native)
                       /\ snd ch <> [])
            (get_available_channels response).
Proof.
  unfold get_available_channels.
  set (P := fun ch : str * str =>
              (exists native, fst ch = telerama_to_xmltv_id native) /\ snd ch <> []).
  assert (G : forall pieces d,
             NoDup (map fst d) /\ Forall P d ->
             NoDup (map fst (fold_left channel_entry pieces d))
             /\ Forall P (fold_left channel_entry pieces d)).
  { induction pieces as [|i pieces IH]; intros d Hd; [exact Hd|].
    cbn [fold_left]. apply IH. unfold channel_entry.
    destruct (str_split s_field_separator i) as [|c0 [|c1 [|c2 l]]]; try exact Hd.
    destruct (str_eqb c1 []) eqn:E; [exact Hd|].
    destruct Hd as [N F]. split; [now apply dict_set_nodup|].
    apply dict_set_Forall; [exact F|]. split.
    - now exists c0.
    - now apply str_eqb_neq in E. }
  apply G. split; constructor.
Qed.

(** X8. Whatever the response, the identifiers of the available channels are
    namespaced and pairwise distinct, and no channel has an empty name. *)
Theorem get_available_channels_invariant (response : str) :
  NoDup (map fst (get_available_channels response))
  /\ Forall (fun ch => (exists native, fst ch = telerama_to_xmltv_id native)
                       /\ snd ch <> [])
            (get_available_channels response).
Proof. apply available_channels_keys. Qed.

Lemma fold_dict_set (es : list (str * str)) :
  forall d key,
    dict_get (fold_left (fun d e => dict_set d (fst e) (snd e)) es d) key
    = match dict_get (rev es) key with
      | Some v => Some v
      | None => dict_get d key
      end.
Proof.
  induction es as [|[k v] es IH]; intros d key; cbn [fold_left rev fst snd];
    [reflexivity|].
  rewrite IH, dict_get_app, dict_get_set. cbn [dict_get].
  destruct (dict_get (rev es) key); [reflexivity|].
  now destruct (str_eqb k key).
Qed.

Lemma plain_entry (e : str * str) :
  plain (fst e) -> plain (snd e) ->
  mem 58%N (fst e ++ s_field_separator ++ snd e) = false.
Proof.
  intros [H1 _] [H2 _]. unfold free_of in *. rewrite !mem_app, H1, H2. reflexivity.
Qed.

Lemma channel_entry_plain (d : list (str * str)) (e : str * str) :
  plain (fst e) -> plain (snd e) -> snd e <> [] ->
  channel_entry d (fst e ++ s_field_separator ++ snd e)
  = dict_set d (telerama_to_xmltv_id (fst e)) (snd e).
Proof.
  intros [_ H1] [_ H2] Hn. unfold channel_entry.
  assert (J : str_split s_field_separator (fst e ++ s_field_separator ++ snd e)
              = [fst e; snd e]).
  { apply (str_split_join 36%N [36%N; 36%N] [fst e; snd e]);
      [discriminate | repeat constructor; assumption]. }
  rewrite J. apply str_eqb_neq in Hn. now rewrite Hn.
Qed.

Lemma fold_channel_entry (es : list (str * str)) :
  Forall (fun e => plain (fst e) /\ plain (snd e) /\ snd e <> []) es ->
  forall d,
    fold_left channel_entry
      (map (fun e => fst e ++ s_field_separator ++ snd e) es) d
    = fold_left (fun d e => dict_set d (fst e) (snd e)) (namespaced es) d.
Proof.
  induction 1 as [|e es (H1 & H2 & H3) _ IH]; intros d; [reflexivity|].
  cbn [map fold_left namespaced fst snd].
  rewrite channel_entry_plain by assumption. apply IH.
Qed.

Lemma channels_feed_join (entries : list (str * str)) (e : str * str) :
  channels_feed (entries ++ [e])
  = join s_record_separator
      (map (fun e => fst e ++ s_field_separator ++ snd e) (entries ++ [e]))
    ++ s_record_separator.
Proof.
  unfold channels_feed. rewrite !map_app. cbn [map].
  rewrite join_concat, concat_app. cbn [concat].
  rewrite map_map, app_nil_r, <- !app_assoc.
  f_equal.
  - f_equal. apply map_ext. intros a. now rewrite <- !app_assoc.
Qed.

Lemma channels_feed_pieces (entries : list (str * str)) :
  channels_feed entries
  = join s_record_separator
      (map (fun e => fst e ++ s_field_separator ++ snd e) entries ++ [[]]).
Proof.
  rewrite join_concat, app_nil_r, map_map. unfold channels_feed.
  f_equal. apply map_ext. intros a. now rewrite <- !app_assoc.
Qed.

Lemma drop_last_app (x y : str) : drop_last (length y) (x ++ y) = x.
Proof. unfold drop_last. apply firstn_consumed. Qed.

Lemma pieces_plain (entries : list (str * str)) :
  Forall (fun e => plain (fst e) /\ plain (snd e) /\ snd e <> []) entries ->
  Forall (fun x => mem 58%N x = false)
         (map (fun e => fst e ++ s_field_separator ++ snd e) entries).
Proof.
  induction 1 as [|e es (H1 & H2 & _) _ IH]; constructor; [|exact IH].
  now apply plain_entry.
Qed.

(** X9. A response made of entries [id$$$name], each followed by the record
    separator: the name found for an identifier is the name of the last
    entry with this identifier, and the last entry of the response is not
    read, because the function drops the last five characters of the
    response and then the last piece of what is left.  When five more
    characters follow the last separator, every entry is read. *)
Theorem get_available_channels_feed (entries : list (str * str)) :
  Forall (fun e => plain (fst e) /\ plain (snd e) /\ snd e <> []) entries ->
  (forall key,
      dict_get (get_available_channels (channels_feed entries)) key
      = dict_get (rev (namespaced (removelast entries))) key)
  /\ (forall more key,
        length more = 5 ->
        dict_get (get_available_channels (channels_feed entries ++ more)) key
        = dict_get (rev (namespaced entries)) key).
Proof.
  intros F. split.
  - intros key. unfold get_available_channels.
    destruct entries as [|e0 es0]; [reflexivity|].
    destruct (@exists_last _ (e0 :: es0)) as (es & e & E); [discriminate|].
    rewrite E in *. rewrite channels_feed_join.
    change 5 with (length s_record_separator). rewrite drop_last_app.
    assert (J : str_split s_record_separator
                  (join s_record_separator
                     (map (fun e => fst e ++ s_field_separator ++ snd e)
                          (es ++ [e])))
                = map (fun e => fst e ++ s_field_separator ++ snd e) (es ++ [e])).
    { apply (str_split_join 58%N [36%N; 36%N; 36%N; 58%N]).
      - rewrite map_app. intros C. apply app_eq_nil in C as [_ C]. discriminate.
      - now apply pieces_plain. }
    rewrite J, map_app. cbn [map]. rewrite !removelast_last.
    apply Forall_app in F as [F _].
    rewrite (fold_channel_entry es F), fold_dict_set. cbn [dict_get].
    now destruct (dict_get (rev (namespaced es)) key).
  - intros more key L. unfold get_available_channels.
    rewrite <- L, drop_last_app, channels_feed_pieces.
    assert (J : str_split s_record_separator
                  (join s_record_separator
                     (map (fun e => fst e ++ s_field_separator ++ snd e) entries
                      ++ [[]]))
                = map (fun e => fst e ++ s_field_separator ++ snd e) entries ++ [[]]).
    { apply (str_split_join 58%N [36%N; 36%N; 36%N; 58%N]).
      - intros C. apply app_eq_nil in C as [_ C]. discriminate.
      - apply Forall_app. split; [now apply pieces_plain|].
        constructor; [reflexivity | constructor]. }
    rewrite J, removelast_last.
    rewrite (fold_channel_entry entries F), fold_dict_set. cbn [dict_get].
    now destruct (dict_get (rev (namespaced entries)) key).
Qed.

Lemma get_available_channels_feed_witness :
  dict_get (get_available_channels
              (channels_feed [(py "1", py "TF1"); (py "2", py "France 2");
                              (py "1", py "TF1 HD"); (py "3", py "France 3")]))
           (telerama_to_xmltv_id (py "1"))
  = Some (py "TF1 HD")
  /\ dict_get (get_available_channels
                 (channels_feed [(py "1", py "TF1"); (py "2", py "France 2");
                                 (py "1", py "TF1 HD"); (py "3", py "France 3")]))
              (telerama_to_xmltv_id (py "3"))
     = None.
Proof.
  assert (F : Forall (fun e => plain (fst e) /\ plain (snd e) /\ snd e <> [])
                [(py "1", py "TF1"); (py "2", py "France 2");
                 (py "1", py "TF1 HD"); (py "3", py "France 3")]).
  { repeat constructor; discriminate. }
  destruct (get_available_channels_feed _ F) as [H _].
  split; rewrite H; reflexivity.
Defined.

(** ** The dialogue of [configure] *)

Lemma ask_valid (prompt l : str) (inp : list str) (out : str) :
  valid_answer (strip l) = true ->
  ask prompt (l :: inp) out = Some (strip l, mk_console inp (out ++ prompt)).
Proof. intros H. cbn [ask]. now rewrite H. Qed.

Lemma plain_answer_valid (l : str) :
  plain_answer l = true ->
  valid_answer (strip l) = true
  /\ str_eqb (strip l) s_all = false /\ str_eqb (strip l) s_none = false.
Proof.
  unfold plain_answer, valid_answer. cbn [existsb]. intros H.
  repeat (apply orb_true_iff in H as [H|H]); try discriminate;
    apply str_eqb_eq in H; rewrite H; repeat split; reflexivity.
Qed.

Lemma configure_loop_app (a b : list (str * str)) :
  forall st,
    configure_loop st (a ++ b)
    = match configure_loop st a with
      | Some st' => configure_loop st' b
      | None => None
      end.
Proof.
  induction a as [|ch a IH]; intros st; [reflexivity|].
  cbn [app configure_loop]. destruct (configure_body st ch); [apply IH | reflexivity].
Qed.

(** Channels answered one by one. *)
Lemma configure_loop_plain (available : list (str * str)) :
  forall answers more st,
    length answers = length available ->
    forallb plain_answer answers = true ->
    select_all st = false -> select_none st = false ->
    stdin (term st) = answers ++ more ->
    exists st',
      configure_loop st available = Some st'
      /\ channels st' = channels st ++ answered_yes available answers
      /\ select_all st' = false /\ select_none st' = false
      /\ stdin (term st') = more.
Proof.
  induction available as [|ch available IH]; intros answers more st L P Ha Hn Hi.
  - destruct answers; [|discriminate]. exists st.
    unfold answered_yes. cbn. rewrite app_nil_r. repeat split; assumption.
  - destruct answers as [|l answers]; [discriminate|].
    cbn [forallb] in P. apply andb_true_iff in P as [Pl P].
    destruct (plain_answer_valid l Pl) as (V & Nall & Nnone).
    cbn [configure_loop]. unfold configure_body.
    rewrite Ha, Hn, Hi. cbn [negb andb app].
    rewrite (ask_valid _ l _ _ V). cbn [select_all select_none answer channels term stdin stdout].
    rewrite Nall, Nnone. cbn [orb].
    match goal with
    | |- exists st', configure_loop ?s _ = _ /\ _ =>
        destruct (IH answers more s) as (st' & E & C & A' & N' & I')
    end; try reflexivity.
    + simpl in L. lia.
    + exact P.
    + exists st'. split; [exact E|]. split; [|repeat split; assumption].
      rewrite C. cbn [channels]. unfold answered_yes. cbn [combine filter snd].
      destruct (str_eqb (strip l) s_yes); cbn [map fst];
        [now rewrite <- app_assoc | reflexivity].
Qed.

(** After the answer [all], every channel is taken and nothing is read. *)
Lemma configure_loop_all (available : list (str * str)) :
  forall st,
    select_all st = true ->
    exists st',
      configure_loop st available = Some st'
      /\ channels st' = channels st ++ map fst available
      /\ stdin (term st') = stdin (term st).
Proof.
  induction available as [|ch available IH]; intros st Ha.
  - exists st. cbn. now rewrite app_nil_r.
  - cbn [configure_loop]. unfold configure_body. rewrite Ha. cbn [negb andb orb].
    rewrite Ha. cbn [orb].
    match goal with
    | |- exists st', configure_loop ?s _ = _ /\ _ =>
        destruct (IH s) as (st' & E & C & I')
    end; [reflexivity|].
    exists st'. split; [exact E|]. rewrite C, I'. cbn [channels term stdin map].
    now rewrite <- app_assoc.
Qed.

(** After the answer [none], no channel is taken and nothing is read. *)
Lemma configure_loop_none (available : list (str * str)) :
  forall st,
    select_all st = false -> select_none st = true ->
    str_eqb (answer st) s_yes = false ->
    exists st',
      configure_loop st available = Some st'
      /\ channels st' = channels st
      /\ stdin (term st') = stdin (term st).
Proof.
  induction available as [|ch available IH]; intros st Ha Hn Hy.
  - exists st. now cbn.
  - cbn [configure_loop]. unfold configure_body. rewrite Ha, Hn.
    cbn [negb andb orb]. rewrite Ha, Hn, Hy. cbn [orb].
    match goal with
    | |- exists st', configure_loop ?s _ = _ /\ _ =>
        destruct (IH s) as (st' & E & C & I')
    end; [reflexivity | reflexivity | exact Hy |].
    exists st'. split; [exact E|]. now rewrite C, I'.
Qed.

(** X10. When every channel gets its own answer, [yes], [no] or nothing, the
    file lists the channels answered [yes], in the order of the questions,
    and the dialogue reads one line for each channel. *)
Theorem configure_answers (available : list (str * str))
    (answers more : list str) :
  length answers = length available ->
  forallb plain_answer answers = true ->
  exists out,
    configure available (answers ++ more)
    = Some (write_configuration (answered_yes available answers),
            mk_console more out).
Proof.
  intros L P. unfold configure.
  destruct (configure_loop_plain available answers more
              (configure_init (answers ++ more)) L P eq_refl eq_refl eq_refl)
    as (st' & E & C & _ & _ & I).
  rewrite E, C. cbn [configure_init channels app].
  exists (stdout (term st')). rewrite <- I. now destruct (term st').
Qed.

Lemma configure_answers_witness :
  exists out,
    configure [(py "1.tv.telerama.fr", py "TF1"); (py "2.tv.telerama.fr", py "France 2")]
              ([py "yes"; py " no "] ++ [py "left"])
    = Some (write_configuration [py "1.tv.telerama.fr"], mk_console [py "left"] out).
Proof.
  apply (configure_answers
           [(py "1.tv.telerama.fr", py "TF1"); (py "2.tv.telerama.fr", py "France 2")]
           [py "yes"; py " no "] [py "left"]); reflexivity.
Defined.

(** X11. The answer [all] takes the channel of the question and every channel
    after it, and the answer [none] takes none of them; no line is read
    after either. *)
Theorem configure_all_none (before : list (str * str)) (channel : str * str)
    (after : list (str * str)) (answers : list str) (l : str) (more : list str) :
  length answers = length before ->
  forallb plain_answer answers = true ->
  (strip l = s_all ->
   exists out,
     configure (before ++ channel :: after) (answers ++ l :: more)
     = Some (write_configuration
               (answered_yes before answers ++ map fst (channel :: after)),
             mk_console more out))
  /\ (strip l = s_none ->
      exists out,
        configure (before ++ channel :: after) (answers ++ l :: more)
        = Some (write_configuration (answered_yes before answers),
                mk_console more out)).
Proof.
  intros L P. unfold configure. rewrite configure_loop_app.
  destruct (configure_loop_plain before answers (l :: more)
              (configure_init (answers ++ l :: more)) L P eq_refl eq_refl eq_refl)
    as (st1 & E & C & A1 & N1 & I1).
  rewrite E. cbn [configure_init channels app] in C.
  split; intros Hl.
  - cbn [configure_loop]. unfold configure_body.
    rewrite A1, N1, I1. cbn [negb andb].
    rewrite ask_valid by (rewrite Hl; reflexivity).
    rewrite Hl. cbn [select_all select_none answer channels term stdin stdout orb].
    change (str_eqb s_all s_all) with true. cbn [orb].
    match goal with
    | |- exists out, match configure_loop ?s _ with _ => _ end = _ =>
        destruct (configure_loop_all after s eq_refl) as (st' & E' & C' & I')
    end.
    rewrite E', C'. cbn [channels term stdin] in *.
    exists (stdout (term st')). rewrite <- I', C, <- app_assoc.
    cbn [map app]. now destruct (term st').
  - cbn [configure_loop]. unfold configure_body.
    rewrite A1, N1, I1. cbn [negb andb].
    rewrite ask_valid by (rewrite Hl; reflexivity).
    rewrite Hl. cbn [select_all select_none answer channels term stdin stdout orb].
    change (str_eqb s_none s_all) with false.
    change (str_eqb s_none s_none) with true.
    change (str_eqb s_none s_yes) with false. cbn [orb].
    match goal with
    | |- exists out, match configure_loop ?s _ with _ => _ end = _ =>
        destruct (configure_loop_none after s eq_refl eq_refl eq_refl)
          as (st' & E' & C' & I')
    end.
    rewrite E', C'. cbn [channels term stdin] in *.
    exists (stdout (term st')). rewrite <- I', C. now destruct (term st').
Qed.

Lemma configure_all_none_witness :
  exists out,
    configure ([(py "1.tv.telerama.fr", py "TF1")]
               ++ (py "2.tv.telerama.fr", py "France 2")
                  :: [(py "3.tv.telerama.fr", py "France 3")])
              ([py "no"] ++ py "all" :: [])
    = Some (write_configuration
              (answered_yes [(py "1.tv.telerama.fr", py "TF1")] [py "no"]
               ++ map fst ((py "2.tv.telerama.fr", py "France 2")
                           :: [(py "3.tv.telerama.fr", py "France 3")])),
            mk_console [] out).
Proof.
  apply (configure_all_none [(py "1.tv.telerama.fr", py "TF1")]
           (py "2.tv.telerama.fr", py "France 2")
           [(py "3.tv.telerama.fr", py "France 3")] [py "no"] (py "all") []);
    reflexivity.
Defined.

Lemma configure_body_channels (st st1 : configure_state) (ch : str * str) :
  configure_body st ch = Some st1 ->
  channels st1 = channels st \/ channels st1 = channels st ++ [fst ch].
Proof.
  unfold configure_body. intros H.
  destruct (negb (select_all st) && negb (select_none st)).
  - destruct (ask (snd ch ++ s_prompt) (stdin (term st)) (stdout (term st)))
      as [[a t]|]; [|discriminate].
    injection H as <-. cbn [channels select_all answer].
    destruct (str_eqb a s_all || str_eqb a s_yes); auto.
  - injection H as <-. cbn [channels].
    destruct (select_all st || str_eqb (answer st) s_yes); auto.
Qed.

Lemma configure_loop_subseq (available : list (str * str)) :
  forall st st',
    configure_loop st available = Some st' ->
    exists chosen,
      channels st' = channels st ++ chosen
      /\ subseq chosen (map fst available) = true.
Proof.
  induction available as [|ch available IH]; intros st st' H.
  - injection H as <-. exists []. now rewrite app_nil_r.
  - cbn [configure_loop] in H.
    destruct (configure_body st ch) as [st1|] eqn:B; [|discriminate].
    destruct (IH st1 st' H) as (chosen & C & S).
    destruct (configure_body_channels st st1 ch B) as [E|E]; rewrite E in C.
    + exists chosen. split; [exact C|]. cbn [map]. now apply subseq_cons_r.
    + exists (fst ch :: chosen). split; [now rewrite C, <- app_assoc|].
      cbn [map subseq]. now rewrite str_eqb_refl.
Qed.

(** X12. The file that [configure] writes lists a subsequence of the available
    channels, in the order in which they are available, and
    [load_configuration] reads these channels back from the file when no
    identifier holds a line break. *)
Theorem configure_then_load (available : list (str * str)) (inp : list str)
    (file : str) (t : console) :
  configure available inp = Some (file, t) ->
  exists chosen,
    file = write_configuration chosen
    /\ subseq chosen (map fst available) = true
    /\ (Forall (fun ch => free_of newline (fst ch)
                          /\ free_of carriage_return (fst ch)) available ->
        load_configuration file = chosen).
Proof.
  unfold configure. intros H.
  destruct (configure_loop (configure_init inp) available) as [st'|] eqn:E;
    [|discriminate].
  injection H as <- <-.
  destruct (configure_loop_subseq available _ _ E) as (chosen & C & S).
  cbn [configure_init channels app] in C. rewrite C.
  exists chosen. split; [reflexivity|]. split; [exact S|].
  intros F. apply load_write_configuration.
  apply Forall_forall. intros c Hc.
  apply (subseq_In _ _ S), in_map_iff in Hc as (ch & <- & Hch).
  rewrite Forall_forall in F. now apply F.
Qed.

Lemma configure_then_load_witness :
  exists file t,
    configure [(py "1.tv.telerama.fr", py "TF1"); (py "2.tv.telerama.fr", py "France 2")]
              [py "maybe"; py "no"; py "yes"] = Some (file, t)
    /\ exists chosen,
         file = write_configuration chosen
         /\ subseq chosen
              (map fst [(py "1.tv.telerama.fr", py "TF1");
                        (py "2.tv.telerama.fr", py "France 2")]) = true
         /\ (Forall (fun ch => free_of newline (fst ch)
                               /\ free_of carriage_return (fst ch))
                    [(py "1.tv.telerama.fr", py "TF1");
                     (py "2.tv.telerama.fr", py "France 2")] ->
             load_configuration file = chosen).
Proof.
  destruct (configure [(py "1.tv.telerama.fr", py "TF1");
                       (py "2.tv.telerama.fr", py "France 2")]
                      [py "maybe"; py "no"; py "yes"]) as [[file t]|] eqn:E.
  - exists file, t. split; [reflexivity|].
    exact (configure_then_load _ _ file t E).
  - vm_compute in E. discriminate.
Defined.

(** *** Answers that are not understood *)

Lemma ask_filter (prompt : str) (inp : list str) :
  forall out out',
    match ask prompt inp out with
    | Some (a, t) =>
        exists out2,
          ask prompt (filter (fun l => valid_answer (strip l)) inp) out'
          = Some (a, mk_console
                       (filter (fun l => valid_answer (strip l)) (stdin t)) out2)
    | None =>
        ask prompt (filter (fun l => valid_answer (strip l)) inp) out' = None
    end.
Proof.
  induction inp as [|l inp IH]; intros out out'; [reflexivity|].
  cbn [ask filter]. destruct (valid_answer (strip l)) eqn:V.
  - cbn [ask]. rewrite V. cbn [stdin]. now eexists.
  - apply IH.
Qed.

Lemma configure_body_filter (st st' : configure_state) (ch : str * str) :
  same_choice st st' ->
  match configure_body st ch with
  | Some s1 => exists s1', configure_body st' ch = Some s1' /\ same_choice s1 s1'
  | None => configure_body st' ch = None
  end.
Proof.
  intros (C & A & N & W & I). unfold configure_body. rewrite A, N, I.
  destruct (negb (select_all st) && negb (select_none st)).
  - pose proof (ask_filter (snd ch ++ s_prompt) (stdin (term st))
                  (stdout (term st)) (stdout (term st'))) as K.
    destruct (ask (snd ch ++ s_prompt) (stdin (term st)) (stdout (term st)))
      as [[a t]|].
    + destruct K as (out2 & ->). eexists. split; [reflexivity|].
      cbn [channels select_all select_none answer term stdin stdout].
      rewrite C. repeat split.
    + now rewrite K.
  - eexists. split; [reflexivity|].
    cbn [channels select_all select_none answer term stdin stdout].
    rewrite C, A, N, W, I. repeat split.
Qed.

Lemma configure_loop_filter (available : list (str * str)) :
  forall st st',
    same_choice st st' ->
    match configure_loop st available with
    | Some s1 => exists s1', configure_loop st' available = Some s1'
                             /\ same_choice s1 s1'
    | None => configure_loop st' available = None
    end.
Proof.
  induction available as [|ch available IH]; intros st st' R.
  - exists st'. split; [reflexivity | exact R].
  - cbn [configure_loop].
    pose proof (configure_body_filter st st' ch R) as B.
    destruct (configure_body st ch) as [s1|].
    + destruct B as (s1' & -> & R1). apply IH. exact R1.
    + now rewrite B.
Qed.

(** X13. The answers that are not understood are asked again and change nothing
    else: the file written, or the failure at the end of the input, is the
    same as without them. *)
Theorem configure_skips_invalid (available : list (str * str))
    (inp : list str) :
  option_map fst (configure available inp)
  = option_map fst
      (configure available (filter (fun l => valid_answer (strip l)) inp)).
Proof.
  unfold configure.
  pose proof (configure_loop_filter available (configure_init inp)
                (configure_init (filter (fun l => valid_answer (strip l)) inp))) as K.
  destruct (configure_loop (configure_init inp) available) as [s1|].
  - destruct K as (s1' & -> & C & _); [repeat split|].
    cbn [option_map fst]. now rewrite C.
  - rewrite K; [reflexivity | repeat split].
Qed.

(** ** The days that are asked for *)

Lemma in_range (n i : Z) : In i (range n) <-> (0 <= i < n)%Z.
Proof.
  unfold range. rewrite in_map_iff. split.
  - intros (k & <- & Hk). apply in_seq in Hk. lia.
  - intros H. exists (Z.to_nat i). split; [lia|]. apply in_seq. lia.
Qed.

Lemma flat_map_length_const {A B : Type} (f : A -> list B) (n : nat) (l : list A) :
  (forall a, length (f a) = n) -> length (flat_map f l) = length l * n.
Proof.
  intros H. induction l as [|a l IH]; [reflexivity|].
  cbn [flat_map length]. rewrite length_app, H, IH. lia.
Qed.

(** X14. The requests of a run: every channel of the configuration is asked for
    every day of the window, day by day; the window starts at the offset,
    lasts at most the number of days that the command line gives, and never
    reaches the day [MAX_FETCH_DAYS] after today, so that an offset of
    [MAX_FETCH_DAYS] or more asks for nothing.  A number of days of zero is
    read as the default. *)
Theorem fetch_window (args_days args_offset : option Z) (channels : list str) :
  let days := fst (grab_window args_days args_offset) in
  let offset := snd (grab_window args_days args_offset) in
  (forall c d,
      In (c, d) (fetch_requests channels days offset)
      <-> In c channels
          /\ (offset <= d)%Z /\ (d < MAX_FETCH_DAYS)%Z
          /\ (d < offset + int_or args_days DEFAULT_DAYS)%Z)
  /\ length (fetch_requests channels days offset)
     = Z.to_nat days * length channels
  /\ offset = int_or args_offset DEFAULT_OFFSET
  /\ grab_window (Some 0%Z) args_offset = grab_window None args_offset.
Proof.
  cbv zeta. split; [|split; [|split]].
  - intros c d. unfold fetch_requests. rewrite in_flat_map. split.
    + intros (i & Hi & Hc). apply in_range in Hi.
      apply in_map_iff in Hc as (c' & E & Hc'). injection E as -> <-.
      split; [exact Hc'|]. revert Hi. unfold grab_window.
      destruct (int_or args_offset DEFAULT_OFFSET + int_or args_days DEFAULT_DAYS
                >? MAX_FETCH_DAYS)%Z eqn:G; cbn [fst snd]; unfold MAX_FETCH_DAYS in *; lia.
    + intros (Hc & H1 & H2 & H3).
      exists (d - snd (grab_window args_days args_offset))%Z. split.
      * apply in_range. revert H1 H2 H3. unfold grab_window.
        destruct (int_or args_offset DEFAULT_OFFSET + int_or args_days DEFAULT_DAYS
                  >? MAX_FETCH_DAYS)%Z eqn:G; cbn [fst snd];
          unfold MAX_FETCH_DAYS in *; lia.
      * apply in_map_iff. exists c. split; [f_equal; lia | exact Hc].
  - unfold fetch_requests.
    rewrite (flat_map_length_const _ (length channels)).
    + unfold range. now rewrite length_map, length_seq.
    + intros i. apply length_map.
  - unfold grab_window.
    now destruct (int_or args_offset DEFAULT_OFFSET + int_or args_days DEFAULT_DAYS
                  >? MAX_FETCH_DAYS)%Z.
  - reflexivity.
Qed.

(** ** The splitter and [str.split] *)

Lemma scan_split_go (separator delimiter1 delimiter2 : str) :
  separator <> [] ->
  forall fuel rest res tm,
    length rest < fuel ->
    (forall p q, rest = p ++ q ->
                 starts_with delimiter1 q = false
                 /\ starts_with delimiter2 q = false) ->
    scan fuel separator delimiter1 delimiter2 res tm 0%Z rest
    = Some (res ++ split_go separator 0 tm rest).
Proof.
  intros Hsep. induction fuel as [|fuel IH]; intros rest res tm L D; [lia|].
  cbn [scan]. destruct rest as [|c rest']; [reflexivity|].
  destruct (starts_with separator (c :: rest')) eqn:S; cbn [andb Z.eqb].
  - rewrite IH.
    + rewrite <- app_assoc. cbn [app split_go]. rewrite S.
      do 3 f_equal. destruct separator as [|c0 separator]; [congruence|].
      cbn [length skipn].
      replace (Datatypes.S (length separator) - 1) with (length separator) by lia.
      symmetry. apply split_go_skip.
    + rewrite length_skipn. destruct separator; [congruence|]. simpl in *. lia.
    + intros p q E. apply (D (firstn (length separator) (c :: rest') ++ p) q).
      rewrite <- app_assoc, <- E. symmetry. apply firstn_skipn.
  - destruct (D [] (c :: rest') eq_refl) as [D1 D2].
    unfold delta. rewrite D1, D2. cbn [Z.add].
    rewrite IH.
    + cbn [split_go]. now rewrite S.
    + simpl in L. lia.
    + intros p q E. apply (D (c :: p) q). now rewrite E.
Qed.

(** X15. Where the delimiters do not occur, [split_outside_delimiters] is
    [str.split]. *)
Theorem split_without_delimiters (string separator delimiter1 delimiter2 : str) :
  separator <> [] ->
  ~ contains delimiter1 string -> ~ contains delimiter2 string ->
  split_outside_delimiters string separator delimiter1 delimiter2
  = Some (str_split separator string).
Proof.
  intros Hsep H1 H2. rewrite split_outside_delimiters_scan.
  rewrite scan_split_go; [reflexivity | exact Hsep | lia |].
  intros p q E. split.
  - destruct (starts_with delimiter1 q) eqn:S; [|reflexivity].
    apply starts_with_true in S as [r ->]. exfalso. apply H1. now exists p, r.
  - destruct (starts_with delimiter2 q) eqn:S; [|reflexivity].
    apply starts_with_true in S as [r ->]. exfalso. apply H2. now exists p, r.
Qed.

Lemma free_not_contains (c : char) (s : str) :
  mem c s = false -> ~ contains [c] s.
Proof.
  intros H (p & q & E). rewrite E, !mem_app in H.
  apply orb_false_iff in H as [_ H]. apply orb_false_iff in H as [H _].
  cbn [mem existsb] in H. now rewrite N.eqb_refl in H.
Qed.

Lemma split_without_delimiters_witness :
  split_outside_delimiters (py "Jean Dupont, Marie Curie") s_comma_space s_open s_close
  = Some (str_split s_comma_space (py "Jean Dupont, Marie Curie")).
Proof.
  apply split_without_delimiters.
  - discriminate.
  - apply (free_not_contains 40%N). reflexivity.
  - apply (free_not_contains 41%N). reflexivity.
Defined.

(** ** The tags of the sections of a programme *)

Lemma labelled_tags (t label details : str) :
  subseq (map tag (labelled_xml t label details)) [t] = true.
Proof.
  unfold labelled_xml. destruct (label_value label details); [|reflexivity].
  cbn [map tag text_element subseq]. now rewrite str_eqb_refl.
Qed.

Lemma desc_tags (d6 : str) : subseq (map tag (desc_xml d6)) [s_desc] = true.
Proof. section_tags desc_xml. Qed.

Lemma credits_tags (d7 : str) :
  subseq (map tag (credits_xml d7)) [s_credits] = true.
Proof. section_tags credits_xml. Qed.

Lemma categories_tags (d5 d7 : str) :
  subseq (map tag (categories_xml d5 d7)) [s_category; s_category; s_category]
  = true.
Proof. section_tags categories_xml. Qed.

Lemma episodenum_tags (d7 : str) :
  subseq (map tag (episodenum_xml d7)) [s_episode_num] = true.
Proof. section_tags episodenum_xml. Qed.

Lemma audio_tags (d7 : str) : subseq (map tag (audio_xml d7)) [s_audio] = true.
Proof. section_tags audio_xml. Qed.

Lemma previously_shown_tags (d7 : str) :
  subseq (map tag (previously_shown_xml d7)) [s_previously_shown] = true.
Proof. section_tags previously_shown_xml. Qed.

Lemma premiere_tags (d7 : str) :
  subseq (map tag (premiere_xml d7)) [s_premiere] = true.
Proof. section_tags premiere_xml. Qed.

Lemma subtitles_tags (d7 : str) :
  subseq (map tag (subtitles_xml d7)) [s_subtitles] = true.
Proof. section_tags subtitles_xml. Qed.

Lemma rating_tags (d8 : str) : subseq (map tag (rating_xml d8)) [s_rating] = true.
Proof. section_tags rating_xml. Qed.

Lemma starrating_tags (d10 : str) :
  subseq (map tag (starrating_xml d10)) [s_star_rating] = true.
Proof. section_tags starrating_xml. Qed.

Lemma review_tags (d11 : str) :
  subseq (map tag (review_xml d11)) [s_review] = true.
Proof. section_tags review_xml. Qed.

Lemma filter_inside (t : str) (l : list element) :
  subseq (map tag l) [t] = true -> filter (has_tag t) l = l.
Proof.
  destruct l as [|e [|e' l]]; cbn [map subseq]; [reflexivity| |].
  - unfold has_tag. cbn [filter]. destruct (str_eqb (tag e) t); [reflexivity|].
    discriminate.
  - destruct (str_eqb (tag e) t); discriminate.
Qed.

(** The children of a programme with one tag are those of the section that
    makes them. *)
Ltac other_section :=
  match goal with
  | |- context [filter (has_tag ?t) (labelled_xml ?u ?label ?d)] =>
      rewrite (filter_outside t (labelled_xml u label d) [u]
                 (labelled_tags u label d) eq_refl)
  | |- context [filter (has_tag ?t) (desc_xml ?d)] =>
      rewrite (filter_outside t _ _ (desc_tags d) eq_refl)
  | |- context [filter (has_tag ?t) (credits_xml ?d)] =>
      rewrite (filter_outside t _ _ (credits_tags d) eq_refl)
  | |- context [filter (has_tag ?t) (categories_xml ?d ?e)] =>
      rewrite (filter_outside t _ _ (categories_tags d e) eq_refl)
  | |- context [filter (has_tag ?t) (episodenum_xml ?d)] =>
      rewrite (filter_outside t _ _ (episodenum_tags d) eq_refl)
  | |- context [filter (has_tag ?t) (audio_xml ?d)] =>
      rewrite (filter_outside t _ _ (audio_tags d) eq_refl)
  | |- context [filter (has_tag ?t) (previously_shown_xml ?d)] =>
      rewrite (filter_outside t _ _ (previously_shown_tags d) eq_refl)
  | |- context [filter (has_tag ?t) (premiere_xml ?d)] =>
      rewrite (filter_outside t _ _ (premiere_tags d) eq_refl)
  | |- context [filter (has_tag ?t) (subtitles_xml ?d)] =>
      rewrite (filter_outside t _ _ (subtitles_tags d) eq_refl)
  | |- context [filter (has_tag ?t) (rating_xml ?d)] =>
      rewrite (filter_outside t _ _ (rating_tags d) eq_refl)
  | |- context [filter (has_tag ?t) (starrating_xml ?d)] =>
      rewrite (filter_outside t _ _ (starrating_tags d) eq_refl)
  | |- context [filter (has_tag ?t) (review_xml ?d)] =>
      rewrite (filter_outside t _ _ (review_tags d) eq_refl)
  end.

Ltac one_section :=
  rewrite !filter_app; repeat other_section;
  cbn [filter has_tag tag text_element empty_element];
  rewrite ?app_nil_r; cbn [app].

Lemma programme_section (france_tz : datetime -> Z) (data : list str)
    (p : element) (log : list str) (details : str) :
  programme france_tz data = Ok (p, log) ->
  nth_error data 7 = Some details ->
  filter (has_tag s_sub_title) (children p)
  = labelled_xml s_sub_title l_sous_titre details
  /\ filter (has_tag s_date) (children p) = labelled_xml s_date l_annee details
  /\ filter (has_tag s_audio) (children p) = audio_xml details
  /\ filter (has_tag s_previously_shown) (children p)
     = previously_shown_xml details
  /\ filter (has_tag s_premiere) (children p) = premiere_xml details
  /\ filter (has_tag s_subtitles) (children p) = subtitles_xml details.
Proof.
  intros H E7.
  apply programme_children in H
    as (times & d0 & d2 & d5 & d6 & d7 & d8 & d10 & d11 & _ & _ & _ & _ & _
        & H7 & _ & _ & _ & ->).
  rewrite H7 in E7. injection E7 as ->.
  repeat split; one_section.
  - apply (filter_inside s_sub_title), labelled_tags.
  - apply (filter_inside s_date), labelled_tags.
  - apply (filter_inside s_audio), audio_tags.
  - apply (filter_inside s_previously_shown), previously_shown_tags.
  - apply (filter_inside s_premiere), premiere_tags.
  - apply (filter_inside s_subtitles), subtitles_tags.
Qed.

(** ** Lines with a label, and lines that start with a text *)

Lemma programme_showview (france_tz : datetime -> Z) (data : list str)
    (p : element) (log : list str) (details : str) :
  programme france_tz data = Ok (p, log) ->
  nth_error data 7 = Some details ->
  get p s_showview = label_value l_showview details.
Proof.
  unfold programme. intros H E7.
  bind_inv H. rename a into times, Ha into Ht.
  bind_inv H. rename a into d0, Ha into H0.
  bind_inv H. rename a into d7, Ha into H7.
  bind_inv H. rename a into d2, Ha into H2.
  bind_inv H. rename a into d6, Ha into H6.
  bind_inv H. rename a into d5, Ha into H5.
  bind_inv H. rename a into video, Ha into Hv.
  bind_inv H. rename a into d8, Ha into H8.
  bind_inv H. rename a into d10, Ha into H10.
  bind_inv H. rename a into d11, Ha into H11.
  injection H as <- _.
  apply item_ok in H7 as [H7 _]. rewrite H7 in E7. injection E7 as ->.
  unfold get. cbn [attrib].
  now destruct (label_value l_showview details).
Qed.



(** A pattern [^text] under [re.MULTILINE] is found exactly when a line
    starts with the text. *)
Lemma try_at_prefix (s : str) (pv : option char) (t : str) :
  try_at (Seq Bol (Lit s)) pv t <> None
  <-> at_bol pv = true /\ starts_with s t = true.
Proof.
  unfold try_at. rewrite rmatch_Group, rmatch_Seq, rmatch_Bol. cbn [prev rest caps].
  destruct (at_bol pv).
  - destruct (starts_with s t) eqn:S.
    + apply starts_with_true in S as [r ->]. rewrite rmatch_Lit.
      unfold accept. cbn. split; [auto | discriminate].
    + rewrite rmatch_Lit_fail by exact S. split; [congruence | intros [_ C]; discriminate].
  - split; [congruence | intros [C _]; discriminate].
Qed.

Lemma matches_line_starts (s details : str) :
  matches (Seq Bol (Lit s)) details = true <-> line_starts s details.
Proof.
  unfold matches, re_search, line_starts.
  pose proof (search_from_spec (Seq Bol (Lit s)) details None) as S.
  destruct (search_from (Seq Bol (Lit s)) None details) as [m|].
  - split; [intros _ | reflexivity].
    destruct S as (pre & post & E & T & _).
    assert (N : try_at (Seq Bol (Lit s)) (prev_of None pre) post <> None)
      by congruence.
    apply try_at_prefix in N as [B W].
    apply starts_with_true in W as [r ->]. now exists pre, r.
  - split; [discriminate|]. intros (pre & post & E & B). exfalso.
    specialize (S pre (s ++ post) E).
    assert (N : try_at (Seq Bol (Lit s)) (prev_of None pre) (s ++ post) <> None).
    { apply try_at_prefix. split; [exact B | apply starts_with_app]. }
    contradiction.
Qed.

Lemma not_line_starts (s details : str) :
  ~ line_starts s details -> matches (Seq Bol (Lit s)) details = false.
Proof.
  intros H. destruct (matches (Seq Bol (Lit s)) details) eqn:M; [|reflexivity].
  apply matches_line_starts in M. contradiction.
Qed.



(** One try of the pattern of the premiere: at the start of a line, the
    first of the two texts that the line starts with. *)
Lemma try_at_premiere (pv : option char) (t : str) :
  match try_at premiere_re pv t with
  | Some m =>
      at_bol pv = true
      /\ ((starts_with t_inedit t = true /\ group_str m 0 = t_inedit)
          \/ (starts_with t_premiere t = true /\ group_str m 0 = t_premiere))
  | None =>
      at_bol pv = false
      \/ (starts_with t_inedit t = false /\ starts_with t_premiere t = false)
  end.
Proof.
  unfold try_at.
  change premiere_re
    with (Seq Bol (Group 1 (Alt (Lit t_inedit) (Lit t_premiere)))).
  rewrite rmatch_Group, rmatch_Seq, rmatch_Bol. cbn [prev rest caps].
  destruct (at_bol pv); [|now left].
  rewrite rmatch_Group. cbn [rmatch rest caps prev].
  destruct (starts_with t_inedit t) eqn:S1.
  - apply starts_with_true in S1 as [r ->]. rewrite rmatch_Lit.
    cbn [rest caps prev accept]. rewrite !firstn_consumed.
    split; [reflexivity|]. left. split; reflexivity.
  - rewrite rmatch_Lit_fail by exact S1.
    destruct (starts_with t_premiere t) eqn:S2.
    + apply starts_with_true in S2 as [r ->]. rewrite rmatch_Lit.
      cbn [rest caps prev accept]. rewrite !firstn_consumed.
      split; [reflexivity|]. right. split; [reflexivity | reflexivity].
    + rewrite rmatch_Lit_fail by exact S2. now right.
Qed.

Lemma premiere_search (details : str) :
  match re_search premiere_re details with
  | Some m =>
      (line_starts t_inedit details /\ group_str m 0 = t_inedit)
      \/ (line_starts t_premiere details /\ group_str m 0 = t_premiere)
  | None => ~ line_starts t_inedit details /\ ~ line_starts t_premiere details
  end.
Proof.
  unfold re_search.
  pose proof (search_from_spec premiere_re details None) as S.
  destruct (search_from premiere_re None details) as [m|].
  - destruct S as (pre & post & E & T & _).
    pose proof (try_at_premiere (prev_of None pre) post) as K.
    rewrite T in K. destruct K as [B [[W G]|[W G]]];
      apply starts_with_true in W as [r ->]; [left | right];
      (split; [now exists pre, r | exact G]).
  - split; intros (pre & post & E & B);
      pose proof (try_at_premiere (prev_of None pre) (t_inedit ++ post)) as K1;
      pose proof (try_at_premiere (prev_of None pre) (t_premiere ++ post)) as K2;
      rewrite (S pre _ E) in *; unfold line_start in B.
    + destruct K1 as [K|[K _]]; [congruence|].
      rewrite starts_with_app in K. discriminate.
    + destruct K2 as [K|[_ K]]; [congruence|].
      rewrite starts_with_app in K. discriminate.
Qed.



(** ** The credits without a role *)

Lemma filter_plain_same (kind label details : str) :
  filter (has_tag kind) (credit_list label details (plain_credit kind))
  = credit_list label details (plain_credit kind).
Proof.
  unfold credit_list. destruct (label_value label details) as [v|]; [|reflexivity].
  induction (split_names v) as [|e l IH]; [reflexivity|].
  cbn [map filter]. unfold has_tag at 1. cbn [plain_credit tag].
  now rewrite str_eqb_refl, IH.
Qed.

Lemma filter_actors_other (t details : str) :
  str_eqb s_actor t = false -> filter (has_tag t) (actors_xml details) = [].
Proof.
  intros H. apply filter_none. intros e He.
  rewrite <- filter_actors in He. apply filter_In in He as [_ He].
  unfold has_tag in *. apply str_eqb_eq in He. now rewrite He.
Qed.

Lemma credits_plain (details : str) (c : element) (kind label : str) :
  In c (credits_xml details) ->
  In (kind, label) plain_credit_kinds ->
  filter (has_tag kind) (children c)
  = credit_list label details (plain_credit kind).
Proof.
  unfold credits_xml.
  destruct (is_some (label_value l_realisateur details)
            || is_some (label_value l_acteurs details)
            || is_some (label_value l_musique details)
            || is_some (label_value l_presentateur details)
            || is_some (label_value l_invites details)); [|intros []].
  intros [<-|[]] K. cbn [children]. rewrite !filter_app.
  unfold plain_credit_kinds in K. cbn [In] in K.
  destruct K as [K|[K|[K|[K|[]]]]]; injection K as <- <-;
    rewrite filter_plain_same;
    rewrite !filter_plain_credits by reflexivity;
    rewrite filter_actors_other by reflexivity;
    now rewrite ?app_nil_r.
Qed.

(** X19. The credits of a programme other than its actors.  When the
    details block has a line with the label of a director, a composer, a
    presenter or a guest and a value after it, the programme has one
    [credits] element; the value of the first such line is split on [", "]
    outside parentheses, and each name gives one child of the kind in the
    [credits] element, with the name as its text and no attribute, in order:
    joined again with [", "], the texts are the value of the line.  When no
    line starts with the label, a [credits] element has no child of the
    kind; and when no line starts with any of the five labels of the
    credits, the programme has no [credits] element. *)
Theorem plain_credits (france_tz : datetime -> Z) (data : list str)
    (p : element) (log : list str) (details : str) :
  programme france_tz data = Ok (p, log) ->
  nth_error data 7 = Some details ->
  (forall kind label pre v,
      In (kind, label) plain_credit_kinds ->
      label_line label details pre v ->
      exists c,
        filter (has_tag s_credits) (children p) = [c]
        /\ filter (has_tag kind) (children c)
           = map (fun name => Element kind [] (Some name) []) (split_names v)
        /\ join s_comma_space (split_names v) = v)
  /\ (forall kind label c,
        In (kind, label) plain_credit_kinds ->
        no_label_line label details ->
        In c (filter (has_tag s_credits) (children p)) ->
        filter (has_tag kind) (children c) = [])
  /\ (no_label_line l_realisateur details ->
      no_label_line l_acteurs details ->
      no_label_line l_musique details ->
      no_label_line l_presentateur details ->
      no_label_line l_invites details ->
      filter (has_tag s_credits) (children p) = []).
Proof.
  intros H E7.
  rewrite (programme_credits france_tz data p log details H E7).
  split; [|split].
  - intros kind label pre v K L. apply label_value_line in L.
    assert (S : credits_xml details <> []).
    { unfold credits_xml, plain_credit_kinds in *. cbn [In] in K.
      destruct K as [K|[K|[K|[K|[]]]]]; injection K as <- <-;
        rewrite L; cbn [is_some orb]; rewrite ?orb_true_r; discriminate. }
    destruct (credits_xml details) as [|c l] eqn:Ec; [congruence|].
    assert (El : l = []).
    { unfold credits_xml in Ec.
      destruct (is_some (label_value l_realisateur details)
                || is_some (label_value l_acteurs details)
                || is_some (label_value l_musique details)
                || is_some (label_value l_presentateur details)
                || is_some (label_value l_invites details));
        [now injection Ec as _ <- | discriminate]. }
    subst l. exists c. split; [reflexivity|].
    rewrite (credits_plain details c kind label); [|rewrite Ec; now left|exact K].
    unfold credit_list. rewrite L.
    split; [reflexivity | apply split_names_join].
  - intros kind label c K N Hc. apply label_value_none in N.
    rewrite (credits_plain details c kind label Hc K).
    unfold credit_list. now rewrite N.
  - intros N1 N2 N3 N4 N5. unfold credits_xml.
    rewrite (label_value_none _ _ N1), (label_value_none _ _ N2),
      (label_value_none _ _ N3), (label_value_none _ _ N4),
      (label_value_none _ _ N5).
    reflexivity.
Qed.

(** The lines before a given place can be checked one by one. *)
Lemma first_line_check (label details pre : str) :
  forallb (fun k => negb (line_start (firstn k details)
                          && starts_with label (skipn k details)))
          (seq 0 (length pre)) = true ->
  forall p q, details = p ++ q -> length p < length pre ->
              line_start p = true -> starts_with label q = false.
Proof.
  intros C p q E L B. rewrite forallb_forall in C.
  specialize (C (length p)).
  rewrite E, firstn_app, Nat.sub_diag, firstn_all, skipn_app, Nat.sub_diag,
    skipn_all in C.
  cbn [firstn skipn app] in C. rewrite app_nil_r, B in C. cbn [andb] in C.
  apply negb_true_iff. apply C. apply in_seq. lia.
Qed.

(** The second line of [sample_series_details] is the line of the
    director, the first one with this label. *)
Lemma sample_series_director :
  label_line l_realisateur sample_series_details
    (py "Sous-titre : Le pilote" ++ [newline]) (py "Anne Martin, Luc Petit").
Proof.
  exists [32%N],
    (skipn (length (py "Sous-titre : Le pilote" ++ newline
                    :: py "Réalisateur : Anne Martin, Luc Petit"))
           sample_series_details).
  split; [vm_compute; reflexivity|]. split; [reflexivity|].
  split; [apply first_line_check; vm_compute; reflexivity|].
  split; [reflexivity|]. split; [discriminate|]. split; [reflexivity|].
  split; reflexivity.
Qed.

Lemma plain_credits_witness :
  exists p log c,
    programme europe_paris (fields sample_series) = Ok (p, log)
    /\ filter (has_tag s_credits) (children p) = [c]
    /\ filter (has_tag s_director) (children c)
       = [Element s_director [] (Some (py "Anne Martin")) [];
          Element s_director [] (Some (py "Luc Petit")) []].
Proof.
  destruct (programme europe_paris (fields sample_series)) as [[p log]|e] eqn:E.
  - assert (E7 : nth_error (fields sample_series) 7 = Some sample_series_details)
      by (vm_compute; reflexivity).
    destruct (plain_credits europe_paris (fields sample_series) p log
                sample_series_details E E7) as [K _].
    destruct (K s_director l_realisateur _ _ (or_introl eq_refl)
                sample_series_director) as (c & Fc & Fd & _).
    exists p, log, c. split; [reflexivity|]. split; [exact Fc|].
    rewrite Fd. reflexivity.
  - vm_compute in E. discriminate.
Defined.

(** ** The fields of a record that are optional *)

Lemma programme_field_children (france_tz : datetime -> Z) (data : list str)
    (p : element) (log : list str) :
  programme france_tz data = Ok (p, log) ->
  exists d2 d6 d8 d10 d11,
    nth_error data 2 = Some d2 /\ nth_error data 6 = Some d6
    /\ nth_error data 8 = Some d8 /\ nth_error data 10 = Some d10
    /\ nth_error data 11 = Some d11
    /\ filter (has_tag s_title) (children p) = [text_element s_title [] d2]
    /\ filter (has_tag s_desc) (children p) = desc_xml d6
    /\ filter (has_tag s_rating) (children p) = rating_xml d8
    /\ filter (has_tag s_star_rating) (children p) = starrating_xml d10
    /\ filter (has_tag s_review) (children p) = review_xml d11.
Proof.
  intros H.
  apply programme_children in H
    as (times & d0 & d2 & d5 & d6 & d7 & d8 & d10 & d11 & _ & _ & H2 & _ & H6
        & _ & H8 & H10 & H11 & ->).
  exists d2, d6, d8, d10, d11. repeat (split; [assumption|]).
  repeat split; one_section.
  - reflexivity.
  - apply (filter_inside s_desc), desc_tags.
  - apply (filter_inside s_rating), rating_tags.
  - apply (filter_inside s_star_rating), starrating_tags.
  - apply (filter_inside s_review), review_tags.
Qed.



(** ** The channels offered and the channels chosen *)

Lemma subseq_nodup (a b : list str) :
  subseq a b = true -> NoDup b -> NoDup a.
Proof.
  revert a; induction b as [|y b IH]; intros [|x a] S N;
    try constructor; try discriminate.
  - cbn [subseq] in S. inversion N as [|y' b' Ny Nb]; subst.
    destruct (str_eqb x y) eqn:E.
    + apply str_eqb_eq in E as ->. intros I. apply Ny.
      now apply (subseq_In _ _ S).
    + assert (Nxa : NoDup (x :: a)) by now apply IH.
      now inversion Nxa.
  - cbn [subseq] in S. inversion N as [|y' b' Ny Nb]; subst.
    destruct (str_eqb x y) eqn:E.
    + now apply IH.
    + assert (Nxa : NoDup (x :: a)) by now apply IH.
      now inversion Nxa.
Qed.

(** X21. [configure] on the channels that [get_available_channels] reads from a
    response: whatever the response and the answers, no channel is written
    twice to the configuration file, and every channel written is a
    namespaced identifier. *)
Theorem configure_no_duplicates (response : str) (inp : list str)
    (file : str) (t : console) :
  configure (get_available_channels response) inp = Some (file, t) ->
  exists chosen,
    file = write_configuration chosen
    /\ NoDup chosen
    /\ Forall (fun c => exists native, c = telerama_to_xmltv_id native) chosen.
Proof.
  unfold configure. intros H.
  destruct (configure_loop (configure_init inp) (get_available_channels response))
    as [st'|] eqn:E; [|discriminate].
  injection H as <- <-.
  destruct (configure_loop_subseq _ _ _ E) as (chosen & C & S).
  cbn [configure_init channels app] in C. rewrite C.
  destruct (available_channels_keys response) as [N F].
  exists chosen. split; [reflexivity|]. split; [exact (subseq_nodup _ _ S N)|].
  apply Forall_forall. intros c Hc.
  apply (subseq_In _ _ S), in_map_iff in Hc as (ch & <- & Hch).
  rewrite Forall_forall in F. now destruct (F ch Hch).
Qed.

Lemma configure_no_duplicates_witness :
  exists file t,
    configure (get_available_channels
                 (channels_feed [(py "1", py "TF1"); (py "1", py "TF1 HD");
                                 (py "2", py "France 2")]))
              [py "all"] = Some (file, t)
    /\ exists chosen,
         file = write_configuration chosen
         /\ NoDup chosen
         /\ Forall (fun c => exists native, c = telerama_to_xmltv_id native) chosen.
Proof.
  destruct (configure (get_available_channels
                         (channels_feed [(py "1", py "TF1"); (py "1", py "TF1 HD");
                                         (py "2", py "France 2")]))
                      [py "all"]) as [[file t]|] eqn:E.
  - exists file, t. split; [reflexivity|].
    exact (configure_no_duplicates _ _ file t E).
  - vm_compute in E. discriminate.
Defined.

(** ** The form of the times of a programme *)

Lemma pad_two (z : Z) : (0 <= z <= 99)%Z -> digits_of 2 z (pad 2 z).
Proof.
  intros H.
  assert (A : forallb (fun z => (length (pad 2 z) =? 2) && all_in digit (pad 2 z)
                                && (int_of_digits (pad 2 z) =? z)%Z)
                      (range 100) = true) by (vm_compute; reflexivity).
  rewrite forallb_forall in A. specialize (A z).
  destruct (andb_prop _ _ (A ltac:(apply in_range; lia))) as [A1 A3].
  apply andb_prop in A1 as [A1 A2].
  apply Nat.eqb_eq in A1. apply Z.eqb_eq in A3. repeat split; assumption.
Qed.

Lemma pad_four (z : Z) : (1000 <= z <= 9999)%Z -> digits_of 4 z (pad 4 z).
Proof.
  intros H.
  assert (A : forallb (fun z => (z <? 1000)%Z
                                || (length (pad 4 z) =? 4) && all_in digit (pad 4 z)
                                   && (int_of_digits (pad 4 z) =? z)%Z)
                      (range 10000) = true) by (vm_compute; reflexivity).
  rewrite forallb_forall in A. specialize (A z).
  apply orb_prop in A as [A|A]; [apply Z.ltb_lt in A; lia | | apply in_range; lia].
  apply andb_prop in A as [A1 A3]. apply andb_prop in A1 as [A1 A2].
  apply Nat.eqb_eq in A1. apply Z.eqb_eq in A3. repeat split; assumption.
Qed.

Lemma days_in_month_le (y m : Z) : (days_in_month y m <= 31)%Z.
Proof.
  unfold days_in_month.
  destruct m as [|q|q]; [lia| |lia].
  do 4 (try (destruct q as [q|q|]; try lia; try (destruct (is_leap y); lia))).
Qed.

(** The form of a time whose wall clock is within the bounds of a date. *)
Lemma format_xmltv_time_text (a : aware) :
  (1000 <= year (wall a) <= 9999)%Z -> (1 <= month (wall a) <= 12)%Z ->
  (1 <= day (wall a) <= 31)%Z -> (0 <= hour (wall a) <= 23)%Z ->
  (0 <= minute (wall a) <= 59)%Z -> (0 <= second (wall a) <= 59)%Z ->
  utcoffset a = 3600%Z \/ utcoffset a = 7200%Z ->
  xmltv_time_text a (format_xmltv_time a).
Proof.
  intros Hy Hm Hd HH HM HS Ho. unfold format_xmltv_time.
  exists (pad 4 (year (wall a))), (pad 2 (month (wall a))),
    (pad 2 (day (wall a))), (pad 2 (hour (wall a))),
    (pad 2 (minute (wall a))), (pad 2 (second (wall a))),
    (format_offset (utcoffset a)).
  split; [reflexivity|].
  split; [apply pad_four; lia|].
  do 5 (split; [apply pad_two; lia|]).
  destruct Ho as [-> | ->]; [left | right]; split; reflexivity.
Qed.

Lemma add_one_day_bounds (d d' : datetime) :
  valid_datetime d = true -> add_one_day d = Ok d' ->
  (year d <= year d' <= 9999 /\ 1 <= month d' <= 12 /\ 1 <= day d' <= 31
   /\ hour d' = hour d /\ minute d' = minute d /\ second d' = second d)%Z.
Proof.
  intros V H. apply valid_datetime_bounds in V.
  pose proof (days_in_month_le (year d) (month d)) as L.
  unfold add_one_day in H.
  destruct (day d <? days_in_month (year d) (month d))%Z eqn:Ed.
  - apply Z.ltb_lt in Ed. injection H as <-. cbn. lia.
  - destruct (month d <? 12)%Z eqn:Em.
    + apply Z.ltb_lt in Em. injection H as <-. cbn. lia.
    + destruct (year d <? 9999)%Z eqn:Ey; [|discriminate].
      apply Z.ltb_lt in Ey. injection H as <-. cbn. lia.
Qed.

Lemma programme_times (france_tz : datetime -> Z) (data : list str)
    (p : element) (log : list str) :
  programme france_tz data = Ok (p, log) ->
  exists start stop,
    program_times france_tz data = Ok (start, stop)
    /\ get p s_start = Some (format_xmltv_time start)
    /\ get p s_stop = Some (format_xmltv_time stop).
Proof.
  unfold programme. intros H.
  bind_inv H. rename a into times, Ha into Ht.
  bind_inv H. rename a into d0, Ha into H0.
  bind_inv H. rename a into d7, Ha into H7.
  bind_inv H. rename a into d2, Ha into H2.
  bind_inv H. rename a into d6, Ha into H6.
  bind_inv H. rename a into d5, Ha into H5.
  bind_inv H. rename a into video, Ha into Hv.
  bind_inv H. rename a into d8, Ha into H8.
  bind_inv H. rename a into d10, Ha into H10.
  bind_inv H. rename a into d11, Ha into H11.
  injection H as <- _. destruct times as [start stop].
  exists start, stop. split; [exact Ht|]. split; reflexivity.
Qed.

Lemma program_times_bounds (france_tz : datetime -> Z) (data : list str)
    (start stop : aware) :
  program_times france_tz data = Ok (start, stop) ->
  forall a, a = start \/ a = stop ->
    (year (wall a) <= 9999 /\ 1 <= month (wall a) <= 12
     /\ 1 <= day (wall a) <= 31 /\ 0 <= hour (wall a) <= 23
     /\ 0 <= minute (wall a) <= 59 /\ 0 <= second (wall a) <= 59)%Z.
Proof.
  unfold program_times. intros H.
  bind_inv H. rename a into d12, Ha into H12.
  bind_inv H. rename a into d3, Ha into H3.
  bind_inv H. rename a into sn, Ha into Hs.
  bind_inv H. rename a into d4, Ha into H4.
  bind_inv H. rename a into tn, Ha into Ht.
  pose proof (strptime_valid _ _ Hs) as Vs.
  pose proof (strptime_valid _ _ Ht) as Vt.
  pose proof (valid_datetime_bounds sn Vs) as Bs.
  pose proof (valid_datetime_bounds tn Vt) as Bt.
  pose proof (days_in_month_le (year sn) (month sn)) as Ls.
  pose proof (days_in_month_le (year tn) (month tn)) as Lt.
  destruct (instant (localize france_tz tn) <? instant (localize france_tz sn))%Z.
  - bind_inv H. unfold aware_add_one_day in Ha. bind_inv Ha.
    injection Ha as <-. injection H as <- <-.
    pose proof (add_one_day_bounds tn a0 Vt Ha0) as B.
    intros a [-> | ->]; cbn [wall localize]; lia.
  - injection H as <- <-. intros a [-> | ->]; cbn [wall localize]; lia.
Qed.

(** X22. The [start] and [stop] attributes of a programme are the times of the
    record in the form [YYYYMMDDhhmmss +hhmm]: fourteen digits that give the
    wall clock in Paris, a space, and the UTC offset, for a year of four
    digits and an offset of one or two hours. *)
Theorem programme_time_attributes (france_tz : datetime -> Z)
    (data : list str) (p : element) (log : list str) :
  programme france_tz data = Ok (p, log) ->
  exists start stop,
    program_times france_tz data = Ok (start, stop)
    /\ get p s_start = Some (format_xmltv_time start)
    /\ get p s_stop = Some (format_xmltv_time stop)
    /\ forall a, a = start \/ a = stop ->
         (1000 <= year (wall a))%Z ->
         utcoffset a = 3600%Z \/ utcoffset a = 7200%Z ->
         xmltv_time_text a (format_xmltv_time a)
         /\ length (format_xmltv_time a) = 20.
Proof.
  intros H.
  destruct (programme_times france_tz data p log H) as (start & stop & T & Es & Et).
  exists start, stop. split; [exact T|]. split; [exact Es|]. split; [exact Et|].
  intros a Ha Hy Ho.
  pose proof (program_times_bounds france_tz data start stop T a Ha) as B.
  assert (X : xmltv_time_text a (format_xmltv_time a))
    by (apply format_xmltv_time_text; try lia; exact Ho).
  split; [exact X|].
  destruct X as (Y & m & d & HH & M & S & z & -> & (L1 & _) & (L2 & _) & (L3 & _)
                 & (L4 & _) & (L5 & _) & (L6 & _) & Z0).
  unfold str, char in *. rewrite !length_app, L1, L2, L3, L4, L5, L6.
  destruct Z0 as [[_ ->]|[_ ->]]; reflexivity.
Qed.

Lemma programme_time_attributes_witness :
  exists p log,
    programme europe_paris (fields sample_late) = Ok (p, log)
    /\ get p s_start = Some (py "20240301233000 +0100")
    /\ get p s_stop = Some (py "20240302004500 +0100").
Proof.
  destruct (programme europe_paris (fields sample_late)) as [[p log]|e] eqn:E.
  - exists p, log. split; [reflexivity|].
    destruct (programme_time_attributes europe_paris (fields sample_late) p log E)
      as (start & stop & T & Es & Et & _).
    vm_compute in T. injection T as <- <-.
    rewrite Es, Et. split; reflexivity.
  - vm_compute in E. discriminate.
Defined.

(** ** The records that yield a programme *)

Lemma try_at_aspect (pv : option char) (t : str) :
  try_at aspect_re pv t <> None
  <-> at_bol pv = true
      /\ (starts_with (t_en ++ t_169) t = true
          \/ starts_with (t_en ++ t_43) t = true).
Proof.
  unfold try_at.
  change aspect_re
    with (Seq Bol (Seq (Lit t_en) (Group 1 (Alt (Lit t_169) (Lit t_43))))).
  rewrite rmatch_Group, rmatch_Seq, rmatch_Bol. cbn [prev rest caps].
  destruct (at_bol pv); [|split; [congruence | intros [C _]; discriminate]].
  rewrite rmatch_Seq.
  destruct (starts_with t_en t) eqn:S0.
  - apply starts_with_true in S0 as [r ->]. rewrite rmatch_Lit, rmatch_Group.
    cbn [rmatch rest caps prev].
    destruct (starts_with t_169 r) eqn:S1.
    + apply starts_with_true in S1 as [r' ->]. rewrite rmatch_Lit.
      cbn [accept]. split; [intros _ | discriminate].
      split; [reflexivity|]. left. rewrite app_assoc. apply starts_with_app.
    + rewrite rmatch_Lit_fail by exact S1.
      destruct (starts_with t_43 r) eqn:S2.
      * apply starts_with_true in S2 as [r' ->]. rewrite rmatch_Lit.
        cbn [accept]. split; [intros _ | discriminate].
        split; [reflexivity|]. right. rewrite app_assoc. apply starts_with_app.
      * rewrite rmatch_Lit_fail by exact S2. split; [congruence|].
        intros [_ [W|W]]; apply starts_with_true in W as [r' W];
          rewrite <- app_assoc in W; apply app_inv_head in W; subst r.
        -- rewrite starts_with_app in S1. discriminate.
        -- rewrite starts_with_app in S2. discriminate.
  - rewrite rmatch_Lit_fail by exact S0. split; [congruence|].
    intros [_ [W|W]]; apply starts_with_true in W as [r' W];
      rewrite <- app_assoc in W; subst t;
      rewrite starts_with_app in S0; discriminate.
Qed.

Lemma aspect_search (details : str) :
  re_search aspect_re details <> None <-> has_aspect_line details.
Proof.
  unfold re_search, has_aspect_line, line_starts.
  pose proof (search_from_spec aspect_re details None) as S.
  destruct (search_from aspect_re None details) as [m|].
  - split; [intros _ | discriminate].
    destruct S as (pre & post & E & T & _).
    assert (N : try_at aspect_re (prev_of None pre) post <> None) by congruence.
    apply try_at_aspect in N as [B [W|W]];
      apply starts_with_true in W as [r ->]; [left | right]; now exists pre, r.
  - split; [congruence|]. intros [(pre & post & E & B)|(pre & post & E & B)];
      exfalso.
    + assert (N : try_at aspect_re (prev_of None pre) ((t_en ++ t_169) ++ post)
                  <> None).
      { apply try_at_aspect. split; [exact B | left; apply starts_with_app]. }
      apply N. now apply S.
    + assert (N : try_at aspect_re (prev_of None pre) ((t_en ++ t_43) ++ post)
                  <> None).
      { apply try_at_aspect. split; [exact B | right; apply starts_with_app]. }
      apply N. now apply S.
Qed.

(** X23. A record yields a programme exactly when its start and stop times
    are read (which needs the thirteen fields and a date and two times that
    [strptime] accepts) and a line of its details block starts with
    [En 16:9] or [En 4:3]; when the times are read and no line does, the
    record raises [AttributeError]. *)
Theorem programme_accepted (france_tz : datetime -> Z) (data : list str) :
  ((exists p, programme france_tz data = Ok p)
   <-> (exists times, program_times france_tz data = Ok times)
       /\ exists details, nth_error data 7 = Some details
                          /\ has_aspect_line details)
  /\ (programme france_tz data = Err AttributeError
      <-> (exists times, program_times france_tz data = Ok times)
          /\ exists details, nth_error data 7 = Some details
                             /\ ~ has_aspect_line details).
Proof.
  assert (L : forall times, program_times france_tz data = Ok times ->
                            13 <= length data).
  { intros times Ht. unfold program_times in Ht. bind_inv Ht.
    apply item_ok in Ha as [Ha _].
    assert (N : nth_error data 12 <> None) by congruence.
    apply nth_error_Some in N. lia. }
  assert (I : forall times, program_times france_tz data = Ok times ->
                exists details, nth_error data 7 = Some details).
  { intros times Ht. destruct (nth_error data 7) eqn:E; [eauto|].
    apply nth_error_None in E. specialize (L times Ht). lia. }
  split; split.
  - intros [[p log] H].
    destruct (nth_error data 7) as [details|] eqn:E7.
    + destruct (re_search aspect_re details) as [m|] eqn:A.
      * pose proof H as Hc. apply programme_children in Hc as (times & _ & _ & _ & _ & _ & _ & _ & _ & Ht & _).
        split; [now exists times|]. exists details. split; [reflexivity|].
        apply aspect_search. congruence.
      * exfalso. exact (programme_without_aspect france_tz data details E7 A _ H).
    + apply programme_fields in H. apply nth_error_None in E7. lia.
  - intros [[times Ht] (details & E7 & A)].
    apply aspect_search in A.
    destruct (re_search aspect_re details) as [m|] eqn:Em; [|congruence].
    exact (programme_with_aspect france_tz data details times m (L times Ht) Ht E7 Em).
  - intros H. unfold programme in H.
    destruct (program_times france_tz data) as [times|e] eqn:Ht;
      cbn [bind] in H; [|].
    + split; [now exists times|].
      destruct (I times eq_refl) as [details E7].
      exists details. split; [exact E7|]. intros A. apply aspect_search in A.
      destruct (re_search aspect_re details) as [m|] eqn:Em; [|congruence].
      destruct (programme_with_aspect france_tz data details times m
                  (L times eq_refl) Ht E7 Em) as [p Hp].
      unfold programme in Hp. rewrite Ht in Hp. cbn [bind] in Hp. congruence.
    + exfalso. revert Ht. unfold program_times, item, strptime, datetime_new,
        aware_add_one_day, add_one_day.
      repeat match goal with
             | |- context [match ?x with _ => _ end] => destruct x; cbn [bind]
             end; intros Ht; congruence.
  - intros [[times Ht] (details & E7 & A)].
    assert (Em : re_search aspect_re details = None).
    { destruct (re_search aspect_re details) eqn:Em; [|reflexivity].
      exfalso. apply A, aspect_search. congruence. }
    unfold programme. rewrite Ht. cbn [bind].
    assert (J : forall i, i < 13 -> exists v, item data i = Ok v).
    { intros i Hi. unfold item. destruct (nth_error data i) eqn:E; [eauto|].
      apply nth_error_None in E. specialize (L times Ht). lia. }
    destruct (J 0) as [d0 ->]; [lia|]. cbn [bind].
    unfold item at 1. rewrite E7. cbn [bind].
    destruct (J 2) as [d2 ->]; [lia|]. cbn [bind].
    destruct (J 6) as [d6 ->]; [lia|]. cbn [bind].
    destruct (J 5) as [d5 ->]; [lia|]. cbn [bind].
    unfold video_xml. rewrite Em. reflexivity.
Qed.
